(** * generate.py: podcast feed generation, embedded and verified

    A shallow embedding of [generate.py]: the string helpers, the cover
    resolver [ensure_cover], the metadata extractor [get_episode_info], the
    feed assembler [build_feed] and the entry point.

    Conventions of the model:
    - Python text is represented by its UTF-8 encoding, one [ascii] per
      byte. Replacing U+2019, percent-encoding and comparing strings give
      the same results on the bytes as on the code points. A decimal digit
      is an ASCII digit, and only ASCII letters have a lower case.
    - The file system is a finite map from paths to files; paths are
      compared as text. The log file of lines 24-31 is kept apart from the
      other files, as the list of the entries appended to it; [disk] gives
      the file system with the log file in it. The wall clock, the
      directory listing and the external command are further fields of an
      explicit [world], threaded through a state-and-exception monad
      together with the trace of the effects.
    - A library call fails where the script can meet it: on a missing file,
      on bytes without tag container, on a command that fails or is absent,
      on an error stream that is not UTF-8. Writing a file and creating a
      directory succeed.
    - [EasyID3] gives the keys it registers: [title] and [date], but not
      [comment].
    - Dates are formatted as in the C locale, the year padded with zeros to
      four digits. *)

From Stdlib Require Import ZArith Ascii String List Bool Lia Sorted.
From stdpp Require Import base gmap strings list.

Local Open Scope Z_scope.

(** ** Bytes and text *)

Module Text.

Definition code (c : ascii) : Z := Z.of_nat (nat_of_ascii c).

Definition between (lo hi : Z) (c : ascii) : bool :=
  (lo <=? code c) && (code c <=? hi).

Definition is_digit (c : ascii) : bool := between 48 57 c.
Definition is_upper (c : ascii) : bool := between 65 90 c.
Definition is_lower (c : ascii) : bool := between 97 122 c.

(** [str.lower()] on the ASCII letters; the bytes of a non-ASCII character
    are kept. *)
Definition lower_char (c : ascii) : ascii :=
  if is_upper c then ascii_of_nat (nat_of_ascii c + 32) else c.

Fixpoint lower (s : string) : string :=
  match s with
  | EmptyString => EmptyString
  | String c r => String (lower_char c) (lower r)
  end.

Fixpoint rev_string (s acc : string) : string :=
  match s with
  | EmptyString => acc
  | String c r => rev_string r (String c acc)
  end.

Definition reverse (s : string) : string := rev_string s EmptyString.

(** [s.startswith(p)] *)
Fixpoint startswith (p s : string) : bool :=
  match p, s with
  | EmptyString, _ => true
  | String a p', String b s' => Ascii.eqb a b && startswith p' s'
  | String _ _, EmptyString => false
  end.

(** [s.endswith(p)] *)
Definition endswith (p s : string) : bool :=
  startswith (reverse p) (reverse s).

(** [sub in s] *)
Fixpoint contains (sub s : string) : bool :=
  startswith sub s ||
  match s with
  | EmptyString => false
  | String _ r => contains sub r
  end.

(** [all(P(c) for c in s)] *)
Fixpoint forall_chars (P : ascii -> bool) (s : string) : bool :=
  match s with
  | EmptyString => true
  | String c r => P c && forall_chars P r
  end.

(** A byte of an ASCII character. *)
Definition is_ascii (c : ascii) : bool := code c <? 128.

Definition not_slash (c : ascii) : bool := negb (Ascii.eqb c "/"%char).

Definition hex_digit (n : Z) : ascii :=
  if n <? 10 then ascii_of_nat (Z.to_nat (48 + n))
  else ascii_of_nat (Z.to_nat (55 + n)).

(** [str(n)] for a non-negative integer. *)
Fixpoint digits (fuel : nat) (n : Z) (acc : string) : string :=
  match fuel with
  | O => acc
  | S k =>
      let acc' := String (hex_digit (n mod 10)) acc in
      if n <? 10 then acc' else digits k (n / 10) acc'
  end.

Definition str_of_Z (n : Z) : string :=
  if n <? 0 then String "-"%char (digits (S (Z.to_nat (Z.log2 (- n)))) (- n) EmptyString)
  else digits (S (Z.to_nat (Z.log2 n))) n EmptyString.

(** [n] zeros in front of [s]. *)
Fixpoint zeros (n : nat) (s : string) : string :=
  match n with
  | O => s
  | S k => String "0"%char (zeros k s)
  end.

(** ["%0{w}d" % n] for a non-negative integer: the digits of [n], with
    zeros in front when they are fewer than [w]. *)
Definition pad_left (w : nat) (s : string) : string :=
  zeros (w - String.length s) s.

Definition zero_padded (w : nat) (n : Z) : string := pad_left w (str_of_Z n).

(** A continuation byte of UTF-8. *)
Definition continuation (c : ascii) : bool := between 128 191 c.

(** The byte strings [bytes.decode()] accepts, with its default strict
    UTF-8 codec: sequences of one to four bytes, in their shortest form,
    for the code points up to U+10FFFF without the surrogates. *)
Fixpoint utf8_valid (s : string) : bool :=
  match s with
  | EmptyString => true
  | String a r =>
      if code a <? 128 then utf8_valid r
      else
        match r with
        | String b r1 =>
            if between 194 223 a then continuation b && utf8_valid r1
            else
              match r1 with
              | String c r2 =>
                  if between 224 239 a then
                    (if code a =? 224 then between 160 191 b
                     else if code a =? 237 then between 128 159 b
                     else continuation b)
                    && continuation c && utf8_valid r2
                  else
                    match r2 with
                    | String d r3 =>
                        between 240 244 a
                        && (if code a =? 240 then between 144 191 b
                            else if code a =? 244 then between 128 143 b
                            else continuation b)
                        && continuation c && continuation d && utf8_valid r3
                    | EmptyString => false
                    end
              | EmptyString => false
              end
        | EmptyString => false
        end
  end.

End Text.

(** ** Lines 34-36: [clean_apostrophes] *)

(** The curly apostrophe U+2019 is the byte sequence E2 80 99 in UTF-8; the
    straight apostrophe is the byte 27. *)
Definition curly : string :=
  String "226"%char (String "128"%char (String "153"%char EmptyString)).
Definition straight : ascii := "'"%char.

(** [text.replace('’', "'")]: a left-to-right scan that replaces every
    occurrence. *)
Fixpoint clean_apostrophes (text : string) : string :=
  match text with
  | EmptyString => EmptyString
  | String c rest =>
      match rest with
      | String c2 (String c3 rest') =>
          if Ascii.eqb c "226"%char && Ascii.eqb c2 "128"%char && Ascii.eqb c3 "153"%char
          then String straight (clean_apostrophes rest')
          else String c (clean_apostrophes rest)
      | _ => String c (clean_apostrophes rest)
      end
  end.

(** ** [urllib.parse.quote] with its default [safe='/'] *)

Definition always_safe (c : ascii) : bool :=
  Text.is_upper c || Text.is_lower c || Text.is_digit c ||
  Ascii.eqb c "_"%char || Ascii.eqb c "."%char || Ascii.eqb c "-"%char || Ascii.eqb c "~"%char.

Definition quote_byte (c : ascii) (k : string) : string :=
  if always_safe c || Ascii.eqb c "/"%char then String c k
  else String "%"%char (String (Text.hex_digit (Text.code c / 16))
                     (String (Text.hex_digit (Text.code c mod 16)) k)).

Fixpoint quote (s : string) : string :=
  match s with
  | EmptyString => EmptyString
  | String c r => quote_byte c (quote r)
  end.

(** ** [os.path] on POSIX paths *)

Module Path.

(** [os.path.join(a, b)] *)
Definition join (a b : string) : string :=
  if Text.startswith "/" b then b
  else if String.eqb a "" || Text.endswith "/" a then a +:+ b
  else a +:+ "/" +:+ b.

(** The text after the last slash, scanning with the part read so far. *)
Fixpoint last_component (s cur : string) : string :=
  match s with
  | EmptyString => Text.reverse cur
  | String c r =>
      if Ascii.eqb c "/"%char then last_component r EmptyString
      else last_component r (String c cur)
  end.

(** [os.path.basename(p)] *)
Definition basename (p : string) : string := last_component p EmptyString.

Fixpoint strip_slashes (s : string) : string :=
  match s with
  | String c r => if Ascii.eqb c "/"%char then strip_slashes r else s
  | EmptyString => EmptyString
  end.

(** [os.path.dirname(p)]: the head up to and including the last slash,
    with its trailing slashes removed unless it consists of slashes only. *)
Definition dirname (p : string) : string :=
  let n := (String.length p - String.length (basename p))%nat in
  let head := String.substring 0 n p in
  match strip_slashes (Text.reverse head) with
  | EmptyString => head
  | rest => Text.reverse rest
  end.

(** The index of the last dot of [s], if any. *)
Fixpoint rfind_dot (s : string) (i : nat) (found : option nat) : option nat :=
  match s with
  | EmptyString => found
  | String c r =>
      rfind_dot r (S i) (if Ascii.eqb c "."%char then Some i else found)
  end.

(** The number of dots at the start of [s]. *)
Fixpoint leading_dots (s : string) : nat :=
  match s with
  | String c r => if Ascii.eqb c "."%char then S (leading_dots r) else O
  | EmptyString => O
  end.

(** [os.path.splitext(p)[0]] for a path without a directory part: the
    extension starts at the last dot, unless only dots precede it. *)
Definition splitext_root (name : string) : string :=
  match rfind_dot name 0 None with
  | Some i =>
      if (leading_dots name <=? i)%nat && negb (leading_dots name =? i)%nat
      then String.substring 0 i name
      else name
  | None => name
  end.

End Path.

(** ** [datetime]: parsing and formatting *)

Module Datetime.

(** A [datetime] object. [utcoffset] is the offset in minutes of an aware
    object and [None] for a naive one, one without [tzinfo]. *)
Record datetime := mk_datetime {
  year : Z; month : Z; day : Z;
  hour : Z; minute : Z; second : Z;
  utcoffset : option Z
}.

Definition is_leap (y : Z) : bool :=
  (y mod 4 =? 0) && (negb (y mod 100 =? 0) || (y mod 400 =? 0)).

Definition days_in_month (y m : Z) : Z :=
  if (m =? 2) && is_leap y then 29
  else nth (Z.to_nat m) [0; 31; 28; 31; 30; 31; 30; 31; 31; 30; 31; 30; 31] 0.

Definition days_before_year (y : Z) : Z :=
  let p := y - 1 in p * 365 + p / 4 - p / 100 + p / 400.

Definition days_before_month (y m : Z) : Z :=
  nth (Z.to_nat m) [0; 0; 31; 59; 90; 120; 151; 181; 212; 243; 273; 304; 334] 0
  + (if (2 <? m) && is_leap y then 1 else 0).

(** [date.toordinal()]: 1 for 0001-01-01. *)
Definition toordinal (d : datetime) : Z :=
  days_before_year (year d) + days_before_month (year d) (month d) + day d.

(** [date.weekday()]: 0 for Monday. *)
Definition weekday (d : datetime) : Z := (toordinal d + 6) mod 7.

(** The constructor's range check; [None] stands for its [ValueError]. *)
Definition make (y m d : Z) : option datetime :=
  if (1 <=? y) && (y <=? 9999) && (1 <=? m) && (m <=? 12)
     && (1 <=? d) && (d <=? days_in_month y m)
  then Some (mk_datetime y m d 0 0 0 None)
  else None.

Definition digit (c : ascii) : option Z :=
  if Text.is_digit c then Some (Text.code c - 48) else None.

Definition digit_in (lo hi : Z) (c : ascii) : option Z :=
  match digit c with
  | Some v => if (lo <=? v) && (v <=? hi) then Some v else None
  | None => None
  end.

(** The directive [%Y]: four digits. *)
Definition read_Y (s : string) : option (Z * string) :=
  match s with
  | String a (String b (String c (String d r))) =>
      match digit a, digit b, digit c, digit d with
      | Some va, Some vb, Some vc, Some vd =>
          Some (1000 * va + 100 * vb + 10 * vc + vd, r)
      | _, _, _, _ => None
      end
  | _ => None
  end.

(** The directive [%m]: the alternatives [1[0-2]], [0[1-9]] and [[1-9]],
    tried in this order. *)
Definition read_m (s : string) : option (Z * string) :=
  match s with
  | String a r =>
      let two :=
        match r with
        | String b r' =>
            if Ascii.eqb a "1"%char then
              match digit_in 0 2 b with Some v => Some (10 + v, r') | None => None end
            else if Ascii.eqb a "0"%char then
              match digit_in 1 9 b with Some v => Some (v, r') | None => None end
            else None
        | EmptyString => None
        end in
      match two with
      | Some res => Some res
      | None =>
          match digit_in 1 9 a with Some v => Some (v, r) | None => None end
      end
  | EmptyString => None
  end.

(** The directive [%d]: the alternatives [3[0-1]], [[1-2]\d], [0[1-9]],
    [[1-9]] and a space followed by [[1-9]], tried in this order. *)
Definition read_d (s : string) : option (Z * string) :=
  match s with
  | String a r =>
      let two :=
        match r with
        | String b r' =>
            if Ascii.eqb a "3"%char then
              match digit_in 0 1 b with Some v => Some (30 + v, r') | None => None end
            else if Ascii.eqb a "1"%char || Ascii.eqb a "2"%char then
              match digit a, digit b with
              | Some va, Some vb => Some (10 * va + vb, r')
              | _, _ => None
              end
            else if Ascii.eqb a "0"%char || Ascii.eqb a " "%char then
              match digit_in 1 9 b with Some v => Some (v, r') | None => None end
            else None
        | EmptyString => None
        end in
      match two with
      | Some res => Some res
      | None =>
          match digit_in 1 9 a with Some v => Some (v, r) | None => None end
      end
  | EmptyString => None
  end.

Definition read_dash (s : string) : option string :=
  match s with
  | String c r => if Ascii.eqb c "-"%char then Some r else None
  | EmptyString => None
  end.

(** [datetime.strptime(s, '%Y-%m-%d')]; [None] stands for [ValueError]:
    the text does not match, unconverted data remains, or the fields are
    out of range. *)
Definition strptime (s : string) : option datetime :=
  match read_Y s with
  | Some (y, s1) =>
      match read_dash s1 with
      | Some s2 =>
          match read_m s2 with
          | Some (m, s3) =>
              match read_dash s3 with
              | Some s4 =>
                  match read_d s4 with
                  | Some (d, EmptyString) => make y m d
                  | _ => None
                  end
              | None => None
              end
          | None => None
          end
      | None => None
      end
  | None => None
  end.

Definition day_abbr (w : Z) : string :=
  nth (Z.to_nat w) ["Mon"; "Tue"; "Wed"; "Thu"; "Fri"; "Sat"; "Sun"] "".

Definition month_abbr (m : Z) : string :=
  nth (Z.to_nat m)
    [""; "Jan"; "Feb"; "Mar"; "Apr"; "May"; "Jun";
     "Jul"; "Aug"; "Sep"; "Oct"; "Nov"; "Dec"] "".

(** The directive [%z]: empty for a naive object, [+HHMM] or [-HHMM] for
    an aware one. *)
Definition format_z (off : option Z) : string :=
  match off with
  | None => ""
  | Some o =>
      (if o <? 0 then "-" else "+")
      +:+ Text.zero_padded 2 (Z.abs o / 60) +:+ Text.zero_padded 2 (Z.abs o mod 60)
  end.

(** [dt.strftime('%a, %d %b %Y %H:%M:%S %z')] in the C locale. *)
Definition strftime (dt : datetime) : string :=
  day_abbr (weekday dt) +:+ ", " +:+ Text.zero_padded 2 (day dt) +:+ " "
  +:+ month_abbr (month dt) +:+ " " +:+ Text.zero_padded 4 (year dt) +:+ " "
  +:+ Text.zero_padded 2 (hour dt) +:+ ":" +:+ Text.zero_padded 2 (minute dt)
  +:+ ":" +:+ Text.zero_padded 2 (second dt) +:+ " " +:+ format_z (utcoffset dt).

End Datetime.

(** ** Configuration (lines 15-24) *)

Definition PODCAST_TITLE : string := "Nash Spence Music".
Definition PODCAST_LINK : string := "https://0819870.xyz/music/nash-spence/".
Definition PODCAST_ART : string := "logo.jpg".
Definition PODCAST_DESCRIPTION : string := "A collection of songs by Nash Spence".
Definition PODCAST_CATEGORY : string := "Music".
Definition PODCAST_LANGUAGE : string := "en".
Definition PODCAST_EXPLICIT : string := "true".
Definition EPISODE_ART_DIR : string := "covers".
(** [os.path.expanduser] leaves a path that does not start with a tilde as
    it is. *)
Definition LOG_PATH : string := "/Users/nashspence/Desktop/rss_feed_log.txt".

(** ** The feed document built with [xml.etree.ElementTree] *)

Record enclosure := mk_enclosure {
  enc_url : string;
  enc_length : string;
  enc_type : string
}.

(** An [item] element: its children in document order. *)
Record item := mk_item {
  item_title : string;
  item_author : string;
  item_link : string;
  item_enclosure : enclosure;
  item_guid : string;
  item_pubDate : string;
  item_description : string;
  item_image : option string
}.

(** The [rss] element: the fixed channel fields and the items. *)
Record feed := mk_feed {
  channel_title : string;
  channel_link : string;
  channel_language : string;
  channel_explicit : string;
  channel_category : string;
  channel_image : string;
  channel_description : string;
  channel_items : list item
}.

(** ** The world outside the script *)

(** An ID3 frame as [ensure_cover] tells them apart: an attached picture
    with its picture type and data, or any other frame. *)
Inductive frame :=
  | APIC (type : Z) (data : string)
  | OtherFrame (id : string).

(** A tag container: the first text of the title frame, of the date frame
    and of the comment frame, where the file has them, and the frames as
    [ID3] lists them. *)
Record id3_tags := mk_tags {
  tag_title : option string;
  tag_date : option string;
  tag_comment : option string;
  tag_frames : list frame
}.

(** A file holds bytes, in which mutagen finds a tag container or not, or a
    feed document written by the script. *)
Inductive content :=
  | Bytes (tags : option id3_tags)
  | Xml (doc : feed).

Record file := mk_file {
  file_size : Z;
  file_content : content
}.

Inductive level := INFO | WARNING | ERROR.

(** What [subprocess.run(cmd, check=True, ...)] meets: the command writes
    its output file and exits with status 0, exits with another status
    (leaving the bytes of its error stream), or cannot be started. *)
Inductive ffmpeg_result :=
  | Exit0 (out : file)
  | ExitNonZero (stderr : string)
  | NotFound.

(** The exceptions of the run. [ID3Error] is [mutagen.id3.error], raised
    for bytes without a readable tag container; [MutagenError] is its base
    class, raised when the file cannot be opened. [CalledProcessError]
    carries the bytes of the error stream, [UnicodeDecodeError] the bytes
    that could not be decoded. *)
Inductive exn :=
  | ID3Error (msg : string)
  | MutagenError (msg : string)
  | OSError (msg : string)
  | CalledProcessError (stderr : string)
  | UnicodeDecodeError (object : string).

(** The effects on the outside, in the order they happen. *)
Inductive event :=
  | EvListdir (dir : string)
  | EvRename (src dst : string)
  | EvOpenTags (path : string)
  | EvExists (path : string)
  | EvMakedirs (path : string)
  | EvWrite (path : string)
  | EvRun (cmd : list string)
  | EvRemove (path : string)
  | EvGetsize (path : string)
  | EvWriteFeed (path : string).

(** The world. The log file, the file at [LOG_PATH] that lines 27-31 open
    for appending when the script is loaded, is kept apart from the other
    files: [log] holds the entries appended to it, oldest first, and [fs]
    holds every other file. [disk] below puts the two together. *)
Record world := mk_world {
  fs : gmap string file;
  log : list (level * string);
  trace : list event;
  ticks : nat;
  (** the reading of the wall clock at each call of [datetime.now()] *)
  clock : nat -> Datetime.datetime;
  (** the behaviour of the external command on an input and output path *)
  ffmpeg : string -> string -> ffmpeg_result;
  (** the entries [os.listdir] reports, [None] for a missing directory *)
  listing : string -> option (list string);
  (** the size of a document serialized by [ElementTree.write] *)
  serialized_size : feed -> Z
}.

Definition with_fs (f : gmap string file -> gmap string file) (w : world) : world :=
  mk_world (f (fs w)) (log w) (trace w) (ticks w)
           (clock w) (ffmpeg w) (listing w) (serialized_size w).

Definition with_log (e : level * string) (w : world) : world :=
  mk_world (fs w) (log w ++ [e]) (trace w) (ticks w)
           (clock w) (ffmpeg w) (listing w) (serialized_size w).

Definition with_event (e : event) (w : world) : world :=
  mk_world (fs w) (log w) (trace w ++ [e]) (ticks w)
           (clock w) (ffmpeg w) (listing w) (serialized_size w).

Definition with_tick (w : world) : world :=
  mk_world (fs w) (log w) (trace w) (S (ticks w))
           (clock w) (ffmpeg w) (listing w) (serialized_size w).

(** ** The monad of the script: state and exceptions *)

Inductive result (A : Type) :=
  | Ok (a : A)
  | Raise (e : exn).
Arguments Ok {A} a.
Arguments Raise {A} e.

(** A computation of the script: it runs in a world and leaves a result or
    an exception, and the world after its effects. *)
Record M (A : Type) := mk_M { run : world -> result A * world }.
Arguments mk_M {A} run.
Arguments run {A} m w.

Definition ret {A} (a : A) : M A := mk_M (fun w => (Ok a, w)).

Definition bind {A B} (m : M A) (k : A -> M B) : M B :=
  mk_M (fun w =>
    match run m w with
    | (Ok a, w') => run (k a) w'
    | (Raise e, w') => (Raise e, w')
    end).

Definition raise {A} (e : exn) : M A := mk_M (fun w => (Raise e, w)).

(** [try: m  except ...: h]: the handler picks the exceptions it catches. *)
Definition try_except {A} (m : M A) (h : exn -> option (M A)) : M A :=
  mk_M (fun w =>
    match run m w with
    | (Ok a, w') => (Ok a, w')
    | (Raise e, w') =>
        match h e with
        | Some k => run k w'
        | None => (Raise e, w')
        end
    end).

#[global] Instance M_ret : MRet M := @ret.
#[global] Instance M_bind : MBind M := fun A B k m => bind m k.

(** An effect given by what it does to the world. *)
Definition effect {A} (f : world -> result A * world) : M A := mk_M f.

Definition emit (e : event) : M unit := effect (fun w => (Ok tt, with_event e w)).

(** [logging.info], [logging.warning] and [logging.error]: with the
    configuration of lines 27-31 every call appends one entry to the log
    file. *)
Definition logging (l : level) (msg : string) : M unit :=
  effect (fun w => (Ok tt, with_log (l, msg) w)).

(** ** The library calls of the script *)

(** [ID3(path)] and [EasyID3(path)] *)
Definition open_tags (path : string) : M id3_tags :=
  emit (EvOpenTags path) ;;
  effect (fun w =>
    match fs w !! path with
    | None => (Raise (MutagenError path), w)
    | Some f =>
        match file_content f with
        | Bytes (Some t) => (Ok t, w)
        | _ => (Raise (ID3Error path), w)
        end
    end).

(** [os.path.exists(path)] *)
Definition path_exists (path : string) : M bool :=
  emit (EvExists path) ;;
  effect (fun w => (Ok (bool_decide (is_Some (fs w !! path))), w)).

(** [os.makedirs(path, exist_ok=True)] *)
Definition makedirs (path : string) : M unit := emit (EvMakedirs path).

(** [with open(path, 'wb') as img: img.write(data)] *)
Definition write_bytes (path data : string) : M unit :=
  emit (EvWrite path) ;;
  effect (fun w =>
    (Ok tt, with_fs (insert path (mk_file (Z.of_nat (String.length data)) (Bytes None))) w)).

(** [subprocess.run(cmd, check=True, ...)] for the command of lines 66-72,
    which reads [cmd[3]] and writes [cmd[8]]. *)
Definition subprocess_run (cmd : list string) : M unit :=
  emit (EvRun cmd) ;;
  effect (fun w =>
    match ffmpeg w (nth 3 cmd "") (nth 8 cmd "") with
    | Exit0 out => (Ok tt, with_fs (insert (nth 8 cmd "") out) w)
    | ExitNonZero err => (Raise (CalledProcessError err), w)
    | NotFound => (Raise (OSError (nth 0 cmd "")), w)
    end).

(** [os.remove(path)] *)
Definition remove (path : string) : M unit :=
  emit (EvRemove path) ;;
  effect (fun w =>
    match fs w !! path with
    | Some _ => (Ok tt, with_fs (delete path) w)
    | None => (Raise (OSError path), w)
    end).

(** [os.rename(src, dst)] *)
Definition rename (src dst : string) : M unit :=
  emit (EvRename src dst) ;;
  effect (fun w =>
    match fs w !! src with
    | Some f => (Ok tt, with_fs (fun m => <[dst := f]> (delete src m)) w)
    | None => (Raise (OSError src), w)
    end).

(** [os.path.getsize(path)] *)
Definition getsize (path : string) : M Z :=
  emit (EvGetsize path) ;;
  effect (fun w =>
    match fs w !! path with
    | Some f => (Ok (file_size f), w)
    | None => (Raise (OSError path), w)
    end).

(** [os.listdir(dir)] *)
Definition listdir (dir : string) : M (list string) :=
  emit (EvListdir dir) ;;
  effect (fun w =>
    match listing w dir with
    | Some names => (Ok names, w)
    | None => (Raise (OSError dir), w)
    end).

(** [datetime.now()]: a naive object read from the wall clock. *)
Definition now : M Datetime.datetime :=
  effect (fun w =>
    let t := clock w (ticks w) in
    (Ok (Datetime.mk_datetime (Datetime.year t) (Datetime.month t) (Datetime.day t)
           (Datetime.hour t) (Datetime.minute t) (Datetime.second t) None),
     with_tick w)).

(** [tree.write(path, encoding='utf-8', xml_declaration=True)] *)
Definition tree_write (path : string) (doc : feed) : M unit :=
  emit (EvWriteFeed path) ;;
  effect (fun w =>
    (Ok tt, with_fs (insert path (mk_file (serialized_size w doc) (Xml doc))) w)).

(** [stderr.decode()]: the text of bytes that are well-formed UTF-8, which
    the model writes with the same bytes; [UnicodeDecodeError] for others. *)
Definition decode (bytes : string) : M string :=
  if Text.utf8_valid bytes then mret bytes else raise (UnicodeDecodeError bytes).

(** [audio.get(key, [default])[0]] on an [EasyID3] object, without the
    default: the first value of a key that [EasyID3] registers and the
    container has. Among the keys the script asks for, [title] and [date]
    are registered; [comment] is not, and for a key that is not registered
    [get] gives the default whatever the container holds. *)
Definition easy_get (key : string) (audio : id3_tags) : option string :=
  if String.eqb key "title" then tag_title audio
  else if String.eqb key "date" then tag_date audio
  else None.

(** The text of an exception in a log message. *)
Definition exn_text (e : exn) : string :=
  match e with
  | ID3Error m | MutagenError m | OSError m | CalledProcessError m
  | UnicodeDecodeError m => m
  end.

(** ** Lines 39-83: [ensure_cover] *)

Definition ffmpeg_filter : string :=
  "scale='if(gt(iw,ih),min(3000,iw),-2)':'if(gt(ih,iw),min(3000,ih),-2)',pad=1400:1400:(ow-iw)/2:(oh-ih)/2'".

Definition ffmpeg_cmd (temp_path final_path : string) : list string :=
  ["ffmpeg"; "-y"; "-i"; temp_path; "-vf"; ffmpeg_filter; "-dpi"; "72"; final_path].

(** Lines 60-80: the body of the loop for a front cover. *)
Definition extract_cover (mp3_path cover_dir base cover_name cover_path img_data : string)
  : M (option string) :=
  makedirs cover_dir ;;
  let temp_path := Path.join cover_dir (base +:+ "_tmp") in
  write_bytes temp_path img_data ;;
  let final_path := cover_path in
  let cmd := ffmpeg_cmd temp_path final_path in
  try_except
    (subprocess_run cmd ;;
     remove temp_path ;;
     logging INFO ("Extracted and resized cover for " +:+ mp3_path) ;;
     mret (Some cover_name))
    (fun e =>
       match e with
       | CalledProcessError stderr =>
           Some (text ← decode stderr;
                 logging ERROR ("ffmpeg error for " +:+ mp3_path +:+ ": " +:+ text) ;;
                 mret None)
       | _ => None
       end).

(** Lines 58-83: the loop over the frames and what follows it. *)
Fixpoint cover_loop (mp3_path cover_dir base cover_name cover_path : string)
  (tags : list frame) : M (option string) :=
  match tags with
  | [] =>
      logging WARNING ("No APIC cover found in " +:+ mp3_path) ;;
      mret None
  | tag :: rest =>
      match tag with
      | APIC type data =>
          if type =? 3
          then extract_cover mp3_path cover_dir base cover_name cover_path data
          else cover_loop mp3_path cover_dir base cover_name cover_path rest
      | OtherFrame _ =>
          cover_loop mp3_path cover_dir base cover_name cover_path rest
      end
  end.

Definition ensure_cover (mp3_path cover_dir : string) : M (option string) :=
  opened ← try_except
    (tags ← open_tags mp3_path; mret (Some tags))
    (fun e =>
       match e with
       | ID3Error msg =>
           Some (logging ERROR ("ID3 error for " +:+ mp3_path +:+ ": " +:+ msg) ;;
                 mret None)
       | _ => None
       end);
  match opened with
  | None => mret None
  | Some tags =>
      let base := Path.splitext_root (Path.basename mp3_path) in
      let cover_name := base +:+ ".jpg" in
      let cover_path := Path.join cover_dir cover_name in
      found ← path_exists cover_path;
      if found : bool then mret (Some cover_name)
      else cover_loop mp3_path cover_dir base cover_name cover_path (tag_frames tags)
  end.

(** ** Lines 86-126: [get_episode_info] *)

Record episode := mk_episode {
  ep_title : string;
  ep_filename : string;
  ep_link : string;
  ep_pubDate : string;
  ep_description : string;
  ep_cover : option string;
  ep_file_path : string
}.

(** Lines 103-112: the publish date from the date tag. *)
Definition publish_datetime (clean_name : string) (date_tag : option string)
  : M Datetime.datetime :=
  match date_tag with
  | Some (String c r as text) =>
      match Datetime.strptime text with
      | Some pub_dt => mret pub_dt
      | None =>
          pub_dt ← now;
          logging WARNING ("Invalid date tag in " +:+ clean_name +:+ ", using now.") ;;
          mret pub_dt
      end
  | _ =>
      pub_dt ← now;
      logging WARNING ("Missing date tag in " +:+ clean_name +:+ ", using now.") ;;
      mret pub_dt
  end.

(** Lines 90-94: the renaming; the result is the path read from then on. *)
Definition rename_step (mp3_path filename clean_name : string) : M string :=
  if String.eqb filename clean_name then mret mp3_path
  else
    let new_path := Path.join (Path.dirname mp3_path) clean_name in
    rename mp3_path new_path ;;
    logging INFO ("Renamed file " +:+ filename +:+ " -> " +:+ clean_name) ;;
    mret new_path.

Definition get_episode_info (mp3_path base_url cover_dir : string) : M episode :=
  let filename := Path.basename mp3_path in
  let clean_name := clean_apostrophes filename in
  mp3_path ← rename_step mp3_path filename clean_name;
  audio ← open_tags mp3_path;
  tags ← open_tags mp3_path;
  let title := clean_apostrophes
                 (default (Path.splitext_root clean_name) (easy_get "title" audio)) in
  let url := base_url +:+ quote clean_name in
  let date_tag := easy_get "date" audio in
  pub_dt ← publish_datetime clean_name date_tag;
  let pub_date := Datetime.strftime pub_dt in
  let comment := default "" (easy_get "comment" audio) in
  cover_file ← ensure_cover mp3_path cover_dir;
  mret (mk_episode title clean_name url pub_date comment cover_file mp3_path).

(** ** Lines 129-184: [build_feed] *)

(** [list.sort(key=...)]: a stable sort that compares keys with [<]. An
    element is placed before the first element of the sorted rest whose key
    is not smaller than its own. *)
Fixpoint insert_by_key {A} (key : A -> string) (x : A) (l : list A) : list A :=
  match l with
  | [] => [x]
  | y :: r =>
      if String.ltb (key y) (key x) then y :: insert_by_key key x r
      else x :: l
  end.

Definition sort_by_key {A} (key : A -> string) (l : list A) : list A :=
  foldr (insert_by_key key) [] l.

(** Line 143: the names ending in [.mp3], whatever the case. *)
Definition is_mp3 (f : string) : bool := Text.endswith ".mp3" (Text.lower f).

(** Lines 146-149: the first loop. *)
Fixpoint collect_episodes (directory cover_dir : string) (mp3s : list string)
  (episodes : list (string * episode)) : M (list (string * episode)) :=
  match mp3s with
  | [] => mret episodes
  | f :: rest =>
      let path := Path.join directory f in
      info ← get_episode_info path PODCAST_LINK cover_dir;
      collect_episodes directory cover_dir rest (episodes ++ [(ep_pubDate info, info)])
  end.

(** Lines 154-179: one [item] element. *)
Definition make_item (info : episode) : M item :=
  file_size ← try_except (getsize (ep_file_path info))
    (fun e =>
       match e with
       | OSError _ =>
           Some (logging WARNING ("Could not get file size for " +:+ ep_file_path info) ;;
                 mret 0)
       | _ => None
       end);
  let enclosure_url := PODCAST_LINK +:+ quote (ep_filename info) in
  let enclosure := mk_enclosure enclosure_url (Text.str_of_Z file_size) "audio/mpeg" in
  let image :=
    match ep_cover info with
    | Some (String c r as cover) =>
        Some (PODCAST_LINK +:+ EPISODE_ART_DIR +:+ "/" +:+ cover)
    | _ => None
    end in
  mret (mk_item (ep_title info) "Nash Spence" (ep_link info) enclosure enclosure_url
          (ep_pubDate info) (ep_description info) image).

(** Lines 153-179: the second loop. *)
Fixpoint emit_items (episodes : list (string * episode)) (items : list item)
  : M (list item) :=
  match episodes with
  | [] => mret items
  | (_, info) :: rest =>
      it ← make_item info;
      emit_items rest (items ++ [it])
  end.

Definition build_feed (directory : string) : M unit :=
  names ← listdir directory;
  let mp3s := filter (fun f => is_mp3 f = true) names in
  let cover_dir := Path.join directory EPISODE_ART_DIR in
  episodes ← collect_episodes directory cover_dir mp3s [];
  let episodes := sort_by_key fst episodes in
  items ← emit_items episodes [];
  let rss := mk_feed PODCAST_TITLE PODCAST_LINK PODCAST_LANGUAGE PODCAST_EXPLICIT
               PODCAST_CATEGORY (PODCAST_LINK +:+ PODCAST_ART) PODCAST_DESCRIPTION items in
  let out_path := Path.join directory "feed.xml" in
  tree_write out_path rss ;;
  logging INFO ("Wrote feed to " +:+ out_path).

(** ** Lines 187-196: the entry point

    The result is the exit status. The usage line printed on standard
    output is not part of the world. *)
Definition main (argv : list string) : world -> Z * world :=
  fun w =>
    match argv with
    | _ :: target_dir :: _ =>
        match run (build_feed target_dir) w with
        | (Ok _, w') => (0, w')
        | (Raise e, w') =>
            (1, with_log (ERROR, "Failed to build feed: " +:+ exn_text e) w')
        end
    | _ => (1, w)
    end.

(** ** Reading the outcome of a run *)

(** The document stored at a path, if a feed was written there. *)
Definition feed_at (w : world) (path : string) : option feed :=
  match fs w !! path with
  | Some f => match file_content f with Xml doc => Some doc | Bytes _ => None end
  | None => None
  end.

(** The titles and the publish dates of the items of the feed at a path, in
    document order. *)
Definition titles_at (w : world) (path : string) : option (list (string * string)) :=
  (fun doc => map (fun it => (item_title it, item_pubDate it)) (channel_items doc))
    <$> feed_at w path.

(** The first front cover among the frames: the one the loop of
    [ensure_cover] stops at. *)
Fixpoint front_cover (tags : list frame) : option string :=
  match tags with
  | [] => None
  | APIC type data :: rest => if type =? 3 then Some data else front_cover rest
  | OtherFrame _ :: rest => front_cover rest
  end.

(** An element of the list [episodes] of line 149. *)
Definition keyed (info : episode) : string * episode := (ep_pubDate info, info).

(** The first loop of [build_feed] run to its end without an exception: the
    worlds before and after, the names processed and the episodes obtained,
    both in listing order. *)
Inductive processed (directory cover_dir : string)
  : world -> list string -> list episode -> world -> Prop :=
  | processed_nil w : processed directory cover_dir w [] [] w
  | processed_cons w w1 w2 f rest info infos :
      run (get_episode_info (Path.join directory f) PODCAST_LINK cover_dir) w = (Ok info, w1) ->
      processed directory cover_dir w1 rest infos w2 ->
      processed directory cover_dir w (f :: rest) (info :: infos) w2.

(** The second loop run to its end: the worlds before and after, the
    episodes in feed order and the items obtained. *)
Inductive emitted : world -> list episode -> list item -> world -> Prop :=
  | emitted_nil w : emitted w [] [] w
  | emitted_cons w w1 w2 info rest it items :
      run (make_item info) w = (Ok it, w1) ->
      emitted w1 rest items w2 ->
      emitted w (info :: rest) (it :: items) w2.

(** The path [get_episode_info] reads from after lines 88-94. *)
Definition renamed_path (mp3_path : string) : string :=
  let filename := Path.basename mp3_path in
  if String.eqb filename (clean_apostrophes filename) then mp3_path
  else Path.join (Path.dirname mp3_path) (clean_apostrophes filename).

(** The reading of the wall clock that the next [datetime.now()] returns. *)
Definition wall_clock (w : world) : Datetime.datetime :=
  let t := clock w (ticks w) in
  Datetime.mk_datetime (Datetime.year t) (Datetime.month t) (Datetime.day t)
    (Datetime.hour t) (Datetime.minute t) (Datetime.second t) None.

(** A date tag the code replaces by the wall clock: absent, empty, or
    refused by [strptime]. *)
Definition rejected (date_tag : option string) : Prop :=
  date_tag = None \/ date_tag = Some ""
  \/ exists text, date_tag = Some text /\ Datetime.strptime text = None.

(** The dictionary of lines 118-126 for a file read at [path] under the
    name [clean_name], with the tags [audio], the publish date [pub_dt] and
    the cover [cover]. *)
Definition episode_of (clean_name base_url : string) (audio : id3_tags)
  (pub_dt : Datetime.datetime) (cover : option string) (path : string) : episode :=
  mk_episode
    (clean_apostrophes (default (Path.splitext_root clean_name) (easy_get "title" audio)))
    clean_name (base_url +:+ quote clean_name) (Datetime.strftime pub_dt)
    (default "" (easy_get "comment" audio)) cover path.

(** The world in which the publish date is derived: after the two readings
    of the tag container. *)
Definition opened (path : string) (w : world) : world :=
  with_event (EvOpenTags path) (with_event (EvOpenTags path) w).

(** The document of lines 131-141 and 181 with the given items. *)
Definition rss_of (items : list item) : feed :=
  mk_feed PODCAST_TITLE PODCAST_LINK PODCAST_LANGUAGE PODCAST_EXPLICIT
    PODCAST_CATEGORY (PODCAST_LINK +:+ PODCAST_ART) PODCAST_DESCRIPTION items.

(** The world after lines 181-184 have written a feed with the given items. *)
Definition written (directory : string) (items : list item) (w : world) : world :=
  let out_path := Path.join directory "feed.xml" in
  with_log (INFO, "Wrote feed to " +:+ out_path)
    (with_fs (insert out_path (mk_file (serialized_size w (rss_of items)) (Xml (rss_of items))))
       (with_event (EvWriteFeed out_path) w)).

(** The event of line 183. *)
Definition is_feed_write (e : event) : Prop :=
  match e with EvWriteFeed _ => True | _ => False end.

(** Between two worlds, the file at [out] is the same and no feed document
    was written. *)
Definition keeps (out : string) (w w' : world) : Prop :=
  fs w' !! out = fs w !! out
  /\ exists evs, trace w' = trace w ++ evs /\ Forall (fun e => ~ is_feed_write e) evs.

(** A computation that, whatever its outcome, keeps the file at [out] and
    writes no feed document. *)
Definition preserves {A} (out : string) (m : M A) : Prop :=
  forall w r w', run m w = (r, w') -> keeps out w w'.

(** The events of a cover extraction (lines 61-75). *)
Definition is_cover_work (e : event) : Prop :=
  match e with
  | EvMakedirs _ | EvWrite _ | EvRun _ | EvRemove _ => True
  | _ => False
  end.

(** Chronological order of two dates. *)
Definition earlier (a b : Datetime.datetime) : Prop :=
  Datetime.toordinal a < Datetime.toordinal b.

(** ** Example directories *)

Definition noon : Datetime.datetime := Datetime.mk_datetime 2024 1 15 12 0 0 None.

(** A world with the given files, listing of the directory [music] and
    behaviour of the external command; nothing logged or done yet. *)
Definition example_world (files : list (string * file)) (names : list string)
  (cmd : ffmpeg_result) : world :=
  mk_world (list_to_map files) [] [] 0 (fun _ => noon) (fun _ _ => cmd)
    (fun d => if String.eqb d "music" then Some names else None)
    (fun _ => 0).

Definition audio (size : Z) (tags : id3_tags) : file := mk_file size (Bytes (Some tags)).

(** The example of the specification: [Song.mp3] dated 2023-05-01 and
    [Other.mp3] dated 2023-04-01. *)
Definition song_tags : id3_tags :=
  mk_tags (Some "Song") (Some "2023-05-01") (Some "first track") [].
Definition other_tags : id3_tags := mk_tags None (Some "2023-04-01") None [].

Definition spec_example (names : list string) : world :=
  example_world [("music/Song.mp3", audio 100 song_tags);
                 ("music/Other.mp3", audio 200 other_tags)] names NotFound.

(** A directory in which [Broken.mp3] holds no tag container. *)
Definition broken_example : world :=
  example_world [("music/Song.mp3", audio 100 song_tags);
                 ("music/Broken.mp3", mk_file 50 (Bytes None))]
    ["Song.mp3"; "Broken.mp3"] NotFound.

(** A file with an embedded front cover, on a machine without the external
    command. *)
Definition cover_tags : id3_tags :=
  mk_tags (Some "Song") (Some "2023-05-01") None [OtherFrame "TIT2"; APIC 3 "JFIF"].

Definition no_command_example : world :=
  example_world [("music/Song.mp3", audio 100 cover_tags)] ["Song.mp3"] NotFound.

(** A file whose name has a curly apostrophe. *)
Definition its_tags : id3_tags := mk_tags None (Some "2023-06-01") None [].

Definition curly_example : world :=
  example_world [("music/It" +:+ curly +:+ "s.mp3", audio 100 its_tags)]
    ["It" +:+ curly +:+ "s.mp3"] NotFound.

(** A cached cover next to a file whose tag container cannot be read. *)
Definition cached_example : world :=
  example_world [("music/Broken.mp3", mk_file 50 (Bytes None));
                 ("music/covers/Broken.jpg", mk_file 10 (Bytes None))]
    ["Broken.mp3"] NotFound.

(** A date tag written without leading zeros, and a file without date tag. *)
Definition short_date_tags : id3_tags := mk_tags None (Some "2023-5-1") None [].
Definition undated_tags : id3_tags := mk_tags (Some "Demo") None None [].

Definition short_date_example : world :=
  example_world [("music/Song.mp3", audio 100 short_date_tags)] ["Song.mp3"] NotFound.

Definition undated_example : world :=
  example_world [("music/Demo.mp3", audio 100 undated_tags)] ["Demo.mp3"] NotFound.

(** ** Further notions for the properties of the code *)

(** Line 59: the test of the loop of [ensure_cover]. *)
Definition is_front_cover (tag : frame) : bool :=
  match tag with
  | APIC type _ => type =? 3
  | OtherFrame _ => false
  end.

(** An upper-case hexadecimal digit, as [quote] writes them. *)
Definition is_hex (c : ascii) : bool := Text.is_digit c || Text.between 65 70 c.

(** The form of the results of [quote]: unreserved characters and slashes
    as they are, and escapes made of a percent sign followed by two
    hexadecimal digits. A percent sign occurs only at the start of an
    escape. *)
Fixpoint percent_encoded (s : string) : bool :=
  match s with
  | EmptyString => true
  | String c r =>
      if Ascii.eqb c "%"%char then
        match r with
        | String h1 (String h2 r') => is_hex h1 && is_hex h2 && percent_encoded r'
        | _ => false
        end
      else (always_safe c || Ascii.eqb c "/"%char) && percent_encoded r
  end.

(** What is stored at a path: the log file with its entries, or another
    file. *)
Inductive stored :=
  | LogFile (entries : list (level * string))
  | File (f : file).

(** The files as the file system has them: the log file at [LOG_PATH], and
    the files of [fs] at the other paths. *)
Definition disk (w : world) (path : string) : option stored :=
  if String.eqb path LOG_PATH then Some (LogFile (log w))
  else File <$> fs w !! path.

(** Between two worlds, entries were appended to the log file and nothing
    else happened to it. *)
Definition grows (w w' : world) : Prop :=
  exists entries, log w' = log w ++ entries.

(** A computation that, whatever its outcome, only appends to the log
    file. *)
Definition appending {A} (m : M A) : Prop :=
  forall w r w', run m w = (r, w') -> grows w w'.


(** A file named with a curly apostrophe that holds no tag container. *)
Definition curly_broken_example : world :=
  example_world [("music/It" +:+ curly +:+ "s.mp3", mk_file 50 (Bytes None))]
    ["It" +:+ curly +:+ "s.mp3"] NotFound.

(** The two paths [ensure_cover] writes for an audio file. *)
Definition temp_path_of (mp3_path cover_dir : string) : string :=
  Path.join cover_dir (Path.splitext_root (Path.basename mp3_path) +:+ "_tmp").

Definition cover_name_of (mp3_path : string) : string :=
  Path.splitext_root (Path.basename mp3_path) +:+ ".jpg".

Definition cover_path_of (mp3_path cover_dir : string) : string :=
  Path.join cover_dir (cover_name_of mp3_path).

(** The name under which a listed file appears in the feed, and its URL
    (lines 88-89, 101 and 165). *)
Definition feed_name (directory f : string) : string :=
  clean_apostrophes (Path.basename (Path.join directory f)).

Definition feed_url (directory f : string) : string :=
  PODCAST_LINK +:+ quote (feed_name directory f).

(** The audio files of a listing (line 143). *)
Definition mp3s_of (names : list string) : list string :=
  filter (fun f => is_mp3 f = true) names.

(** An event that is not a renaming. *)
Definition not_rename (e : event) : Prop :=
  match e with EvRename _ _ => False | _ => True end.

(** A file with a title and a comment that have a curly apostrophe. *)
Definition quoted_tags : id3_tags :=
  mk_tags (Some ("Don" +:+ curly +:+ "t")) (Some "2023-07-04")
    (Some ("it" +:+ curly +:+ "s live")) [].

Definition quoted_example : world :=
  example_world [("music/Track.mp3", audio 100 quoted_tags)] ["Track.mp3"] NotFound.

(** Two files with the same date tag. *)
Definition same_day_example (names : list string) : world :=
  example_world [("music/B.mp3", audio 10 (mk_tags None (Some "2023-05-01") None []));
                 ("music/A.mp3", audio 20 (mk_tags None (Some "2023-05-01") None []))]
    names NotFound.

(** The value of a hexadecimal digit, and the decoding of a percent-encoded
    text ([urllib.parse.unquote_to_bytes]); the script does not decode, the
    decoder is here to state that [quote] loses nothing. *)
Definition hex_value (c : ascii) : option Z :=
  if Text.is_digit c then Some (Text.code c - 48)
  else if Text.between 65 70 c then Some (Text.code c - 55)
  else if Text.between 97 102 c then Some (Text.code c - 87)
  else None.

Fixpoint unquote (s : string) : string :=
  match s with
  | EmptyString => EmptyString
  | String c rest =>
      match rest with
      | String h1 (String h2 rest') =>
          match (if Ascii.eqb c "%"%char then hex_value h1 else None), hex_value h2 with
          | Some hi, Some lo =>
              String (ascii_of_nat (Z.to_nat (16 * hi + lo))) (unquote rest')
          | _, _ => String c (unquote rest)
          end
      | _ => String c (unquote rest)
      end
  end.

(** Two files whose names differ only in the kind of apostrophe. *)
Definition twin_example : world :=
  example_world [("music/It" +:+ curly +:+ "s.mp3", audio 100 its_tags);
                 ("music/It's.mp3", audio 200 song_tags)]
    ["It" +:+ curly +:+ "s.mp3"; "It's.mp3"] NotFound.

(** * Properties *)

(** ** The library models on concrete inputs *)

Example clean_example :
  clean_apostrophes ("It" +:+ curly +:+ "s.mp3") = "It's.mp3".
Proof. reflexivity. Qed.

Example quote_example : quote "It's a song.mp3" = "It%27s%20a%20song.mp3".
Proof. reflexivity. Qed.

Example join_example : Path.join "music" "Song.mp3" = "music/Song.mp3".
Proof. reflexivity. Qed.

Example basename_example : Path.basename "music/covers/Song.mp3" = "Song.mp3".
Proof. reflexivity. Qed.

Example dirname_example : Path.dirname "music/covers/Song.mp3" = "music/covers".
Proof. reflexivity. Qed.

Example splitext_example : Path.splitext_root "My.Song.mp3" = "My.Song".
Proof. reflexivity. Qed.

Example splitext_hidden : Path.splitext_root ".mp3" = ".mp3".
Proof. reflexivity. Qed.

Example str_example :
  Text.str_of_Z 4096 = "4096" /\ Text.zero_padded 2 7 = "07"
  /\ Text.zero_padded 2 12 = "12" /\ Text.zero_padded 4 1 = "0001"
  /\ Text.zero_padded 4 12 = "0012" /\ Text.zero_padded 4 2023 = "2023".
Proof. repeat split; reflexivity. Qed.

(** [bytes.decode()]: text in ASCII and beyond is taken; a byte FF, an
    overlong form, a surrogate and a sequence cut short are not. *)
Example utf8_examples :
  Text.utf8_valid "Invalid data found" = true
  /\ Text.utf8_valid curly = true
  /\ Text.utf8_valid (String "195"%char (String "169"%char "")) = true
  /\ Text.utf8_valid (String "240"%char (String "159"%char (String "142"%char
                        (String "181"%char "")))) = true
  /\ Text.utf8_valid (String "255"%char "") = false
  /\ Text.utf8_valid (String "192"%char (String "128"%char "")) = false
  /\ Text.utf8_valid (String "237"%char (String "160"%char (String "128"%char ""))) = false
  /\ Text.utf8_valid (String "226"%char (String "128"%char "")) = false
  /\ Text.utf8_valid (String "128"%char "") = false.
Proof. repeat split; reflexivity. Qed.

(** The first day of the common era: the year is written with four
    digits. *)
Example strftime_year_one :
  Datetime.strftime <$> Datetime.strptime "0001-01-01" = Some "Mon, 01 Jan 0001 00:00:00 ".
Proof. reflexivity. Qed.

(** [EasyID3] has no key [comment]. *)
Example easy_get_example :
  easy_get "title" song_tags = Some "Song" /\ easy_get "date" song_tags = Some "2023-05-01"
  /\ tag_comment song_tags = Some "first track" /\ easy_get "comment" song_tags = None.
Proof. repeat split; reflexivity. Qed.

Example strptime_example :
  Datetime.strftime <$> Datetime.strptime "2023-05-01" = Some "Mon, 01 May 2023 00:00:00 ".
Proof. reflexivity. Qed.

Example strptime_example2 :
  Datetime.strftime <$> Datetime.strptime "2023-04-01" = Some "Sat, 01 Apr 2023 00:00:00 ".
Proof. reflexivity. Qed.

Example strptime_lenient :
  Datetime.strptime "2023-5-1" = Datetime.strptime "2023-05-01"
  /\ Datetime.strptime "2023-05- 1" = Datetime.strptime "2023-05-01".
Proof. split; reflexivity. Qed.

Example strptime_bad :
  Datetime.strptime "2023" = None /\ Datetime.strptime "2023-02-30" = None
  /\ Datetime.strptime "01/05/2023" = None /\ Datetime.strptime "2023-05-011" = None.
Proof. repeat split; reflexivity. Qed.

(** ** The example of the specification *)

Example spec_example_run :
  titles_at (run (build_feed "music") (spec_example ["Song.mp3"; "Other.mp3"])).2
    "music/feed.xml"
  = Some [("Song", "Mon, 01 May 2023 00:00:00 "); ("Other", "Sat, 01 Apr 2023 00:00:00 ")].
Proof. vm_compute. reflexivity. Qed.

(** ** Running a computation step by step *)

Lemma run_bind {A B} (m : M A) (k : A -> M B) (w : world) :
  run (m ≫= k) w =
  match run m w with
  | (Ok a, w') => run (k a) w'
  | (Raise e, w') => (Raise e, w')
  end.
Proof. reflexivity. Qed.

Lemma run_ret {A} (a : A) (w : world) : run (mret a) w = (Ok a, w).
Proof. reflexivity. Qed.

Lemma run_open_tags_ok w path f tags :
  fs w !! path = Some f -> file_content f = Bytes (Some tags) ->
  run (open_tags path) w = (Ok tags, with_event (EvOpenTags path) w).
Proof.
  intros Hf Hc. unfold open_tags. rewrite run_bind. simpl.
  rewrite Hf, Hc. reflexivity.
Qed.

Lemma run_open_tags_unreadable w path f :
  fs w !! path = Some f -> (forall tags, file_content f <> Bytes (Some tags)) ->
  run (open_tags path) w = (Raise (ID3Error path), with_event (EvOpenTags path) w).
Proof.
  intros Hf Hc. unfold open_tags. rewrite run_bind. simpl. rewrite Hf.
  destruct (file_content f) as [[t|]|doc]; try reflexivity.
  destruct (Hc t). reflexivity.
Qed.

Lemma run_open_tags_missing w path :
  fs w !! path = None ->
  run (open_tags path) w = (Raise (MutagenError path), with_event (EvOpenTags path) w).
Proof.
  intros Hf. unfold open_tags. rewrite run_bind. simpl. rewrite Hf. reflexivity.
Qed.

(** The loop of [ensure_cover] stops at the first front cover. *)
Lemma cover_loop_front_cover mp3_path cover_dir base cover_name cover_path tags :
  cover_loop mp3_path cover_dir base cover_name cover_path tags =
  match front_cover tags with
  | Some data => extract_cover mp3_path cover_dir base cover_name cover_path data
  | None => logging WARNING ("No APIC cover found in " +:+ mp3_path) ;; mret None
  end.
Proof.
  induction tags as [|[type data|id] rest IH]; simpl.
  - reflexivity.
  - destruct (type =? 3); [reflexivity | exact IH].
  - exact IH.
Qed.

(** What [ensure_cover] does once the tag container is open. *)
Lemma run_ensure_cover_opened w mp3_path cover_dir f tags :
  fs w !! mp3_path = Some f -> file_content f = Bytes (Some tags) ->
  let base := Path.splitext_root (Path.basename mp3_path) in
  let cover_name := base +:+ ".jpg" in
  let cover_path := Path.join cover_dir cover_name in
  let w1 := with_event (EvExists cover_path) (with_event (EvOpenTags mp3_path) w) in
  run (ensure_cover mp3_path cover_dir) w =
  if bool_decide (is_Some (fs w !! cover_path)) then (Ok (Some cover_name), w1)
  else run (cover_loop mp3_path cover_dir base cover_name cover_path (tag_frames tags)) w1.
Proof.
  intros Hf Hc. unfold ensure_cover. rewrite run_bind. simpl.
  rewrite Hf, Hc. simpl.
  destruct (bool_decide (is_Some (fs w !! _))); reflexivity.
Qed.

(** Lines 60-80 in one step: the three outcomes of the external command. *)
Lemma run_extract_cover w mp3_path cover_dir base cover_name cover_path data :
  let temp_path := Path.join cover_dir (base +:+ "_tmp") in
  let tmp := mk_file (Z.of_nat (String.length data)) (Bytes None) in
  let w1 := with_event (EvRun (ffmpeg_cmd temp_path cover_path))
              (with_fs (insert temp_path tmp)
                 (with_event (EvWrite temp_path) (with_event (EvMakedirs cover_dir) w))) in
  run (extract_cover mp3_path cover_dir base cover_name cover_path data) w =
  match ffmpeg w temp_path cover_path with
  | Exit0 out =>
      (Ok (Some cover_name),
       with_log (INFO, "Extracted and resized cover for " +:+ mp3_path)
         (with_fs (delete temp_path)
            (with_event (EvRemove temp_path) (with_fs (insert cover_path out) w1))))
  | ExitNonZero stderr =>
      if Text.utf8_valid stderr
      then (Ok None,
            with_log (ERROR, "ffmpeg error for " +:+ mp3_path +:+ ": " +:+ stderr) w1)
      else (Raise (UnicodeDecodeError stderr), w1)
  | NotFound => (Raise (OSError "ffmpeg"), w1)
  end.
Proof.
  unfold extract_cover. simpl.
  destruct (ffmpeg w _ _) as [out|stderr|]; simpl; try reflexivity.
  - set (temp_path := Path.join cover_dir (base +:+ "_tmp")).
    destruct (decide (cover_path = temp_path)) as [->|Hne].
    + rewrite lookup_insert_eq. reflexivity.
    + rewrite lookup_insert_ne by exact Hne. rewrite lookup_insert_eq. reflexivity.
  - unfold decode. destruct (Text.utf8_valid stderr); reflexivity.
Qed.

(** ** C7: a cached cover *)

(** C7, as the code has it: when the tag container of the audio file opens
    and [<base>.jpg] exists in the cache directory, [ensure_cover] returns
    that name; the tag container is opened and the existence of the cached
    file is checked, nothing else happens: no command is run, no file is
    written, nothing is logged. *)
Theorem ensure_cover_cache_hit w mp3_path cover_dir f tags :
  fs w !! mp3_path = Some f ->
  file_content f = Bytes (Some tags) ->
  let cover_name := Path.splitext_root (Path.basename mp3_path) +:+ ".jpg" in
  let cover_path := Path.join cover_dir cover_name in
  is_Some (fs w !! cover_path) ->
  exists w',
    run (ensure_cover mp3_path cover_dir) w = (Ok (Some cover_name), w')
    /\ trace w' = trace w ++ [EvOpenTags mp3_path; EvExists cover_path]
    /\ fs w' = fs w /\ log w' = log w.
Proof.
  intros Hf Hc cover_name cover_path Hhit.
  rewrite (run_ensure_cover_opened w mp3_path cover_dir f tags Hf Hc).
  fold cover_name. fold cover_path.
  rewrite bool_decide_eq_true_2 by exact Hhit.
  eexists. split; [reflexivity|]. simpl.
  rewrite <- app_assoc. auto.
Qed.

Lemma ensure_cover_cache_hit_witness :
  exists w',
    run (ensure_cover "music/Song.mp3" "music/covers")
      (example_world [("music/Song.mp3", audio 100 song_tags);
                      ("music/covers/Song.jpg", mk_file 10 (Bytes None))]
         ["Song.mp3"] NotFound)
    = (Ok (Some "Song.jpg"), w').
Proof.
  destruct (ensure_cover_cache_hit
              (example_world [("music/Song.mp3", audio 100 song_tags);
                              ("music/covers/Song.jpg", mk_file 10 (Bytes None))]
                 ["Song.mp3"] NotFound)
              "music/Song.mp3" "music/covers" (audio 100 song_tags) song_tags)
    as [w' [Hrun _]].
  - vm_compute. reflexivity.
  - reflexivity.
  - vm_compute. eexists. reflexivity.
  - exists w'. exact Hrun.
Defined.

(** C7 as stated fails: with [Broken.jpg] in the cache but no readable tag
    container in [Broken.mp3], the resolver reads the audio file first, logs
    an error and returns no cover, without looking at the cache. *)
Lemma cache_not_consulted_first :
  is_Some (fs cached_example !! "music/covers/Broken.jpg")
  /\ (run (ensure_cover "music/Broken.mp3" "music/covers") cached_example).1 = Ok None
  /\ trace (run (ensure_cover "music/Broken.mp3" "music/covers") cached_example).2
     = [EvOpenTags "music/Broken.mp3"].
Proof.
  split; [|split].
  - vm_compute. eexists. reflexivity.
  - vm_compute. reflexivity.
  - vm_compute. reflexivity.
Qed.

(** ** C9: the temporary file of a failed extraction *)

(** C9: when the external command exits with a non-zero status, the
    temporary file [<base>_tmp] written into the cache directory is still
    there afterwards, with the bytes of the embedded image, and [os.remove]
    was not called. This holds whatever the command left on its error
    stream: when these bytes decode, the resolver returns no cover and logs
    an error; when they do not, the [UnicodeDecodeError] of line 79 leaves
    the resolver and nothing is logged. *)
Theorem failed_extraction_leaves_temp w mp3_path cover_dir f tags data stderr :
  let base := Path.splitext_root (Path.basename mp3_path) in
  let cover_path := Path.join cover_dir (base +:+ ".jpg") in
  let temp_path := Path.join cover_dir (base +:+ "_tmp") in
  fs w !! mp3_path = Some f ->
  file_content f = Bytes (Some tags) ->
  fs w !! cover_path = None ->
  front_cover (tag_frames tags) = Some data ->
  ffmpeg w temp_path cover_path = ExitNonZero stderr ->
  exists r w',
    run (ensure_cover mp3_path cover_dir) w = (r, w')
    /\ fs w' !! temp_path = Some (mk_file (Z.of_nat (String.length data)) (Bytes None))
    /\ trace w' = trace w ++ [EvOpenTags mp3_path; EvExists cover_path;
                              EvMakedirs cover_dir; EvWrite temp_path;
                              EvRun (ffmpeg_cmd temp_path cover_path)]
    /\ (Text.utf8_valid stderr = true ->
        r = Ok None
        /\ log w' = log w ++ [(ERROR, "ffmpeg error for " +:+ mp3_path +:+ ": " +:+ stderr)])
    /\ (Text.utf8_valid stderr = false ->
        r = Raise (UnicodeDecodeError stderr) /\ log w' = log w).
Proof.
  intros base cover_path temp_path Hf Hc Hmiss Hfront Hcmd.
  rewrite (run_ensure_cover_opened w mp3_path cover_dir f tags Hf Hc).
  fold base. fold cover_path.
  rewrite bool_decide_eq_false_2
    by (rewrite Hmiss; intros [x Hx]; discriminate).
  rewrite cover_loop_front_cover, Hfront, run_extract_cover.
  fold temp_path. simpl. rewrite Hcmd.
  destruct (Text.utf8_valid stderr); eexists _, _; (split; [reflexivity|]); simpl;
    (split; [apply lookup_insert_eq|]);
    (split; [repeat rewrite <- app_assoc; reflexivity|]);
    split; intros Hv; try discriminate Hv; split; reflexivity.
Qed.

Lemma failed_extraction_leaves_temp_witness :
  exists w',
    run (ensure_cover "music/Song.mp3" "music/covers")
      (example_world [("music/Song.mp3", audio 100 cover_tags)] ["Song.mp3"]
         (ExitNonZero "Invalid data found")) = (Ok None, w')
    /\ fs w' !! "music/covers/Song_tmp" = Some (mk_file 4 (Bytes None)).
Proof.
  destruct (failed_extraction_leaves_temp
              (example_world [("music/Song.mp3", audio 100 cover_tags)] ["Song.mp3"]
                 (ExitNonZero "Invalid data found"))
              "music/Song.mp3" "music/covers" (audio 100 cover_tags) cover_tags
              "JFIF" "Invalid data found")
    as (r & w' & Hrun & Htmp & _ & Hvalid & _).
  - vm_compute. reflexivity.
  - reflexivity.
  - vm_compute. reflexivity.
  - reflexivity.
  - reflexivity.
  - destruct Hvalid as [Hr _]; [reflexivity|].
    exists w'. split; [rewrite Hrun, Hr; reflexivity | exact Htmp].
Defined.

(** The error stream of a command that wrote a byte outside UTF-8: the
    byte FF. *)
Example undecodable_stderr_propagates :
  let w := example_world [("music/Song.mp3", audio 100 cover_tags)] ["Song.mp3"]
             (ExitNonZero (String "255"%char "")) in
  (run (ensure_cover "music/Song.mp3" "music/covers") w).1
  = Raise (UnicodeDecodeError (String "255"%char ""))
  /\ log (run (ensure_cover "music/Song.mp3" "music/covers") w).2 = []
  /\ is_Some (fs (run (ensure_cover "music/Song.mp3" "music/covers") w).2
                !! "music/covers/Song_tmp").
Proof.
  split; [|split].
  - vm_compute. reflexivity.
  - vm_compute. reflexivity.
  - vm_compute. eexists. reflexivity.
Qed.

(** The other side of C9: after a successful extraction the temporary file
    is gone, whenever it is not the cover file itself. *)
Lemma successful_extraction_removes_temp w mp3_path cover_dir f tags data out :
  let base := Path.splitext_root (Path.basename mp3_path) in
  let cover_path := Path.join cover_dir (base +:+ ".jpg") in
  let temp_path := Path.join cover_dir (base +:+ "_tmp") in
  fs w !! mp3_path = Some f ->
  file_content f = Bytes (Some tags) ->
  fs w !! cover_path = None ->
  front_cover (tag_frames tags) = Some data ->
  ffmpeg w temp_path cover_path = Exit0 out ->
  exists w',
    run (ensure_cover mp3_path cover_dir) w = (Ok (Some (base +:+ ".jpg")), w')
    /\ fs w' !! temp_path = None.
Proof.
  intros base cover_path temp_path Hf Hc Hmiss Hfront Hcmd.
  rewrite (run_ensure_cover_opened w mp3_path cover_dir f tags Hf Hc).
  fold base. fold cover_path.
  rewrite bool_decide_eq_false_2
    by (rewrite Hmiss; intros [x Hx]; discriminate).
  rewrite cover_loop_front_cover, Hfront, run_extract_cover.
  fold temp_path. simpl. rewrite Hcmd.
  eexists. split; [reflexivity|]. simpl. apply lookup_delete_eq.
Qed.

(** ** C3: what the cover resolver lets through *)

(** When the resolver does degrade: with the audio file there, the external
    command started, and an error stream that decodes, [ensure_cover]
    returns and raises nothing. It returns no cover and logs an error when
    the tag container cannot be read, returns no cover and logs a warning
    when there is neither a cached cover nor an embedded front cover, and
    returns no cover and logs an error when the command exits with a
    non-zero status. *)
Lemma ensure_cover_degrades w mp3_path cover_dir f :
  let base := Path.splitext_root (Path.basename mp3_path) in
  let cover_path := Path.join cover_dir (base +:+ ".jpg") in
  let temp_path := Path.join cover_dir (base +:+ "_tmp") in
  fs w !! mp3_path = Some f ->
  ffmpeg w temp_path cover_path <> NotFound ->
  (forall stderr, ffmpeg w temp_path cover_path = ExitNonZero stderr ->
                  Text.utf8_valid stderr = true) ->
  exists r w',
    run (ensure_cover mp3_path cover_dir) w = (Ok r, w')
    /\ ((forall tags, file_content f <> Bytes (Some tags)) ->
        r = None
        /\ log w' = log w ++ [(ERROR, "ID3 error for " +:+ mp3_path +:+ ": " +:+ mp3_path)])
    /\ (forall tags,
          file_content f = Bytes (Some tags) ->
          fs w !! cover_path = None ->
          front_cover (tag_frames tags) = None ->
          r = None
          /\ log w' = log w ++ [(WARNING, "No APIC cover found in " +:+ mp3_path)])
    /\ (forall tags data stderr,
          file_content f = Bytes (Some tags) ->
          fs w !! cover_path = None ->
          front_cover (tag_frames tags) = Some data ->
          ffmpeg w temp_path cover_path = ExitNonZero stderr ->
          r = None
          /\ log w' = log w ++ [(ERROR, "ffmpeg error for " +:+ mp3_path +:+ ": " +:+ stderr)]).
Proof.
  intros base cover_path temp_path Hf Hcmd Hdec.
  destruct (file_content f) as [[tags|]|doc] eqn:Hc.
  - rewrite (run_ensure_cover_opened w mp3_path cover_dir f tags Hf Hc).
    fold base. fold cover_path.
    destruct (fs w !! cover_path) as [cached|] eqn:Hcache.
    + rewrite bool_decide_eq_true_2 by (eexists; reflexivity).
      eexists _, _. split; [reflexivity|].
      split; [intros H; destruct (H tags); reflexivity|].
      split; intros; discriminate.
    + rewrite bool_decide_eq_false_2 by (intros [x Hx]; discriminate).
      rewrite cover_loop_front_cover.
      destruct (front_cover (tag_frames tags)) as [data|] eqn:Hfront.
      * rewrite run_extract_cover. fold temp_path. simpl.
        destruct (ffmpeg w temp_path cover_path) as [out|stderr|] eqn:Hres.
        -- eexists _, _. split; [reflexivity|].
           split; [intros H; destruct (H tags); reflexivity|].
           split; [intros t Ht _ Hn; injection Ht as <-; congruence|].
           intros; discriminate.
        -- rewrite (Hdec stderr eq_refl).
           eexists _, _. split; [reflexivity|].
           split; [intros H; destruct (H tags); reflexivity|].
           split; [intros t Ht _ Hn; injection Ht as <-; congruence|].
           intros t d e _ _ _ He. injection He as <-. split; reflexivity.
        -- destruct Hcmd. reflexivity.
      * eexists _, _. split; [reflexivity|].
        split; [intros H; destruct (H tags); reflexivity|].
        split; [intros t _ _ _; split; reflexivity|].
        intros t d e Ht _ Hd. injection Ht as <-. congruence.
  - unfold ensure_cover. rewrite run_bind. simpl. rewrite Hf, Hc. simpl.
    eexists _, _. split; [reflexivity|].
    split; [intros _; split; reflexivity|].
    split; intros; discriminate.
  - unfold ensure_cover. rewrite run_bind. simpl. rewrite Hf, Hc. simpl.
    eexists _, _. split; [reflexivity|].
    split; [intros _; split; reflexivity|].
    split; intros; discriminate.
Qed.

Example ensure_cover_degrades_example :
  exists r w',
    run (ensure_cover "music/Song.mp3" "music/covers")
      (example_world [("music/Song.mp3", audio 100 cover_tags)] ["Song.mp3"]
         (ExitNonZero "Invalid data found")) = (Ok r, w').
Proof.
  destruct (ensure_cover_degrades
              (example_world [("music/Song.mp3", audio 100 cover_tags)] ["Song.mp3"]
                 (ExitNonZero "Invalid data found"))
              "music/Song.mp3" "music/covers" (audio 100 cover_tags))
    as [r [w' [Hrun _]]].
  - vm_compute. reflexivity.
  - vm_compute. discriminate.
  - intros stderr H. vm_compute in H. injection H as <-. reflexivity.
  - exists r, w'. exact Hrun.
Qed.

(** C3, on a machine without the external command: for [Song.mp3] with an
    embedded front cover and no cached cover, [subprocess.run] raises
    [FileNotFoundError], which none of the handlers of [ensure_cover]
    catches. The resolver raises it to its caller, having written the
    temporary file and logged nothing; [get_episode_info] and [build_feed]
    pass it on, no feed is written, and the entry point logs the failure
    and exits with status 1. The sibling case of lines 78-80, a command
    that starts and fails, returns no cover instead. *)
Theorem missing_command_propagates :
  let resolved := run (ensure_cover "music/Song.mp3" "music/covers") no_command_example in
  let ended := main ["generate.py"; "music"] no_command_example in
  resolved.1 = Raise (OSError "ffmpeg")
  /\ log resolved.2 = []
  /\ is_Some (fs resolved.2 !! "music/covers/Song_tmp")
  /\ (run (build_feed "music") no_command_example).1 = Raise (OSError "ffmpeg")
  /\ ended.1 = 1
  /\ feed_at ended.2 "music/feed.xml" = None
  /\ log ended.2 = [(ERROR, "Failed to build feed: ffmpeg")]
  /\ (run (ensure_cover "music/Song.mp3" "music/covers")
        (example_world [("music/Song.mp3", audio 100 cover_tags)] ["Song.mp3"]
           (ExitNonZero "Invalid data found"))).1 = Ok None.
Proof.
  repeat split; try (vm_compute; reflexivity).
  vm_compute. eexists. reflexivity.
Qed.

(** ** The two loops of [build_feed] *)

Lemma collect_episodes_cons directory cover_dir f rest acc w :
  run (collect_episodes directory cover_dir (f :: rest) acc) w =
  match run (get_episode_info (Path.join directory f) PODCAST_LINK cover_dir) w with
  | (Ok info, w1) =>
      run (collect_episodes directory cover_dir rest (acc ++ [keyed info])) w1
  | (Raise e, w1) => (Raise e, w1)
  end.
Proof. reflexivity. Qed.

Lemma emit_items_cons key info rest acc w :
  run (emit_items ((key, info) :: rest) acc) w =
  match run (make_item info) w with
  | (Ok it, w1) => run (emit_items rest (acc ++ [it])) w1
  | (Raise e, w1) => (Raise e, w1)
  end.
Proof. reflexivity. Qed.

(** The first loop either processes every name, or stops at the first name
    whose processing raises and lets the exception through. *)
Lemma collect_episodes_outcome directory cover_dir mp3s acc w :
  (exists infos w',
     run (collect_episodes directory cover_dir mp3s acc) w = (Ok (acc ++ map keyed infos), w')
     /\ processed directory cover_dir w mp3s infos w')
  \/ (exists pre f post infos w1 e w',
        mp3s = pre ++ f :: post
        /\ processed directory cover_dir w pre infos w1
        /\ run (get_episode_info (Path.join directory f) PODCAST_LINK cover_dir) w1 = (Raise e, w')
        /\ run (collect_episodes directory cover_dir mp3s acc) w = (Raise e, w')).
Proof.
  revert acc w. induction mp3s as [|f rest IH]; intros acc w.
  - left. exists [], w. simpl. rewrite app_nil_r. split; [reflexivity | constructor].
  - rewrite collect_episodes_cons.
    destruct (run (get_episode_info (Path.join directory f) PODCAST_LINK cover_dir) w)
      as [[info|e] w1] eqn:Hstep.
    + destruct (IH (acc ++ [keyed info]) w1)
        as [(infos & w' & Hrun & Hproc) | (pre & g & post & infos & w2 & e & w' & -> & Hproc & Hg & Hrun)].
      * left. exists (info :: infos), w'. split.
        -- rewrite Hrun. simpl. rewrite <- app_assoc. reflexivity.
        -- econstructor; eassumption.
      * right. exists (f :: pre), g, post, (info :: infos), w2, e, w'.
        split; [reflexivity|]. split; [econstructor; eassumption|].
        split; assumption.
    + right. exists [], f, rest, [], w, e, w1.
      split; [reflexivity|]. split; [constructor|]. split; [exact Hstep | reflexivity].
Qed.

(** Lines 160-164 catch the only exception [os.path.getsize] raises: an item
    is always produced. *)
Lemma run_make_item info w :
  let url := PODCAST_LINK +:+ quote (ep_filename info) in
  let image :=
    match ep_cover info with
    | Some (String c r as cover) => Some (PODCAST_LINK +:+ EPISODE_ART_DIR +:+ "/" +:+ cover)
    | _ => None
    end in
  let it size :=
    mk_item (ep_title info) "Nash Spence" (ep_link info)
      (mk_enclosure url (Text.str_of_Z size) "audio/mpeg") url
      (ep_pubDate info) (ep_description info) image in
  run (make_item info) w =
  match fs w !! ep_file_path info with
  | Some f => (Ok (it (file_size f)), with_event (EvGetsize (ep_file_path info)) w)
  | None =>
      (Ok (it 0),
       with_log (WARNING, "Could not get file size for " +:+ ep_file_path info)
         (with_event (EvGetsize (ep_file_path info)) w))
  end.
Proof.
  unfold make_item. simpl.
  destruct (fs w !! ep_file_path info) as [f|]; reflexivity.
Qed.

Lemma emit_items_outcome episodes acc w :
  exists items w',
    run (emit_items episodes acc) w = (Ok (acc ++ items), w')
    /\ emitted w (map snd episodes) items w'.
Proof.
  revert acc w. induction episodes as [|[key info] rest IH]; intros acc w.
  - exists [], w. simpl. rewrite app_nil_r. split; [reflexivity | constructor].
  - rewrite emit_items_cons.
    destruct (run (make_item info) w) as [[it|e] w1] eqn:Hstep.
    + destruct (IH (acc ++ [it]) w1) as (items & w' & Hrun & Hem).
      exists (it :: items), w'. split.
      * rewrite Hrun. rewrite <- app_assoc. reflexivity.
      * econstructor; eassumption.
    + rewrite run_make_item in Hstep.
      destruct (fs w !! ep_file_path info); discriminate.
Qed.

(** The items of the second loop come one by one from the episodes. *)
Lemma emitted_item w infos items w' it :
  emitted w infos items w' -> In it items ->
  exists info wa wb, In info infos /\ run (make_item info) wa = (Ok it, wb).
Proof.
  induction 1 as [|w w1 w2 info rest it0 items Hstep Hrest IH]; intros Hin.
  - destruct Hin.
  - destruct Hin as [<- | Hin].
    + exists info, w, w1. split; [left; reflexivity | exact Hstep].
    + destruct (IH Hin) as (i & wa & wb & Hi & Hrun).
      exists i, wa, wb. split; [right; exact Hi | exact Hrun].
Qed.

Lemma emitted_episode w infos items w' info :
  emitted w infos items w' -> In info infos ->
  exists it wa wb, In it items /\ run (make_item info) wa = (Ok it, wb).
Proof.
  induction 1 as [|w w1 w2 info0 rest it0 items Hstep Hrest IH]; intros Hin.
  - destruct Hin.
  - destruct Hin as [<- | Hin].
    + exists it0, w, w1. split; [left; reflexivity | exact Hstep].
    + destruct (IH Hin) as (i & wa & wb & Hi & Hrun).
      exists i, wa, wb. split; [right; exact Hi | exact Hrun].
Qed.

Lemma processed_episode directory cover_dir w mp3s infos w' f :
  processed directory cover_dir w mp3s infos w' -> In f mp3s ->
  exists info wa wb,
    In info infos
    /\ run (get_episode_info (Path.join directory f) PODCAST_LINK cover_dir) wa = (Ok info, wb).
Proof.
  induction 1 as [|w w1 w2 g rest info infos Hstep Hrest IH]; intros Hin.
  - destruct Hin.
  - destruct Hin as [<- | Hin].
    + exists info, w, w1. split; [left; reflexivity | exact Hstep].
    + destruct (IH Hin) as (i & wa & wb & Hi & Hrun).
      exists i, wa, wb. split; [right; exact Hi | exact Hrun].
Qed.

(** ** The sort *)

Lemma insert_by_key_perm {A} (key : A -> string) x l :
  Permutation (insert_by_key key x l) (x :: l).
Proof.
  induction l as [|y r IH]; simpl.
  - reflexivity.
  - destruct (String.ltb (key y) (key x)).
    + rewrite IH. apply perm_swap.
    + reflexivity.
Qed.

Lemma sort_by_key_perm {A} (key : A -> string) l :
  Permutation (sort_by_key key l) l.
Proof.
  induction l as [|x r IH]; simpl.
  - reflexivity.
  - rewrite insert_by_key_perm. constructor. exact IH.
Qed.

Lemma sorted_episodes_in infos info :
  In info (map snd (sort_by_key fst (map keyed infos))) <-> In info infos.
Proof.
  assert (Hperm : Permutation (map snd (sort_by_key fst (map keyed infos))) infos).
  { rewrite (sort_by_key_perm fst (map keyed infos)).
    rewrite map_map. simpl. rewrite map_id. reflexivity. }
  split; intros Hin.
  - eapply Permutation_in; [exact Hperm | exact Hin].
  - eapply Permutation_in; [symmetry; exact Hperm | exact Hin].
Qed.

(** ** The three outcomes of [build_feed] *)

Lemma build_feed_outcome directory w :
  let cover_dir := Path.join directory EPISODE_ART_DIR in
  let w0 := with_event (EvListdir directory) w in
  (listing w directory = None
   /\ run (build_feed directory) w = (Raise (OSError directory), w0))
  \/ (exists names pre f post infos w1 e w',
        listing w directory = Some names
        /\ filter (fun f => is_mp3 f = true) names = pre ++ f :: post
        /\ processed directory cover_dir w0 pre infos w1
        /\ run (get_episode_info (Path.join directory f) PODCAST_LINK cover_dir) w1
           = (Raise e, w')
        /\ run (build_feed directory) w = (Raise e, w'))
  \/ (exists names infos w1 items w2,
        listing w directory = Some names
        /\ processed directory cover_dir w0 (filter (fun f => is_mp3 f = true) names) infos w1
        /\ emitted w1 (map snd (sort_by_key fst (map keyed infos))) items w2
        /\ run (build_feed directory) w = (Ok tt, written directory items w2)).
Proof.
  intros cover_dir w0. unfold build_feed. rewrite run_bind.
  unfold listdir. rewrite run_bind. simpl run at 2. simpl run at 1.
  destruct (listing w directory) as [names|] eqn:Hls.
  2: { left. split; [reflexivity|]. simpl. rewrite Hls. reflexivity. }
  right. simpl. rewrite Hls. simpl.
  fold cover_dir. fold w0.
  destruct (collect_episodes_outcome directory cover_dir
              (filter (fun f => is_mp3 f = true) names) [] w0)
    as [(infos & w1 & Hrun & Hproc)
       | (pre & f & post & infos & w1 & e & w' & Hsplit & Hproc & Hf & Hrun)].
  - right. simpl in Hrun.
    destruct (emit_items_outcome (sort_by_key fst (map keyed infos)) [] w1)
      as (items & w2 & Hemit & Hem).
    exists names, infos, w1, items, w2.
    split; [reflexivity|]. split; [exact Hproc|]. split; [exact Hem|].
    rewrite Hrun. rewrite Hemit. reflexivity.
  - left. exists names, pre, f, post, infos, w1, e, w'.
    split; [reflexivity|]. split; [exact Hsplit|]. split; [exact Hproc|].
    split; [exact Hf|]. rewrite Hrun. reflexivity.
Qed.

(** ** [get_episode_info] step by step *)

Lemma run_rename_step mp3_path w :
  let filename := Path.basename mp3_path in
  let clean_name := clean_apostrophes filename in
  let new_path := Path.join (Path.dirname mp3_path) clean_name in
  run (rename_step mp3_path filename clean_name) w =
  if String.eqb filename clean_name then (Ok mp3_path, w)
  else
    match fs w !! mp3_path with
    | Some f =>
        (Ok new_path,
         with_log (INFO, "Renamed file " +:+ filename +:+ " -> " +:+ clean_name)
           (with_fs (fun m => <[new_path := f]> (delete mp3_path m))
              (with_event (EvRename mp3_path new_path) w)))
    | None => (Raise (OSError mp3_path), with_event (EvRename mp3_path new_path) w)
    end.
Proof.
  intros filename clean_name new_path. unfold rename_step.
  destruct (String.eqb filename clean_name); [reflexivity|].
  simpl. destruct (fs w !! mp3_path); reflexivity.
Qed.

(** A successful call, taken apart: the renaming, the two readings of the
    tag container, the publish date, the cover, and the dictionary
    returned. *)
Lemma get_episode_info_ok mp3_path base_url cover_dir w info w' :
  run (get_episode_info mp3_path base_url cover_dir) w = (Ok info, w') ->
  let filename := Path.basename mp3_path in
  let clean_name := clean_apostrophes filename in
  let path1 := renamed_path mp3_path in
  exists w1 f tags pub_dt w2 cover,
    ((filename = clean_name /\ w1 = w)
     \/ (filename <> clean_name
         /\ exists f0, fs w !! mp3_path = Some f0
            /\ w1 = with_log (INFO, "Renamed file " +:+ filename +:+ " -> " +:+ clean_name)
                     (with_fs (fun m => <[path1 := f0]> (delete mp3_path m))
                        (with_event (EvRename mp3_path path1) w))))
    /\ fs w1 !! path1 = Some f
    /\ file_content f = Bytes (Some tags)
    /\ run (publish_datetime clean_name (tag_date tags))
         (with_event (EvOpenTags path1) (with_event (EvOpenTags path1) w1)) = (Ok pub_dt, w2)
    /\ run (ensure_cover path1 cover_dir) w2 = (Ok cover, w')
    /\ info = mk_episode
                (clean_apostrophes (default (Path.splitext_root clean_name) (tag_title tags)))
                clean_name (base_url +:+ quote clean_name) (Datetime.strftime pub_dt)
                "" cover path1.
Proof.
  intros Hrun filename clean_name path1.
  unfold get_episode_info in Hrun.
  change (easy_get "title") with tag_title in Hrun.
  change (easy_get "date") with tag_date in Hrun.
  rewrite run_bind in Hrun.
  rewrite run_rename_step in Hrun.
  fold filename in Hrun. fold clean_name in Hrun.
  assert (Hpath : path1 = if String.eqb filename clean_name then mp3_path
                          else Path.join (Path.dirname mp3_path) clean_name) by reflexivity.
  destruct (String.eqb filename clean_name) eqn:Heq.
  - apply String.eqb_eq in Heq. rewrite <- Hpath in Hrun.
    rewrite run_bind in Hrun.
    destruct (fs w !! path1) as [f|] eqn:Hf.
    2: { rewrite (run_open_tags_missing _ _ Hf) in Hrun. discriminate. }
    destruct (file_content f) as [[tags|]|doc] eqn:Hc.
    2,3: rewrite (run_open_tags_unreadable _ _ f Hf) in Hrun;
         [discriminate | intros t; rewrite Hc; discriminate].
    rewrite (run_open_tags_ok _ _ f tags Hf Hc) in Hrun.
    rewrite run_bind in Hrun.
    rewrite (run_open_tags_ok _ _ f tags) in Hrun by assumption.
    rewrite run_bind in Hrun.
    destruct (run (publish_datetime clean_name (tag_date tags)) _)
      as [[pub_dt|e] w2] eqn:Hdate; [|discriminate].
    rewrite run_bind in Hrun.
    destruct (run (ensure_cover path1 cover_dir) w2) as [[cover|e] w3] eqn:Hcover;
      [|discriminate].
    rewrite run_ret in Hrun. injection Hrun as <- <-.
    exists w, f, tags, pub_dt, w2, cover.
    split; [left; split; [exact Heq | reflexivity]|].
    repeat split; assumption.
  - apply String.eqb_neq in Heq. rewrite <- Hpath in Hrun.
    destruct (fs w !! mp3_path) as [f0|] eqn:Hf0; [|discriminate].
    set (w1 := with_log _ _) in Hrun.
    rewrite run_bind in Hrun.
    destruct (fs w1 !! path1) as [f|] eqn:Hf.
    2: { rewrite (run_open_tags_missing _ _ Hf) in Hrun. discriminate. }
    destruct (file_content f) as [[tags|]|doc] eqn:Hc.
    2,3: rewrite (run_open_tags_unreadable _ _ f Hf) in Hrun;
         [discriminate | intros t; rewrite Hc; discriminate].
    rewrite (run_open_tags_ok _ _ f tags Hf Hc) in Hrun.
    rewrite run_bind in Hrun.
    rewrite (run_open_tags_ok _ _ f tags) in Hrun by assumption.
    rewrite run_bind in Hrun.
    destruct (run (publish_datetime clean_name (tag_date tags)) _)
      as [[pub_dt|e] w2] eqn:Hdate; [|discriminate].
    rewrite run_bind in Hrun.
    destruct (run (ensure_cover path1 cover_dir) w2) as [[cover|e] w3] eqn:Hcover;
      [|discriminate].
    rewrite run_ret in Hrun. injection Hrun as <- <-.
    exists w1, f, tags, pub_dt, w2, cover.
    split; [right; split; [exact Heq | exists f0; split; reflexivity]|].
    repeat split; assumption.
Qed.

(** ** Text: append, reverse, prefixes and suffixes *)

Lemma append_cons (x : ascii) (a b : string) : String x a +:+ b = String x (a +:+ b).
Proof. reflexivity. Qed.

Lemma append_nil_l (a : string) : "" +:+ a = a.
Proof. reflexivity. Qed.

Lemma append_assoc (a b c : string) : (a +:+ b) +:+ c = a +:+ (b +:+ c).
Proof.
  induction a as [|x a IH]; [reflexivity|].
  rewrite !append_cons, IH. reflexivity.
Qed.

Lemma append_nil_r (a : string) : a +:+ "" = a.
Proof.
  induction a as [|x a IH]; [reflexivity|].
  rewrite append_cons, IH. reflexivity.
Qed.

Lemma append_length (a b : string) :
  String.length (a +:+ b) = (String.length a + String.length b)%nat.
Proof.
  induction a as [|x a IH]; [reflexivity|].
  rewrite append_cons. simpl. rewrite IH. reflexivity.
Qed.

Lemma rev_string_append (a b acc : string) :
  Text.rev_string (a +:+ b) acc = Text.rev_string b (Text.rev_string a acc).
Proof.
  revert acc. induction a as [|x a IH]; intros acc; [reflexivity|].
  rewrite append_cons. simpl. apply IH.
Qed.

Lemma rev_string_acc (a acc : string) :
  Text.rev_string a acc = Text.reverse a +:+ acc.
Proof.
  unfold Text.reverse. revert acc.
  induction a as [|x a IH]; intros acc; [reflexivity|].
  cbn [Text.rev_string].
  rewrite (IH (String x acc)), (IH (String x "")), append_assoc. reflexivity.
Qed.

Lemma reverse_append (a b : string) :
  Text.reverse (a +:+ b) = Text.reverse b +:+ Text.reverse a.
Proof. unfold Text.reverse at 1. rewrite rev_string_append, rev_string_acc. reflexivity. Qed.

Lemma reverse_cons (x : ascii) (a : string) :
  Text.reverse (String x a) = Text.reverse a +:+ String x "".
Proof. unfold Text.reverse at 1. simpl. apply rev_string_acc. Qed.

Lemma reverse_involutive (a : string) : Text.reverse (Text.reverse a) = a.
Proof.
  induction a as [|x a IH]; [reflexivity|].
  rewrite reverse_cons, reverse_append, IH. reflexivity.
Qed.

Lemma startswith_append (p a b : string) :
  Text.startswith p a = true -> Text.startswith p (a +:+ b) = true.
Proof.
  revert a. induction p as [|x p IH]; intros a H; [reflexivity|].
  destruct a as [|y a]; [discriminate|].
  rewrite append_cons. simpl in *.
  apply andb_true_iff in H as [Hxy Hp]. rewrite Hxy. simpl. apply IH, Hp.
Qed.

Lemma endswith_append (p a b : string) :
  Text.endswith p b = true -> Text.endswith p (a +:+ b) = true.
Proof.
  unfold Text.endswith. intros H. rewrite reverse_append. apply startswith_append, H.
Qed.

Lemma startswith_refl (p : string) : Text.startswith p p = true.
Proof.
  induction p as [|x p IH]; [reflexivity|]. simpl.
  rewrite Ascii.eqb_refl. exact IH.
Qed.

Lemma endswith_refl (p : string) : Text.endswith p p = true.
Proof. apply startswith_refl. Qed.

(** Two prefixes of the same length of one text are equal. *)
Lemma startswith_same_length (p q s : string) :
  Text.startswith p s = true -> Text.startswith q s = true ->
  String.length p = String.length q -> p = q.
Proof.
  revert q s. induction p as [|x p IH]; intros [|y q] [|z s] Hp Hq Hlen;
    simpl in *; try discriminate; try reflexivity.
  apply andb_true_iff in Hp as [Hx Hp]. apply andb_true_iff in Hq as [Hy Hq].
  apply Ascii.eqb_eq in Hx, Hy. subst.
  f_equal. eapply IH; eauto.
Qed.

Lemma reverse_length (a : string) : String.length (Text.reverse a) = String.length a.
Proof.
  induction a as [|x a IH]; [reflexivity|].
  rewrite reverse_cons, append_length, IH. simpl. lia.
Qed.

(** Two suffixes of the same length of one text are equal. *)
Lemma endswith_same_length (p q s : string) :
  Text.endswith p s = true -> Text.endswith q s = true ->
  String.length p = String.length q -> p = q.
Proof.
  unfold Text.endswith. intros Hp Hq Hlen.
  rewrite <- (reverse_involutive p), <- (reverse_involutive q). f_equal.
  eapply startswith_same_length; eauto.
  rewrite !reverse_length. exact Hlen.
Qed.

(** ** C4: the publish date string *)

Lemma strptime_naive text dt :
  Datetime.strptime text = Some dt -> Datetime.utcoffset dt = None.
Proof.
  unfold Datetime.strptime, Datetime.make. intros H.
  repeat match type of H with
         | match ?x with _ => _ end = _ => destruct x; try discriminate
         | (let (_, _) := ?x in _) = _ => destruct x
         end.
  injection H as <-. reflexivity.
Qed.

Lemma run_publish_datetime clean_name date_tag w :
  run (publish_datetime clean_name date_tag) w =
  match date_tag with
  | Some (String c r as text) =>
      match Datetime.strptime text with
      | Some pub_dt => (Ok pub_dt, w)
      | None =>
          (Ok (wall_clock w),
           with_log (WARNING, "Invalid date tag in " +:+ clean_name +:+ ", using now.")
             (with_tick w))
      end
  | _ =>
      (Ok (wall_clock w),
       with_log (WARNING, "Missing date tag in " +:+ clean_name +:+ ", using now.")
         (with_tick w))
  end.
Proof.
  destruct date_tag as [[|c r]|]; try reflexivity.
  unfold publish_datetime. destruct (Datetime.strptime _); reflexivity.
Qed.

Lemma publish_datetime_naive clean_name date_tag w dt w' :
  run (publish_datetime clean_name date_tag) w = (Ok dt, w') ->
  Datetime.utcoffset dt = None.
Proof.
  rewrite run_publish_datetime. intros H.
  destruct date_tag as [[|c r]|].
  - injection H as <- _. reflexivity.
  - destruct (Datetime.strptime (String c r)) as [d|] eqn:Hp.
    + injection H as <- _. eapply strptime_naive, Hp.
    + injection H as <- _. reflexivity.
  - injection H as <- _. reflexivity.
Qed.

(** The format applied to a naive object: the directive [%z] gives nothing,
    and the string ends with the space before it. *)
Lemma strftime_naive dt :
  Datetime.utcoffset dt = None ->
  exists body, Datetime.strftime dt = body +:+ " "
               /\ body = Datetime.day_abbr (Datetime.weekday dt) +:+ ", "
                         +:+ Text.zero_padded 2 (Datetime.day dt) +:+ " "
                         +:+ Datetime.month_abbr (Datetime.month dt) +:+ " "
                         +:+ Text.zero_padded 4 (Datetime.year dt) +:+ " "
                         +:+ Text.zero_padded 2 (Datetime.hour dt) +:+ ":"
                         +:+ Text.zero_padded 2 (Datetime.minute dt) +:+ ":"
                         +:+ Text.zero_padded 2 (Datetime.second dt).
Proof.
  intros Hz. eexists. split; [|reflexivity].
  unfold Datetime.strftime. rewrite Hz. simpl Datetime.format_z.
  rewrite !append_assoc. reflexivity.
Qed.

(** C4 fails on the code: for every episode [get_episode_info] returns, the
    publish date is the format applied to a naive [datetime]: the field of
    the directive [%z] is empty, and the string ends with the space that
    follows the seconds, not with a timezone offset. *)
Theorem pubDate_has_no_offset mp3_path base_url cover_dir w info w' :
  run (get_episode_info mp3_path base_url cover_dir) w = (Ok info, w') ->
  exists dt,
    ep_pubDate info = Datetime.strftime dt
    /\ Datetime.format_z (Datetime.utcoffset dt) = ""
    /\ ep_pubDate info
       = (Datetime.day_abbr (Datetime.weekday dt) +:+ ", "
          +:+ Text.zero_padded 2 (Datetime.day dt) +:+ " "
          +:+ Datetime.month_abbr (Datetime.month dt) +:+ " "
          +:+ Text.zero_padded 4 (Datetime.year dt) +:+ " "
          +:+ Text.zero_padded 2 (Datetime.hour dt) +:+ ":"
          +:+ Text.zero_padded 2 (Datetime.minute dt) +:+ ":"
          +:+ Text.zero_padded 2 (Datetime.second dt)) +:+ " "
    /\ Text.endswith " " (ep_pubDate info) = true.
Proof.
  intros Hrun.
  destruct (get_episode_info_ok _ _ _ _ _ _ Hrun)
    as (w1 & f & tags & dt & w2 & cover & _ & _ & _ & Hdate & _ & ->).
  exists dt. simpl.
  pose proof (publish_datetime_naive _ _ _ _ _ Hdate) as Hz.
  destruct (strftime_naive dt Hz) as (body & Hfmt & ->).
  split; [reflexivity|]. split; [rewrite Hz; reflexivity|].
  split; [exact Hfmt|].
  rewrite Hfmt. apply endswith_append. reflexivity.
Qed.

Lemma pubDate_has_no_offset_witness :
  exists dt,
    "Mon, 01 May 2023 00:00:00 " = Datetime.strftime dt
    /\ Datetime.format_z (Datetime.utcoffset dt) = "".
Proof.
  destruct (pubDate_has_no_offset "music/Song.mp3" PODCAST_LINK "music/covers"
              (spec_example ["Song.mp3"; "Other.mp3"])
              (mk_episode "Song" "Song.mp3" (PODCAST_LINK +:+ "Song.mp3")
                 "Mon, 01 May 2023 00:00:00 " "" None "music/Song.mp3")
              (run (get_episode_info "music/Song.mp3" PODCAST_LINK "music/covers")
                 (spec_example ["Song.mp3"; "Other.mp3"])).2)
    as (dt & Hfmt & Hz & _).
  - vm_compute. reflexivity.
  - exists dt. split; [exact Hfmt | exact Hz].
Defined.

(** The episode of the file dated 2023-05-01. *)
Example pubDate_example :
  (run (get_episode_info "music/Song.mp3" PODCAST_LINK "music/covers")
     (spec_example ["Song.mp3"; "Other.mp3"])).1
  = Ok (mk_episode "Song" "Song.mp3" (PODCAST_LINK +:+ "Song.mp3")
          "Mon, 01 May 2023 00:00:00 " "" None "music/Song.mp3").
Proof. vm_compute. reflexivity. Qed.

(** ** Runs of [build_feed] that complete, and runs that do not *)

Lemma build_feed_completed directory w w' :
  run (build_feed directory) w = (Ok tt, w') ->
  exists names infos w1 items w2,
    listing w directory = Some names
    /\ processed directory (Path.join directory EPISODE_ART_DIR)
         (with_event (EvListdir directory) w)
         (filter (fun f => is_mp3 f = true) names) infos w1
    /\ emitted w1 (map snd (sort_by_key fst (map keyed infos))) items w2
    /\ w' = written directory items w2.
Proof.
  intros Hrun.
  destruct (build_feed_outcome directory w)
    as [[_ H] | [(names & pre & f & post & infos & w1 & e & wx & _ & _ & _ & _ & H)
                | (names & infos & w1 & items & w2 & Hls & Hproc & Hem & H)]];
    rewrite H in Hrun; try discriminate.
  injection Hrun as <-. exists names, infos, w1, items, w2. auto.
Qed.

Lemma feed_at_written directory items w :
  feed_at (written directory items w) (Path.join directory "feed.xml") = Some (rss_of items).
Proof. unfold feed_at, written. simpl. rewrite lookup_insert_eq. reflexivity. Qed.

(** The first loop is a function of the world it starts in: a run over a
    list of names extends the run over a prefix of it. *)
Lemma processed_prefix directory cover_dir w pre infos w1 rest all w2 :
  processed directory cover_dir w pre infos w1 ->
  processed directory cover_dir w (pre ++ rest) all w2 ->
  exists more, all = infos ++ more /\ processed directory cover_dir w1 rest more w2.
Proof.
  intros Hpre. revert all. induction Hpre as [|w wa wb f l info infos Hstep Hl IH];
    intros all Hall.
  - exists all. split; [reflexivity | exact Hall].
  - simpl in Hall. inversion Hall as [|? wa' ? ? ? info' infos' Hstep' Hl']; subst.
    rewrite Hstep in Hstep'. injection Hstep' as <- <-.
    destruct (IH _ Hl') as (more & -> & Hmore).
    exists more. split; [reflexivity | exact Hmore].
Qed.

(** In a run that completes, every listed audio file gives an episode, and
    the episode gives an item of the feed written. *)
Lemma episode_item directory w w' names pre f post infos w1 :
  listing w directory = Some names ->
  filter (fun f => is_mp3 f = true) names = pre ++ f :: post ->
  processed directory (Path.join directory EPISODE_ART_DIR)
    (with_event (EvListdir directory) w) pre infos w1 ->
  run (build_feed directory) w = (Ok tt, w') ->
  exists info w2 items it wa wb,
    run (get_episode_info (Path.join directory f) PODCAST_LINK
           (Path.join directory EPISODE_ART_DIR)) w1 = (Ok info, w2)
    /\ feed_at w' (Path.join directory "feed.xml") = Some (rss_of items)
    /\ In it items
    /\ run (make_item info) wa = (Ok it, wb).
Proof.
  intros Hls Hsplit Hpre Hrun.
  destruct (build_feed_completed _ _ _ Hrun)
    as (names' & all & wA & items & wB & Hls' & Hall & Hem & ->).
  rewrite Hls in Hls'. injection Hls' as <-. rewrite Hsplit in Hall.
  destruct (processed_prefix _ _ _ _ _ _ _ _ _ Hpre Hall) as (more & -> & Hmore).
  inversion Hmore as [|? w2 ? ? ? info infos' Hstep Hpost]; subst.
  assert (Hin : In info (map snd (sort_by_key fst (map keyed (infos ++ info :: infos'))))).
  { apply sorted_episodes_in, in_or_app. right. left. reflexivity. }
  destruct (emitted_episode _ _ _ _ _ Hem Hin) as (it & wa & wb & Hit & Hmake).
  exists info, w2, items, it, wa, wb.
  split; [exact Hstep|]. split; [apply feed_at_written|]. split; assumption.
Qed.

(** What an item takes from its episode. *)
Lemma make_item_fields info w it w' :
  run (make_item info) w = (Ok it, w') ->
  item_title it = ep_title info
  /\ item_link it = ep_link info
  /\ item_pubDate it = ep_pubDate info
  /\ item_description it = ep_description info
  /\ item_guid it = PODCAST_LINK +:+ quote (ep_filename info)
  /\ enc_url (item_enclosure it) = PODCAST_LINK +:+ quote (ep_filename info)
  /\ enc_type (item_enclosure it) = "audio/mpeg".
Proof.
  rewrite run_make_item. intros H.
  destruct (fs w !! ep_file_path info); injection H as <- _; repeat split.
Qed.

(** ** C5: date tags that are not taken *)

(** A call whose renaming succeeds and whose tag container opens: what is
    left is the publish date and the cover. *)
Lemma run_get_episode_info mp3_path base_url cover_dir w path1 w1 f tags :
  let clean_name := clean_apostrophes (Path.basename mp3_path) in
  run (rename_step mp3_path (Path.basename mp3_path) clean_name) w = (Ok path1, w1) ->
  fs w1 !! path1 = Some f ->
  file_content f = Bytes (Some tags) ->
  run (get_episode_info mp3_path base_url cover_dir) w =
  match run (publish_datetime clean_name (tag_date tags)) (opened path1 w1) with
  | (Ok pub_dt, w2) =>
      match run (ensure_cover path1 cover_dir) w2 with
      | (Ok cover, w3) => (Ok (episode_of clean_name base_url tags pub_dt cover path1), w3)
      | (Raise e, w3) => (Raise e, w3)
      end
  | (Raise e, w2) => (Raise e, w2)
  end.
Proof.
  intros clean_name Hren Hf Hc.
  unfold get_episode_info. change (easy_get "date") with tag_date.
  rewrite run_bind. fold clean_name. rewrite Hren.
  rewrite run_bind, (run_open_tags_ok _ _ f tags Hf Hc).
  rewrite run_bind, (run_open_tags_ok _ _ f tags) by assumption.
  rewrite run_bind. fold (opened path1 w1).
  destruct (run (publish_datetime clean_name (tag_date tags)) (opened path1 w1))
    as [[pub_dt|e] w2]; [|reflexivity].
  rewrite run_bind.
  destruct (run (ensure_cover path1 cover_dir) w2) as [[cover|e] w3]; reflexivity.
Qed.

Lemma strftime_nonempty dt : Datetime.strftime dt <> "".
Proof.
  unfold Datetime.strftime.
  destruct (Datetime.day_abbr (Datetime.weekday dt)); discriminate.
Qed.

Lemma run_publish_datetime_rejected clean_name date_tag w :
  rejected date_tag ->
  exists msg,
    run (publish_datetime clean_name date_tag) w
    = (Ok (wall_clock w), with_log (WARNING, msg) (with_tick w)).
Proof.
  intros [-> | [-> | (text & -> & Hbad)]]; rewrite run_publish_datetime.
  - eexists. reflexivity.
  - eexists. reflexivity.
  - destruct text as [|c r]; [eexists; reflexivity|].
    rewrite Hbad. eexists. reflexivity.
Qed.

(** C5, as the code has it. Take an audio file of the listing, reached by
    the first loop, whose renaming (if any) succeeds and whose tag container
    opens. If its date tag is absent, empty or refused by [strptime] with
    the format [%Y-%m-%d], then a warning is logged and the wall clock is
    read, and the call fails only if the cover resolver does: otherwise it
    returns the episode with the wall clock as its non-empty publish date.
    In a run that completes, the feed has an item with this publish date
    for the file. *)
Theorem rejected_date_falls_back directory w names pre f post infos w1 path1 w1' fl tags :
  let cover_dir := Path.join directory EPISODE_ART_DIR in
  let mp3_path := Path.join directory f in
  let clean_name := clean_apostrophes (Path.basename mp3_path) in
  listing w directory = Some names ->
  filter (fun f => is_mp3 f = true) names = pre ++ f :: post ->
  processed directory cover_dir (with_event (EvListdir directory) w) pre infos w1 ->
  run (rename_step mp3_path (Path.basename mp3_path) clean_name) w1 = (Ok path1, w1') ->
  fs w1' !! path1 = Some fl ->
  file_content fl = Bytes (Some tags) ->
  rejected (tag_date tags) ->
  let pub_date := Datetime.strftime (wall_clock w1') in
  exists msg,
    pub_date <> ""
    /\ run (get_episode_info mp3_path PODCAST_LINK cover_dir) w1 =
       match run (ensure_cover path1 cover_dir)
               (with_log (WARNING, msg) (with_tick (opened path1 w1'))) with
       | (Ok cover, w2) =>
           (Ok (episode_of clean_name PODCAST_LINK tags (wall_clock w1') cover path1), w2)
       | (Raise e, w2) => (Raise e, w2)
       end
    /\ forall w',
         run (build_feed directory) w = (Ok tt, w') ->
         exists items it,
           feed_at w' (Path.join directory "feed.xml") = Some (rss_of items)
           /\ In it items
           /\ item_pubDate it = pub_date
           /\ item_link it = PODCAST_LINK +:+ quote clean_name.
Proof.
  intros cover_dir mp3_path clean_name Hls Hsplit Hpre Hren Hf Hc Hbad pub_date.
  destruct (run_publish_datetime_rejected clean_name _ (opened path1 w1') Hbad)
    as (msg & Hdate).
  pose proof (run_get_episode_info mp3_path PODCAST_LINK cover_dir w1 path1 w1' fl tags
                Hren Hf Hc) as Hinfo.
  fold clean_name in Hinfo. rewrite Hdate in Hinfo.
  exists msg. split; [apply strftime_nonempty|]. split; [exact Hinfo|].
  intros w' Hrun.
  destruct (episode_item _ _ _ _ _ _ _ _ _ Hls Hsplit Hpre Hrun)
    as (info & w2 & items & it & wa & wb & Hstep & Hfeed & Hin & Hmake).
  fold cover_dir in Hstep. fold mp3_path in Hstep. rewrite Hinfo in Hstep.
  destruct (run (ensure_cover path1 cover_dir) _) as [[cover|e] w3]; [|discriminate].
  injection Hstep as <- <-.
  destruct (make_item_fields _ _ _ _ Hmake) as (_ & Hlink & Hdate' & _).
  exists items, it. repeat split; assumption.
Qed.

Lemma rejected_date_falls_back_witness :
  exists msg,
    run (get_episode_info "music/Demo.mp3" PODCAST_LINK "music/covers")
      (with_event (EvListdir "music") undated_example)
    = match run (ensure_cover "music/Demo.mp3" "music/covers")
              (with_log (WARNING, msg)
                 (with_tick (opened "music/Demo.mp3"
                               (with_event (EvListdir "music") undated_example)))) with
      | (Ok cover, w2) =>
          (Ok (episode_of "Demo.mp3" PODCAST_LINK undated_tags noon cover "music/Demo.mp3"), w2)
      | (Raise e, w2) => (Raise e, w2)
      end.
Proof.
  destruct (rejected_date_falls_back "music" undated_example ["Demo.mp3"] [] "Demo.mp3" [] []
              (with_event (EvListdir "music") undated_example) "music/Demo.mp3"
              (with_event (EvListdir "music") undated_example)
              (audio 100 undated_tags) undated_tags)
    as (msg & _ & Hrun & _).
  - reflexivity.
  - vm_compute. reflexivity.
  - constructor.
  - vm_compute. reflexivity.
  - vm_compute. reflexivity.
  - reflexivity.
  - left. reflexivity.
  - exists msg. exact Hrun.
Defined.

(** C5 as stated fails: the date tag [2023-5-1] is not in the form
    [YYYY-MM-DD], yet [strptime] takes it, since a leading zero is optional
    for [%m] and [%d]: the episode is dated 1 May 2023, the wall clock is
    not read and no warning about the date is logged. *)
Lemma short_date_is_taken :
  String.length "2023-5-1" <> String.length "YYYY-MM-DD"
  /\ (run (get_episode_info "music/Song.mp3" PODCAST_LINK "music/covers") short_date_example).1
     = Ok (mk_episode "Song" "Song.mp3" (PODCAST_LINK +:+ "Song.mp3")
             "Mon, 01 May 2023 00:00:00 " "" None "music/Song.mp3")
  /\ log (run (get_episode_info "music/Song.mp3" PODCAST_LINK "music/covers")
            short_date_example).2
     = [(WARNING, "No APIC cover found in music/Song.mp3")]
  /\ ticks (run (get_episode_info "music/Song.mp3" PODCAST_LINK "music/covers")
              short_date_example).2 = 0%nat.
Proof.
  split; [|split; [|split]].
  - vm_compute. discriminate.
  - vm_compute. reflexivity.
  - vm_compute. reflexivity.
  - vm_compute. reflexivity.
Qed.

(** ** C8: the enclosure and the identifier of an item *)

Lemma processed_info directory cover_dir w mp3s infos w' info :
  processed directory cover_dir w mp3s infos w' -> In info infos ->
  exists f wa wb,
    In f mp3s
    /\ run (get_episode_info (Path.join directory f) PODCAST_LINK cover_dir) wa = (Ok info, wb).
Proof.
  induction 1 as [|w w1 w2 g rest info0 infos Hstep Hrest IH]; intros Hin.
  - destruct Hin.
  - destruct Hin as [<- | Hin].
    + exists g, w, w1. split; [left; reflexivity | exact Hstep].
    + destruct (IH Hin) as (f & wa & wb & Hf & Hrun).
      exists f, wa, wb. split; [right; exact Hf | exact Hrun].
Qed.

Lemma get_episode_info_filename mp3_path base_url cover_dir w info w' :
  run (get_episode_info mp3_path base_url cover_dir) w = (Ok info, w') ->
  ep_filename info = clean_apostrophes (Path.basename mp3_path)
  /\ ep_link info = base_url +:+ quote (clean_apostrophes (Path.basename mp3_path))
  /\ ep_file_path info = renamed_path mp3_path.
Proof.
  intros Hrun.
  destruct (get_episode_info_ok _ _ _ _ _ _ Hrun)
    as (w1 & f & tags & dt & w2 & cover & _ & _ & _ & _ & _ & ->).
  repeat split.
Qed.

Lemma processed_names directory cover_dir w mp3s infos w' :
  processed directory cover_dir w mp3s infos w' ->
  map ep_filename infos = map (feed_name directory) mp3s
  /\ map ep_link infos = map (feed_url directory) mp3s.
Proof.
  induction 1 as [|w w1 w2 f rest info infos Hstep Hrest [IHn IHl]]; [split; reflexivity|].
  destruct (get_episode_info_filename _ _ _ _ _ _ Hstep) as (Hname & Hlink & _).
  simpl. rewrite IHn, IHl, Hname, Hlink. split; reflexivity.
Qed.




(** The enclosures of the example of the specification: [Song.mp3] has 100
    bytes and [Other.mp3] has 200. *)
Example enclosures_of_spec_example :
  (fun doc => map (fun it => (enc_url (item_enclosure it), enc_length (item_enclosure it),
                              enc_type (item_enclosure it), item_guid it))
                (channel_items doc))
    <$> feed_at (run (build_feed "music") (spec_example ["Song.mp3"; "Other.mp3"])).2
          "music/feed.xml"
  = Some [(PODCAST_LINK +:+ "Song.mp3", "100", "audio/mpeg", PODCAST_LINK +:+ "Song.mp3");
          (PODCAST_LINK +:+ "Other.mp3", "200", "audio/mpeg", PODCAST_LINK +:+ "Other.mp3")].
Proof. vm_compute. reflexivity. Qed.

(** The two branches of lines 160-164 on one episode: a file of 4096 bytes,
    and no file at all. *)
Example enclosure_length_example :
  let info := mk_episode "Song" "Song.mp3" (PODCAST_LINK +:+ "Song.mp3")
                "Mon, 01 May 2023 00:00:00 " "" None "music/Song.mp3" in
  let there := example_world [("music/Song.mp3", audio 4096 song_tags)] [] NotFound in
  let gone := example_world [] [] NotFound in
  (enc_length <$> (item_enclosure <$>
     match (run (make_item info) there).1 with Ok it => Some it | Raise _ => None end))
  = Some "4096"
  /\ log (run (make_item info) there).2 = []
  /\ (enc_length <$> (item_enclosure <$>
        match (run (make_item info) gone).1 with Ok it => Some it | Raise _ => None end))
     = Some "0"
  /\ log (run (make_item info) gone).2
     = [(WARNING, "Could not get file size for music/Song.mp3")].
Proof. repeat split; vm_compute; reflexivity. Qed.

(** ** What a computation leaves alone *)

Lemma keeps_refl out w : keeps out w w.
Proof. split; [reflexivity|]. exists []. rewrite app_nil_r. split; [reflexivity | constructor]. Qed.

Lemma keeps_trans out w1 w2 w3 : keeps out w1 w2 -> keeps out w2 w3 -> keeps out w1 w3.
Proof.
  intros [Hf1 (e1 & Ht1 & He1)] [Hf2 (e2 & Ht2 & He2)]. split; [congruence|].
  exists (e1 ++ e2). rewrite Ht2, Ht1, app_assoc. split; [reflexivity|].
  apply Forall_app. split; assumption.
Qed.

Lemma keeps_event out e w : ~ is_feed_write e -> keeps out w (with_event e w).
Proof. intros He. split; [reflexivity|]. exists [e]. split; [reflexivity|]. repeat constructor. exact He. Qed.

Lemma keeps_log out e w : keeps out w (with_log e w).
Proof. split; [reflexivity|]. exists []. simpl. rewrite app_nil_r. split; [reflexivity | constructor]. Qed.

Lemma keeps_tick out w : keeps out w (with_tick w).
Proof. split; [reflexivity|]. exists []. simpl. rewrite app_nil_r. split; [reflexivity | constructor]. Qed.

Lemma keeps_fs out f w :
  f (fs w) !! out = fs w !! out -> keeps out w (with_fs f w).
Proof. intros Hf. split; [exact Hf|]. exists []. simpl. rewrite app_nil_r. split; [reflexivity | constructor]. Qed.

Lemma preserves_ret {A} out (a : A) : preserves out (mret a).
Proof. intros w r w' H. injection H as <- <-. apply keeps_refl. Qed.

Lemma preserves_bind {A B} out (m : M A) (k : A -> M B) :
  preserves out m -> (forall a, preserves out (k a)) -> preserves out (m ≫= k).
Proof.
  intros Hm Hk w r w' H. rewrite run_bind in H.
  destruct (run m w) as [[a|e] w1] eqn:Hrun.
  - eapply keeps_trans; [eapply Hm, Hrun | eapply Hk, H].
  - injection H as <- <-. eapply Hm, Hrun.
Qed.

Lemma preserves_try_except {A} out (m : M A) (h : exn -> option (M A)) :
  preserves out m -> (forall e k, h e = Some k -> preserves out k) ->
  preserves out (try_except m h).
Proof.
  intros Hm Hh w r w' H. unfold try_except in H. simpl in H.
  destruct (run m w) as [[a|e] w1] eqn:Hrun.
  - injection H as <- <-. eapply Hm, Hrun.
  - destruct (h e) as [k|] eqn:Hk.
    + eapply keeps_trans; [eapply Hm, Hrun | eapply Hh; [exact Hk | exact H]].
    + injection H as <- <-. eapply Hm, Hrun.
Qed.

Lemma preserves_emit out e : ~ is_feed_write e -> preserves out (emit e).
Proof. intros He w r w' H. injection H as <- <-. apply keeps_event, He. Qed.

Lemma preserves_logging out l msg : preserves out (logging l msg).
Proof. intros w r w' H. injection H as <- <-. apply keeps_log. Qed.

Lemma preserves_open_tags out path : preserves out (open_tags path).
Proof.
  apply preserves_bind; [apply preserves_emit; simpl; auto|].
  intros _ w r w' H. simpl in H.
  destruct (fs w !! path) as [f|]; [destruct (file_content f) as [[t|]|d]|];
    injection H as <- <-; apply keeps_refl.
Qed.

Lemma preserves_path_exists out path : preserves out (path_exists path).
Proof.
  apply preserves_bind; [apply preserves_emit; simpl; auto|].
  intros _ w r w' H. injection H as <- <-. apply keeps_refl.
Qed.

Lemma preserves_now out : preserves out now.
Proof. intros w r w' H. injection H as <- <-. apply keeps_tick. Qed.

Lemma preserves_write_bytes out path data :
  path <> out -> preserves out (write_bytes path data).
Proof.
  intros Hne. apply preserves_bind; [apply preserves_emit; simpl; auto|].
  intros _ w r w' H. injection H as <- <-.
  apply keeps_fs. apply lookup_insert_ne, Hne.
Qed.

Lemma preserves_remove out path : path <> out -> preserves out (remove path).
Proof.
  intros Hne. apply preserves_bind; [apply preserves_emit; simpl; auto|].
  intros _ w r w' H. simpl in H.
  destruct (fs w !! path); injection H as <- <-; [|apply keeps_refl].
  apply keeps_fs. apply lookup_delete_ne, Hne.
Qed.

Lemma preserves_rename out src dst :
  src <> out -> dst <> out -> preserves out (rename src dst).
Proof.
  intros Hs Hd. apply preserves_bind; [apply preserves_emit; simpl; auto|].
  intros _ w r w' H. simpl in H.
  destruct (fs w !! src); injection H as <- <-; [|apply keeps_refl].
  apply keeps_fs. rewrite lookup_insert_ne by exact Hd. apply lookup_delete_ne, Hs.
Qed.

Lemma preserves_subprocess_run out temp_path final_path :
  final_path <> out -> preserves out (subprocess_run (ffmpeg_cmd temp_path final_path)).
Proof.
  intros Hne. apply preserves_bind; [apply preserves_emit; simpl; auto|].
  intros _ w r w' H. simpl in H.
  destruct (ffmpeg w temp_path final_path); injection H as <- <-;
    [|apply keeps_refl..].
  apply keeps_fs. apply lookup_insert_ne, Hne.
Qed.

Lemma preserves_getsize out path : preserves out (getsize path).
Proof.
  apply preserves_bind; [apply preserves_emit; simpl; auto|].
  intros _ w r w' H. simpl in H.
  destruct (fs w !! path); injection H as <- <-; apply keeps_refl.
Qed.

Lemma preserves_listdir out dir : preserves out (listdir dir).
Proof.
  apply preserves_bind; [apply preserves_emit; simpl; auto|].
  intros _ w r w' H. simpl in H.
  destruct (listing w dir); injection H as <- <-; apply keeps_refl.
Qed.

Lemma preserves_decode out bytes : preserves out (decode bytes).
Proof.
  intros w r w' H. unfold decode in H.
  destruct (Text.utf8_valid bytes); injection H as <- <-; apply keeps_refl.
Qed.

Lemma preserves_extract_cover out mp3_path cover_dir base cover_name cover_path data :
  Path.join cover_dir (base +:+ "_tmp") <> out -> cover_path <> out ->
  preserves out (extract_cover mp3_path cover_dir base cover_name cover_path data).
Proof.
  intros Htmp Hcover. unfold extract_cover.
  apply preserves_bind; [apply preserves_emit; simpl; auto|]. intros _.
  apply preserves_bind; [apply preserves_write_bytes, Htmp|]. intros _.
  apply preserves_try_except.
  - apply preserves_bind; [apply preserves_subprocess_run, Hcover|]. intros _.
    apply preserves_bind; [apply preserves_remove, Htmp|]. intros _.
    apply preserves_bind; [apply preserves_logging|]. intros _.
    apply preserves_ret.
  - intros [m|m|m|stderr|m] k Hk; try discriminate. injection Hk as <-.
    apply preserves_bind; [apply preserves_decode|]. intros text.
    apply preserves_bind; [apply preserves_logging|]. intros _. apply preserves_ret.
Qed.

Lemma preserves_cover_loop out mp3_path cover_dir base cover_name cover_path tags :
  Path.join cover_dir (base +:+ "_tmp") <> out -> cover_path <> out ->
  preserves out (cover_loop mp3_path cover_dir base cover_name cover_path tags).
Proof.
  intros Htmp Hcover. rewrite cover_loop_front_cover.
  destruct (front_cover tags) as [data|].
  - apply preserves_extract_cover; assumption.
  - apply preserves_bind; [apply preserves_logging|]. intros _. apply preserves_ret.
Qed.

Lemma preserves_ensure_cover out mp3_path cover_dir :
  let base := Path.splitext_root (Path.basename mp3_path) in
  Path.join cover_dir (base +:+ "_tmp") <> out ->
  Path.join cover_dir (base +:+ ".jpg") <> out ->
  preserves out (ensure_cover mp3_path cover_dir).
Proof.
  intros base Htmp Hcover. unfold ensure_cover.
  apply preserves_bind.
  - apply preserves_try_except.
    + apply preserves_bind; [apply preserves_open_tags|]. intros t. apply preserves_ret.
    + intros [m|m|m|m|m] k Hk; try discriminate. injection Hk as <-.
      apply preserves_bind; [apply preserves_logging|]. intros _. apply preserves_ret.
  - intros [tags|]; [|apply preserves_ret].
    apply preserves_bind; [apply preserves_path_exists|].
    intros [|]; [apply preserves_ret|].
    apply preserves_cover_loop; assumption.
Qed.

Lemma preserves_publish_datetime out clean_name date_tag :
  preserves out (publish_datetime clean_name date_tag).
Proof.
  assert (Hnow : forall msg,
             preserves out (pub_dt ← now; logging WARNING msg ;; mret pub_dt)).
  { intros msg. apply preserves_bind; [apply preserves_now|]. intros dt.
    apply preserves_bind; [apply preserves_logging|]. intros _. apply preserves_ret. }
  unfold publish_datetime. destruct date_tag as [[|c r]|]; try apply Hnow.
  destruct (Datetime.strptime _); [apply preserves_ret | apply Hnow].
Qed.

Lemma preserves_rename_step out mp3_path filename clean_name :
  mp3_path <> out -> Path.join (Path.dirname mp3_path) clean_name <> out ->
  preserves out (rename_step mp3_path filename clean_name).
Proof.
  intros Hsrc Hdst. unfold rename_step.
  destruct (String.eqb filename clean_name); [apply preserves_ret|].
  apply preserves_bind; [apply preserves_rename; assumption|]. intros _.
  apply preserves_bind; [apply preserves_logging|]. intros _. apply preserves_ret.
Qed.

(** [get_episode_info] leaves alone every path other than the audio file,
    its renamed form, and the temporary and final cover files. *)
Lemma preserves_get_episode_info out mp3_path base_url cover_dir :
  let clean_name := clean_apostrophes (Path.basename mp3_path) in
  mp3_path <> out ->
  Path.join (Path.dirname mp3_path) clean_name <> out ->
  (forall base, Path.join cover_dir (base +:+ "_tmp") <> out) ->
  (forall base, Path.join cover_dir (base +:+ ".jpg") <> out) ->
  preserves out (get_episode_info mp3_path base_url cover_dir).
Proof.
  intros clean_name Hsrc Hdst Htmp Hcover. unfold get_episode_info.
  apply preserves_bind; [apply preserves_rename_step; assumption|]. intros path1.
  apply preserves_bind; [apply preserves_open_tags|]. intros audio.
  apply preserves_bind; [apply preserves_open_tags|]. intros tags.
  apply preserves_bind; [apply preserves_publish_datetime|]. intros pub_dt.
  apply preserves_bind; [apply preserves_ensure_cover; auto|]. intros cover.
  apply preserves_ret.
Qed.

(** ** The log file only grows *)

Lemma grows_refl w : grows w w.
Proof. exists []. rewrite app_nil_r. reflexivity. Qed.

Lemma grows_trans w1 w2 w3 : grows w1 w2 -> grows w2 w3 -> grows w1 w3.
Proof.
  intros [e1 H1] [e2 H2]. exists (e1 ++ e2). rewrite H2, H1, app_assoc. reflexivity.
Qed.

Lemma grows_same w w' : log w' = log w -> grows w w'.
Proof. intros H. exists []. rewrite H, app_nil_r. reflexivity. Qed.

Lemma appending_ret {A} (a : A) : appending (mret a).
Proof. intros w r w' H. injection H as <- <-. apply grows_refl. Qed.

Lemma appending_bind {A B} (m : M A) (k : A -> M B) :
  appending m -> (forall a, appending (k a)) -> appending (m ≫= k).
Proof.
  intros Hm Hk w r w' H. rewrite run_bind in H.
  destruct (run m w) as [[a|e] w1] eqn:Hrun.
  - eapply grows_trans; [eapply Hm, Hrun | eapply Hk, H].
  - injection H as <- <-. eapply Hm, Hrun.
Qed.

Lemma appending_try_except {A} (m : M A) (h : exn -> option (M A)) :
  appending m -> (forall e k, h e = Some k -> appending k) ->
  appending (try_except m h).
Proof.
  intros Hm Hh w r w' H. unfold try_except in H. simpl in H.
  destruct (run m w) as [[a|e] w1] eqn:Hrun.
  - injection H as <- <-. eapply Hm, Hrun.
  - destruct (h e) as [k|] eqn:Hk.
    + eapply grows_trans; [eapply Hm, Hrun | eapply Hh; [exact Hk | exact H]].
    + injection H as <- <-. eapply Hm, Hrun.
Qed.

(** An effect that leaves the log as it is. *)
Lemma appending_effect {A} (f : world -> result A * world) :
  (forall w, log (f w).2 = log w) -> appending (effect f).
Proof.
  intros Hf w r w' H. apply grows_same. rewrite <- (Hf w).
  change (run (effect f) w) with (f w) in H. rewrite H. reflexivity.
Qed.

Ltac same_log :=
  apply appending_effect; intros ?; simpl; repeat case_match; reflexivity.

Lemma appending_emit e : appending (emit e).
Proof. same_log. Qed.

Lemma appending_logging l msg : appending (logging l msg).
Proof. intros w r w' H. injection H as <- <-. exists [(l, msg)]. reflexivity. Qed.

Lemma appending_open_tags path : appending (open_tags path).
Proof. apply appending_bind; [apply appending_emit|]. intros _. same_log. Qed.

Lemma appending_path_exists path : appending (path_exists path).
Proof. apply appending_bind; [apply appending_emit|]. intros _. same_log. Qed.

Lemma appending_write_bytes path data : appending (write_bytes path data).
Proof. apply appending_bind; [apply appending_emit|]. intros _. same_log. Qed.

Lemma appending_subprocess_run cmd : appending (subprocess_run cmd).
Proof. apply appending_bind; [apply appending_emit|]. intros _. same_log. Qed.

Lemma appending_remove path : appending (remove path).
Proof. apply appending_bind; [apply appending_emit|]. intros _. same_log. Qed.

Lemma appending_rename src dst : appending (rename src dst).
Proof. apply appending_bind; [apply appending_emit|]. intros _. same_log. Qed.

Lemma appending_getsize path : appending (getsize path).
Proof. apply appending_bind; [apply appending_emit|]. intros _. same_log. Qed.

Lemma appending_listdir dir : appending (listdir dir).
Proof. apply appending_bind; [apply appending_emit|]. intros _. same_log. Qed.

Lemma appending_now : appending now.
Proof. same_log. Qed.

Lemma appending_tree_write path doc : appending (tree_write path doc).
Proof. apply appending_bind; [apply appending_emit|]. intros _. same_log. Qed.

Lemma appending_decode bytes : appending (decode bytes).
Proof.
  intros w r w' H. unfold decode in H.
  destruct (Text.utf8_valid bytes); injection H as <- <-; apply grows_refl.
Qed.

Lemma appending_ensure_cover mp3_path cover_dir : appending (ensure_cover mp3_path cover_dir).
Proof.
  unfold ensure_cover. apply appending_bind.
  - apply appending_try_except.
    + apply appending_bind; [apply appending_open_tags|]. intros t. apply appending_ret.
    + intros [m|m|m|m|m] k Hk; try discriminate. injection Hk as <-.
      apply appending_bind; [apply appending_logging|]. intros _. apply appending_ret.
  - intros [tags|]; [|apply appending_ret].
    apply appending_bind; [apply appending_path_exists|].
    intros [|]; [apply appending_ret|].
    rewrite cover_loop_front_cover.
    destruct (front_cover (tag_frames tags)) as [data|].
    + unfold extract_cover.
      apply appending_bind; [apply appending_emit|]. intros _.
      apply appending_bind; [apply appending_write_bytes|]. intros _.
      apply appending_try_except.
      * apply appending_bind; [apply appending_subprocess_run|]. intros _.
        apply appending_bind; [apply appending_remove|]. intros _.
        apply appending_bind; [apply appending_logging|]. intros _.
        apply appending_ret.
      * intros [m|m|m|stderr|m] k Hk; try discriminate. injection Hk as <-.
        apply appending_bind; [apply appending_decode|]. intros text.
        apply appending_bind; [apply appending_logging|]. intros _. apply appending_ret.
    + apply appending_bind; [apply appending_logging|]. intros _. apply appending_ret.
Qed.

Lemma appending_get_episode_info mp3_path base_url cover_dir :
  appending (get_episode_info mp3_path base_url cover_dir).
Proof.
  unfold get_episode_info.
  apply appending_bind.
  { unfold rename_step. destruct (String.eqb _ _); [apply appending_ret|].
    apply appending_bind; [apply appending_rename|]. intros _.
    apply appending_bind; [apply appending_logging|]. intros _. apply appending_ret. }
  intros path1.
  apply appending_bind; [apply appending_open_tags|]. intros audio.
  apply appending_bind; [apply appending_open_tags|]. intros tags.
  apply appending_bind.
  { assert (Hnow : forall msg,
               appending (pub_dt ← now; logging WARNING msg ;; mret pub_dt)).
    { intros msg. apply appending_bind; [apply appending_now|]. intros dt.
      apply appending_bind; [apply appending_logging|]. intros _. apply appending_ret. }
    unfold publish_datetime. destruct (easy_get "date" audio) as [[|c r]|]; try apply Hnow.
    destruct (Datetime.strptime _); [apply appending_ret | apply Hnow]. }
  intros pub_dt.
  apply appending_bind; [apply appending_ensure_cover|]. intros cover.
  apply appending_ret.
Qed.

Lemma appending_make_item info : appending (make_item info).
Proof.
  unfold make_item. apply appending_bind; [|intros size; apply appending_ret].
  apply appending_try_except; [apply appending_getsize|].
  intros [m|m|m|m|m] k Hk; try discriminate. injection Hk as <-.
  apply appending_bind; [apply appending_logging|]. intros _. apply appending_ret.
Qed.

Lemma appending_collect_episodes directory cover_dir mp3s acc :
  appending (collect_episodes directory cover_dir mp3s acc).
Proof.
  revert acc. induction mp3s as [|f rest IH]; intros acc; [apply appending_ret|].
  simpl. apply appending_bind; [apply appending_get_episode_info|].
  intros info. apply IH.
Qed.

Lemma appending_emit_items episodes acc : appending (emit_items episodes acc).
Proof.
  revert acc. induction episodes as [|[key info] rest IH]; intros acc;
    [apply appending_ret|].
  simpl. apply appending_bind; [apply appending_make_item|]. intros it. apply IH.
Qed.

(** Whatever its outcome, a run only appends to the log file. *)
Lemma appending_build_feed directory : appending (build_feed directory).
Proof.
  unfold build_feed.
  apply appending_bind; [apply appending_listdir|]. intros names.
  apply appending_bind; [apply appending_collect_episodes|]. intros episodes.
  apply appending_bind; [apply appending_emit_items|]. intros items.
  apply appending_bind; [apply appending_tree_write|]. intros _.
  apply appending_logging.
Qed.

(** ** Suffixes of paths *)

Lemma startswith_split (p s : string) :
  Text.startswith p s = true -> exists r, s = p +:+ r.
Proof.
  revert s. induction p as [|x p IH]; intros s H.
  - exists s. reflexivity.
  - destruct s as [|y s]; simpl in H; [discriminate|].
    apply andb_true_iff in H as [Hxy Hp]. apply Ascii.eqb_eq in Hxy. subst y.
    destruct (IH _ Hp) as [r ->]. exists r. reflexivity.
Qed.

Lemma endswith_split (q s : string) :
  Text.endswith q s = true -> exists r, s = r +:+ q.
Proof.
  unfold Text.endswith. intros H.
  destruct (startswith_split _ _ H) as [r Hr].
  exists (Text.reverse r).
  rewrite <- (reverse_involutive s), Hr, reverse_append, reverse_involutive.
  reflexivity.
Qed.

Lemma endswith_append_refl (r q : string) : Text.endswith q (r +:+ q) = true.
Proof. apply endswith_append, endswith_refl. Qed.

Lemma join_endswith (q a b : string) :
  Text.endswith q b = true -> Text.endswith q (Path.join a b) = true.
Proof.
  intros H. unfold Path.join.
  destruct (Text.startswith "/" b); [exact H|].
  destruct (_ || _); repeat apply endswith_append; exact H.
Qed.

(** Paths that end differently are different. *)
Lemma suffix_neq (q q' p out : string) :
  Text.endswith q p = true -> Text.endswith q' out = true ->
  String.length q = String.length q' -> q <> q' -> p <> out.
Proof.
  intros Hp Hout Hlen Hne ->. apply Hne.
  eapply endswith_same_length; eauto.
Qed.

Lemma feed_path_suffix directory :
  Text.endswith ".xml" (Path.join directory "feed.xml") = true.
Proof. apply join_endswith. reflexivity. Qed.

Lemma temp_path_neq_feed directory cover_dir base :
  Path.join cover_dir (base +:+ "_tmp") <> Path.join directory "feed.xml".
Proof.
  eapply (suffix_neq "_tmp" ".xml");
    [apply join_endswith, endswith_append_refl | apply feed_path_suffix
    | reflexivity | discriminate].
Qed.

Lemma cover_path_neq_feed directory cover_dir base :
  Path.join cover_dir (base +:+ ".jpg") <> Path.join directory "feed.xml".
Proof.
  eapply (suffix_neq ".jpg" ".xml");
    [apply join_endswith, endswith_append_refl | apply feed_path_suffix
    | reflexivity | discriminate].
Qed.

(** *** The last component of a path keeps a suffix without slash *)

Lemma last_component_plain (q cur : string) :
  Text.forall_chars Text.not_slash q = true ->
  Path.last_component q cur = Text.reverse cur +:+ q.
Proof.
  revert cur. induction q as [|c q IH]; intros cur H; simpl.
  - rewrite append_nil_r. reflexivity.
  - simpl in H. apply andb_true_iff in H as [Hc Hq].
    unfold Text.not_slash in Hc. apply negb_true_iff in Hc. rewrite Hc.
    rewrite (IH _ Hq), reverse_cons, append_assoc. reflexivity.
Qed.

Lemma last_component_append (r q cur : string) :
  Text.forall_chars Text.not_slash q = true ->
  Path.last_component (r +:+ q) cur = Path.last_component r cur +:+ q.
Proof.
  intros Hq. revert cur. induction r as [|c r IH]; intros cur.
  - rewrite append_nil_l. simpl. apply last_component_plain, Hq.
  - rewrite append_cons. simpl. destruct (Ascii.eqb c "/"); apply IH.
Qed.

Lemma basename_endswith (q p : string) :
  Text.forall_chars Text.not_slash q = true ->
  Text.endswith q p = true -> Text.endswith q (Path.basename p) = true.
Proof.
  intros Hq Hp. destruct (endswith_split _ _ Hp) as [r ->].
  unfold Path.basename. rewrite (last_component_append _ _ _ Hq).
  apply endswith_append_refl.
Qed.

(** ** [clean_apostrophes] *)

Lemma clean_curly (rest : string) :
  clean_apostrophes (curly +:+ rest) = String straight (clean_apostrophes rest).
Proof. reflexivity. Qed.

Lemma startswith_curly (c : ascii) (rest : string) :
  Text.startswith curly (String c rest) =
  match rest with
  | String c2 (String c3 _) =>
      Ascii.eqb c "226" && Ascii.eqb c2 "128" && Ascii.eqb c3 "153"
  | _ => false
  end.
Proof.
  unfold curly. simpl.
  destruct rest as [|c2 [|c3 rest']]; simpl;
    rewrite ?(Ascii.eqb_sym "226"%char), ?(Ascii.eqb_sym "128"%char),
            ?(Ascii.eqb_sym "153"%char), ?andb_true_r, ?andb_false_r, ?andb_assoc;
    reflexivity.
Qed.

Lemma clean_other (c : ascii) (rest : string) :
  Text.startswith curly (String c rest) = false ->
  clean_apostrophes (String c rest) = String c (clean_apostrophes rest).
Proof.
  rewrite startswith_curly. intros H.
  destruct rest as [|c2 [|c3 rest']]; try reflexivity.
  cbn [clean_apostrophes]. rewrite H. reflexivity.
Qed.

Lemma startswith_curly_split (s : string) :
  Text.startswith curly s = true -> exists rest, s = curly +:+ rest.
Proof. apply startswith_split. Qed.

(** The induction that follows the scan: nothing left, a curly apostrophe
    ahead, or another byte ahead. *)
Lemma clean_ind (P : string -> Prop) :
  P "" ->
  (forall rest, P rest -> P (curly +:+ rest)) ->
  (forall c rest, Text.startswith curly (String c rest) = false -> P rest -> P (String c rest)) ->
  forall s, P s.
Proof.
  intros Hnil Hcurly Hother s.
  remember (String.length s) as n eqn:Hn.
  revert s Hn. induction n as [n IH] using lt_wf_ind. intros s Hn.
  destruct s as [|c rest]; [exact Hnil|].
  destruct (Text.startswith curly (String c rest)) eqn:Hs.
  - destruct (startswith_curly_split _ Hs) as [rest' Heq]. rewrite Heq.
    apply Hcurly. apply (IH (String.length rest')); [|reflexivity].
    rewrite Hn, Heq, append_length. simpl. lia.
  - apply Hother; [exact Hs|].
    apply (IH (String.length rest)); [|reflexivity]. rewrite Hn. simpl. lia.
Qed.

Lemma clean_length (s : string) :
  (String.length (clean_apostrophes s) <= String.length s)%nat.
Proof.
  induction s as [|rest IH|c rest Hs IH] using clean_ind.
  - simpl. lia.
  - rewrite clean_curly, append_length. simpl. lia.
  - rewrite (clean_other _ _ Hs). simpl. lia.
Qed.

(** A name with a curly apostrophe is changed by the replacement. *)
Lemma clean_changes (s : string) :
  Text.contains curly s = true -> clean_apostrophes s <> s.
Proof.
  assert (Hlt : Text.contains curly s = true ->
                (String.length (clean_apostrophes s) < String.length s)%nat).
  { induction s as [|rest IH|c rest Hs IH] using clean_ind; intros H.
    - discriminate.
    - rewrite clean_curly, append_length. pose proof (clean_length rest). simpl. lia.
    - rewrite (clean_other _ _ Hs).
      cbn [Text.contains] in H. rewrite Hs in H. simpl in H.
      specialize (IH H). simpl. lia. }
  intros H Heq. specialize (Hlt H). rewrite Heq in Hlt. lia.
Qed.

(** A name without curly apostrophe is left as it is. *)
Lemma clean_fixed (s : string) :
  Text.contains curly s = false -> clean_apostrophes s = s.
Proof.
  induction s as [|rest IH|c rest Hs IH] using clean_ind; intros H.
  - reflexivity.
  - change (curly +:+ rest)
      with (String "226"%char (String "128"%char (String "153"%char rest))) in H.
    simpl in H. discriminate.
  - rewrite (clean_other _ _ Hs). cbn [Text.contains] in H. rewrite Hs in H.
    simpl in H. rewrite (IH H). reflexivity.
Qed.

Lemma ascii_not_curly_byte (c : ascii) :
  Text.is_ascii c = true ->
  Ascii.eqb c "226" = false /\ Ascii.eqb c "128" = false /\ Ascii.eqb c "153" = false.
Proof.
  intros H. repeat split.
  - destruct (Ascii.eqb_spec c "226") as [->|]; [discriminate H | reflexivity].
  - destruct (Ascii.eqb_spec c "128") as [->|]; [discriminate H | reflexivity].
  - destruct (Ascii.eqb_spec c "153") as [->|]; [discriminate H | reflexivity].
Qed.

(** A curly apostrophe does not begin in a text and end in ASCII bytes added
    after it. *)
Lemma startswith_curly_append (c : ascii) (rest q : string) :
  Text.forall_chars Text.is_ascii q = true ->
  Text.startswith curly (String c rest) = false ->
  Text.startswith curly (String c (rest +:+ q)) = false.
Proof.
  intros Hq. rewrite !startswith_curly.
  destruct rest as [|c2 [|c3 rest']].
  - intros _. rewrite append_nil_l.
    destruct q as [|q0 [|q1 q']]; try reflexivity.
    simpl in Hq. apply andb_true_iff in Hq as [H0 _].
    destruct (ascii_not_curly_byte _ H0) as (_ & -> & _).
    rewrite andb_false_r. reflexivity.
  - intros _. rewrite append_cons, append_nil_l.
    destruct q as [|q0 q']; try reflexivity.
    simpl in Hq. apply andb_true_iff in Hq as [H0 _].
    destruct (ascii_not_curly_byte _ H0) as (_ & _ & ->).
    rewrite andb_false_r. reflexivity.
  - rewrite !append_cons. intros H. exact H.
Qed.

Lemma clean_ascii (q : string) :
  Text.forall_chars Text.is_ascii q = true -> clean_apostrophes q = q.
Proof.
  induction q as [|c q IH]; intros H; [reflexivity|].
  simpl in H. apply andb_true_iff in H as [Hc Hq].
  rewrite clean_other, (IH Hq); [reflexivity|].
  rewrite startswith_curly. destruct (ascii_not_curly_byte _ Hc) as (-> & _ & _).
  destruct q as [|c2 [|c3 q']]; reflexivity.
Qed.

(** The replacement leaves an ASCII ending where it is. *)
Lemma clean_append_ascii (r q : string) :
  Text.forall_chars Text.is_ascii q = true ->
  clean_apostrophes (r +:+ q) = clean_apostrophes r +:+ q.
Proof.
  intros Hq. induction r as [|rest IH|c rest Hs IH] using clean_ind.
  - rewrite append_nil_l. apply clean_ascii, Hq.
  - rewrite append_assoc, !clean_curly, IH. reflexivity.
  - rewrite append_cons.
    rewrite (clean_other _ _ (startswith_curly_append _ _ _ Hq Hs)).
    rewrite (clean_other _ _ Hs), IH. reflexivity.
Qed.

Lemma clean_endswith (q s : string) :
  Text.forall_chars Text.is_ascii q = true ->
  Text.endswith q s = true -> Text.endswith q (clean_apostrophes s) = true.
Proof.
  intros Hq Hs. destruct (endswith_split _ _ Hs) as [r ->].
  rewrite (clean_append_ascii _ _ Hq). apply endswith_append_refl.
Qed.

(** *** Names that end in [.mp3] *)

Lemma lower_rev_string (s acc : string) :
  Text.lower (Text.rev_string s acc) = Text.rev_string (Text.lower s) (Text.lower acc).
Proof. revert acc. induction s as [|c s IH]; intros acc; simpl; [reflexivity | apply IH]. Qed.

Lemma lower_reverse (s : string) : Text.lower (Text.reverse s) = Text.reverse (Text.lower s).
Proof. apply lower_rev_string. Qed.

Lemma lower_length (s : string) : String.length (Text.lower s) = String.length s.
Proof. induction s as [|c s IH]; simpl; [reflexivity | rewrite IH; reflexivity]. Qed.

Lemma lower_startswith_split (p s : string) :
  Text.startswith p (Text.lower s) = true -> exists q r, s = q +:+ r /\ Text.lower q = p.
Proof.
  revert s. induction p as [|x p IH]; intros s H.
  - exists "", s. split; reflexivity.
  - destruct s as [|c s]; simpl in H; [discriminate|].
    apply andb_true_iff in H as [Hx Hp]. apply Ascii.eqb_eq in Hx.
    destruct (IH _ Hp) as (q & r & -> & <-).
    exists (String c q), r. split; [reflexivity|]. simpl. rewrite Hx. reflexivity.
Qed.

Lemma is_mp3_suffix (f : string) :
  is_mp3 f = true -> exists q, Text.lower q = ".mp3" /\ Text.endswith q f = true.
Proof.
  unfold is_mp3, Text.endswith. rewrite <- lower_reverse. intros H.
  destruct (lower_startswith_split _ _ H) as (q0 & r & Hf & Hq0).
  exists (Text.reverse q0). split.
  - rewrite lower_reverse, Hq0. reflexivity.
  - rewrite <- (reverse_involutive f), Hf, reverse_append.
    apply endswith_append_refl.
Qed.

Lemma lower_char_ascii (c : ascii) :
  Text.is_ascii (Text.lower_char c) = true -> Text.is_ascii c = true.
Proof. destruct c as [[] [] [] [] [] [] [] []]; vm_compute; intros H; exact H. Qed.

Lemma lower_char_not_slash (c : ascii) :
  Text.not_slash (Text.lower_char c) = true -> Text.not_slash c = true.
Proof. destruct c as [[] [] [] [] [] [] [] []]; vm_compute; intros H; exact H. Qed.

Lemma lower_forall_chars (P : ascii -> bool) (s : string) :
  (forall c, P (Text.lower_char c) = true -> P c = true) ->
  Text.forall_chars P (Text.lower s) = true -> Text.forall_chars P s = true.
Proof.
  intros HP. induction s as [|c s IH]; simpl; [reflexivity|]. intros H.
  apply andb_true_iff in H as [Hc Hs]. rewrite (HP _ Hc), (IH Hs). reflexivity.
Qed.

(** The paths [get_episode_info] renames from and to are not the path of
    the feed. *)
Lemma mp3_paths_neq_feed directory f :
  is_mp3 f = true ->
  let mp3_path := Path.join directory f in
  mp3_path <> Path.join directory "feed.xml"
  /\ Path.join (Path.dirname mp3_path) (clean_apostrophes (Path.basename mp3_path))
     <> Path.join directory "feed.xml".
Proof.
  intros Hmp3 mp3_path.
  destruct (is_mp3_suffix _ Hmp3) as (q & Hlow & Hq).
  assert (Hlen : String.length q = String.length ".xml")
    by (rewrite <- (lower_length q), Hlow; reflexivity).
  assert (Hne : q <> ".xml") by (intros ->; discriminate Hlow).
  assert (Hascii : Text.forall_chars Text.is_ascii q = true)
    by (apply (lower_forall_chars _ _ lower_char_ascii); rewrite Hlow; reflexivity).
  assert (Hslash : Text.forall_chars Text.not_slash q = true)
    by (apply (lower_forall_chars _ _ lower_char_not_slash); rewrite Hlow; reflexivity).
  assert (Hpath : Text.endswith q mp3_path = true) by (apply join_endswith, Hq).
  split.
  - eapply suffix_neq; [exact Hpath | apply feed_path_suffix | exact Hlen | exact Hne].
  - eapply suffix_neq; [| apply feed_path_suffix | exact Hlen | exact Hne].
    apply join_endswith, clean_endswith; [exact Hascii|].
    apply basename_endswith; assumption.
Qed.

(** ** C10: when the feed is written *)

Lemma preserves_make_item out info : preserves out (make_item info).
Proof.
  unfold make_item. apply preserves_bind; [|intros size; apply preserves_ret].
  apply preserves_try_except; [apply preserves_getsize|].
  intros [m|m|m|m|m] k Hk; try discriminate. injection Hk as <-.
  apply preserves_bind; [apply preserves_logging|]. intros _. apply preserves_ret.
Qed.

Lemma emitted_keeps out w infos items w' :
  emitted w infos items w' -> keeps out w w'.
Proof.
  induction 1 as [|w w1 w2 info rest it items Hstep Hrest IH].
  - apply keeps_refl.
  - eapply keeps_trans; [eapply preserves_make_item, Hstep | exact IH].
Qed.

Lemma get_episode_info_keeps directory f w r w' :
  is_mp3 f = true ->
  run (get_episode_info (Path.join directory f) PODCAST_LINK
         (Path.join directory EPISODE_ART_DIR)) w = (r, w') ->
  keeps (Path.join directory "feed.xml") w w'.
Proof.
  intros Hmp3. destruct (mp3_paths_neq_feed directory f Hmp3) as [Hsrc Hdst].
  apply preserves_get_episode_info; auto using temp_path_neq_feed, cover_path_neq_feed.
Qed.

Lemma processed_keeps directory w mp3s infos w' :
  Forall (fun f => is_mp3 f = true) mp3s ->
  processed directory (Path.join directory EPISODE_ART_DIR) w mp3s infos w' ->
  keeps (Path.join directory "feed.xml") w w'.
Proof.
  intros Hall Hproc.
  induction Hproc as [|w w1 w2 f rest info infos Hstep Hrest IH].
  - apply keeps_refl.
  - inversion Hall as [|? ? Hf Hrest']; subst.
    eapply keeps_trans; [eapply get_episode_info_keeps; eassumption | apply IH, Hrest'].
Qed.

Lemma filter_is_mp3 (names : list string) :
  Forall (fun f => is_mp3 f = true) (filter (fun f => is_mp3 f = true) names).
Proof. apply Forall_forall. intros f Hf. apply list_elem_of_filter in Hf as [Hf _]. exact Hf. Qed.

(** A run that ends in an exception leaves the path of the feed alone. *)
Lemma build_feed_raise_keeps directory w e w' :
  run (build_feed directory) w = (Raise e, w') ->
  keeps (Path.join directory "feed.xml") w w'.
Proof.
  intros Hrun.
  assert (Hlist : keeps (Path.join directory "feed.xml") w
                    (with_event (EvListdir directory) w))
    by (apply keeps_event; simpl; auto).
  destruct (build_feed_outcome directory w)
    as [[_ H] | [(names & pre & f & post & infos & w1 & e' & wx & _ & Hsplit & Hpre & Hf & H)
                | (names & infos & w1 & items & w2 & _ & _ & _ & H)]];
    rewrite H in Hrun; [| |discriminate]; injection Hrun as <- <-.
  - exact Hlist.
  - pose proof (filter_is_mp3 names) as Hall. rewrite Hsplit in Hall.
    apply Forall_app in Hall as [Hall_pre Hall_f].
    inversion Hall_f as [|? ? Hmp3 _]; subst.
    eapply keeps_trans; [exact Hlist|].
    eapply keeps_trans; [eapply (processed_keeps _ _ pre); [exact Hall_pre | exact Hpre]|].
    eapply get_episode_info_keeps; [exact Hmp3 | exact Hf].
Qed.

(** C10: a run of [build_feed] that ends in an exception has written no
    feed document, and the file at [feed.xml] of the target directory, if
    there was one, is the one from before the run. In a run that completes,
    the document is written once, as the last effect on the file system,
    after every listed audio file has been processed and every item made. *)
Theorem feed_written_last directory w r w' :
  run (build_feed directory) w = (r, w') ->
  let out_path := Path.join directory "feed.xml" in
  match r with
  | Raise e =>
      fs w' !! out_path = fs w !! out_path
      /\ exists evs,
           trace w' = trace w ++ evs /\ Forall (fun e => ~ is_feed_write e) evs
  | Ok _ =>
      exists items w2 evs,
        w' = written directory items w2
        /\ fs w2 !! out_path = fs w !! out_path
        /\ trace w' = (trace w ++ evs) ++ [EvWriteFeed out_path]
        /\ Forall (fun e => ~ is_feed_write e) evs
  end.
Proof.
  intros Hrun out_path. destruct r as [[]|e].
  - destruct (build_feed_completed _ _ _ Hrun)
      as (names & infos & w1 & items & w2 & _ & Hproc & Hem & ->).
    assert (Hkeep : keeps out_path w w2).
    { eapply (keeps_trans _ _ (with_event (EvListdir directory) w));
        [apply keeps_event; simpl; auto|].
      eapply keeps_trans; [eapply processed_keeps; [apply filter_is_mp3 | exact Hproc]|].
      eapply emitted_keeps, Hem. }
    destruct Hkeep as [Hfs (evs & Htr & Hevs)].
    exists items, w2, evs. split; [reflexivity|]. split; [exact Hfs|].
    split; [|exact Hevs]. simpl. rewrite Htr. reflexivity.
  - exact (build_feed_raise_keeps _ _ _ _ Hrun).
Qed.

Lemma feed_written_last_witness :
  fs (run (build_feed "music") broken_example).2 !! "music/feed.xml"
  = fs broken_example !! "music/feed.xml"
  /\ exists evs,
       trace (run (build_feed "music") broken_example).2 = trace broken_example ++ evs
       /\ Forall (fun e => ~ is_feed_write e) evs.
Proof.
  apply (feed_written_last "music" broken_example
           (Raise (ID3Error "music/Broken.mp3"))
           (run (build_feed "music") broken_example).2).
  vm_compute. reflexivity.
Defined.

(** ** C2: an audio file without readable tag container *)

Lemma get_episode_info_unreadable mp3_path base_url cover_dir w fl :
  fs w !! mp3_path = Some fl ->
  (forall tags, file_content fl <> Bytes (Some tags)) ->
  exists w',
    run (get_episode_info mp3_path base_url cover_dir) w
    = (Raise (ID3Error (renamed_path mp3_path)), w')
    /\ Forall (fun e => e.1 <> ERROR) (drop (length (log w)) (log w')).
Proof.
  intros Hf Hbad. unfold get_episode_info. rewrite run_bind, run_rename_step.
  unfold renamed_path.
  destruct (String.eqb _ _).
  - rewrite run_bind, (run_open_tags_unreadable _ _ fl Hf Hbad).
    eexists. split; [reflexivity|]. simpl. rewrite drop_all. constructor.
  - rewrite Hf. rewrite run_bind.
    rewrite (run_open_tags_unreadable _ _ fl); [|simpl; apply lookup_insert_eq | exact Hbad].
    eexists. split; [reflexivity|]. simpl.
    rewrite drop_app_length. repeat constructor. discriminate.
Qed.

(** The first loop after a prefix of the names has been processed. *)
Lemma collect_episodes_prefix directory cover_dir w pre infos w1 rest acc :
  processed directory cover_dir w pre infos w1 ->
  run (collect_episodes directory cover_dir (pre ++ rest) acc) w
  = run (collect_episodes directory cover_dir rest (acc ++ map keyed infos)) w1.
Proof.
  intros Hpre. revert acc.
  induction Hpre as [|w wa wb f l info infos Hstep Hl IH]; intros acc.
  - simpl. rewrite app_nil_r. reflexivity.
  - change ((f :: l) ++ rest) with (f :: (l ++ rest)).
    rewrite collect_episodes_cons, Hstep, IH. simpl. rewrite <- app_assoc. reflexivity.
Qed.

(** An exception raised for one audio file ends the run. *)
Lemma build_feed_raises directory w names pre f post infos w1 e w' :
  listing w directory = Some names ->
  filter (fun f => is_mp3 f = true) names = pre ++ f :: post ->
  processed directory (Path.join directory EPISODE_ART_DIR)
    (with_event (EvListdir directory) w) pre infos w1 ->
  run (get_episode_info (Path.join directory f) PODCAST_LINK
         (Path.join directory EPISODE_ART_DIR)) w1 = (Raise e, w') ->
  run (build_feed directory) w = (Raise e, w').
Proof.
  intros Hls Hsplit Hpre Hstep.
  unfold build_feed. rewrite run_bind. unfold listdir. rewrite run_bind.
  simpl. rewrite Hls. simpl.
  rewrite Hsplit, (collect_episodes_prefix _ _ _ _ _ _ _ _ Hpre).
  rewrite collect_episodes_cons, Hstep. reflexivity.
Qed.

(** C2, as the code has it: when the first loop reaches an audio file in
    which mutagen finds no tag container, [get_episode_info] raises
    mutagen's error without logging it, and the error ends the run:
    [build_feed] raises it, no feed document is written and the file at
    [feed.xml] is left as it was, so that no audio file gets an entry; the
    entry point logs the failure at error level and exits with status 1. *)
Theorem unreadable_file_aborts_run directory w names pre f post infos w1 fl :
  let cover_dir := Path.join directory EPISODE_ART_DIR in
  let out_path := Path.join directory "feed.xml" in
  listing w directory = Some names ->
  filter (fun f => is_mp3 f = true) names = pre ++ f :: post ->
  processed directory cover_dir (with_event (EvListdir directory) w) pre infos w1 ->
  fs w1 !! Path.join directory f = Some fl ->
  (forall tags, file_content fl <> Bytes (Some tags)) ->
  exists path w',
    run (build_feed directory) w = (Raise (ID3Error path), w')
    /\ Forall (fun e => e.1 <> ERROR) (drop (length (log w1)) (log w'))
    /\ fs w' !! out_path = fs w !! out_path
    /\ (exists evs, trace w' = trace w ++ evs /\ Forall (fun e => ~ is_feed_write e) evs)
    /\ forall script,
         main [script; directory] w
         = (1, with_log (ERROR, "Failed to build feed: " +:+ path) w').
Proof.
  intros cover_dir out_path Hls Hsplit Hpre Hf Hbad.
  destruct (get_episode_info_unreadable (Path.join directory f) PODCAST_LINK cover_dir
              w1 fl Hf Hbad) as (w' & Hstep & Hlog).
  pose proof (build_feed_raises _ _ _ _ _ _ _ _ _ _ Hls Hsplit Hpre Hstep) as Hrun.
  exists (renamed_path (Path.join directory f)), w'.
  split; [exact Hrun|]. split; [exact Hlog|].
  pose proof (build_feed_raise_keeps directory w _ _ Hrun) as [Hfs Htr].
  split; [exact Hfs|]. split; [exact Htr|].
  intros script. unfold main. rewrite Hrun. reflexivity.
Qed.

Lemma unreadable_file_aborts_run_witness :
  exists path w',
    run (build_feed "music") broken_example = (Raise (ID3Error path), w')
    /\ forall script,
         main [script; "music"] broken_example
         = (1, with_log (ERROR, "Failed to build feed: " +:+ path) w').
Proof.
  destruct (unreadable_file_aborts_run "music" broken_example
              ["Song.mp3"; "Broken.mp3"] ["Song.mp3"] "Broken.mp3" []
              [mk_episode "Song" "Song.mp3" (PODCAST_LINK +:+ "Song.mp3")
                 "Mon, 01 May 2023 00:00:00 " "" None "music/Song.mp3"]
              (run (get_episode_info "music/Song.mp3" PODCAST_LINK "music/covers")
                 (with_event (EvListdir "music") broken_example)).2
              (mk_file 50 (Bytes None)))
    as (path & w' & Hrun & _ & _ & _ & Hmain).
  - reflexivity.
  - vm_compute. reflexivity.
  - econstructor; [|constructor]. vm_compute. reflexivity.
  - vm_compute. reflexivity.
  - intros tags. discriminate.
  - exists path, w'. split; [exact Hrun | exact Hmain].
Defined.

(** C2 as stated fails: with [Song.mp3] readable and [Broken.mp3] without
    tag container, the run ends with mutagen's error: no feed is written,
    [Song.mp3] gets no entry, and the exit status is 1. *)
Lemma unreadable_file_is_fatal :
  (run (build_feed "music") broken_example).1 = Raise (ID3Error "music/Broken.mp3")
  /\ feed_at (run (build_feed "music") broken_example).2 "music/feed.xml" = None
  /\ (main ["generate.py"; "music"] broken_example).1 = 1
  /\ log (main ["generate.py"; "music"] broken_example).2
     = [(WARNING, "No APIC cover found in music/Song.mp3");
        (ERROR, "Failed to build feed: music/Broken.mp3")].
Proof. repeat split; vm_compute; reflexivity. Qed.

(** ** C1: the order of the items *)

(** C1 fails on the code: the items are ordered by the publish date string,
    which begins with the name of the day of the week. In the example of
    the specification, 2023-04-01 is earlier than 2023-05-01, but the string
    for 2023-05-01 (a Monday) is smaller than the string for 2023-04-01 (a
    Saturday): whatever the order of the listing, the feed has the entry of
    [Song.mp3] before the entry of [Other.mp3]. *)
Theorem spec_example_feed_order :
  (exists d_other d_song,
     Datetime.strptime "2023-04-01" = Some d_other
     /\ Datetime.strptime "2023-05-01" = Some d_song
     /\ earlier d_other d_song
     /\ String.ltb (Datetime.strftime d_song) (Datetime.strftime d_other) = true)
  /\ titles_at (run (build_feed "music") (spec_example ["Song.mp3"; "Other.mp3"])).2
       "music/feed.xml"
     = Some [("Song", "Mon, 01 May 2023 00:00:00 "); ("Other", "Sat, 01 Apr 2023 00:00:00 ")]
  /\ titles_at (run (build_feed "music") (spec_example ["Other.mp3"; "Song.mp3"])).2
       "music/feed.xml"
     = Some [("Song", "Mon, 01 May 2023 00:00:00 "); ("Other", "Sat, 01 Apr 2023 00:00:00 ")].
Proof.
  split; [|split].
  - eexists _, _. split; [reflexivity|]. split; [reflexivity|].
    split; [unfold earlier; vm_compute; reflexivity | vm_compute; reflexivity].
  - vm_compute. reflexivity.
  - vm_compute. reflexivity.
Qed.

(** What the sort does: the keys of the result are in non-decreasing order
    of strings. *)
Lemma insert_by_key_sorted {A} (key : A -> string) x l :
  Sorted (fun a b => String.leb (key a) (key b) = true) l ->
  Sorted (fun a b => String.leb (key a) (key b) = true) (insert_by_key key x l).
Proof.
  assert (Hle : forall a b, String.ltb a b = false -> String.leb b a = true).
  { intros a b. unfold String.ltb, String.leb. rewrite (String.compare_antisym b a).
    destruct (String.compare a b); simpl; congruence. }
  assert (Hlt : forall a b, String.ltb a b = true -> String.leb a b = true).
  { intros a b. unfold String.ltb, String.leb.
    destruct (String.compare a b); simpl; congruence. }
  induction l as [|y r IH]; intros Hs; simpl.
  - repeat constructor.
  - destruct (String.ltb (key y) (key x)) eqn:Hyx.
    + inversion Hs as [|? ? Hr Hhd]; subst. constructor; [apply IH, Hr|].
      destruct r as [|z r]; simpl.
      * constructor. apply Hlt, Hyx.
      * destruct (String.ltb (key z) (key x)); constructor.
        -- inversion Hhd; assumption.
        -- apply Hlt, Hyx.
    + constructor; [exact Hs|]. constructor. apply Hle, Hyx.
Qed.

Lemma sort_by_key_sorted {A} (key : A -> string) (l : list A) :
  Sorted (fun a b => String.leb (key a) (key b) = true) (sort_by_key key l).
Proof.
  induction l as [|x r IH]; simpl; [constructor|].
  apply insert_by_key_sorted, IH.
Qed.

(** ** C6: names with a curly apostrophe *)

Lemma clean_head (a : ascii) (t s : string) :
  clean_apostrophes s = String a t -> a <> straight ->
  exists s', s = String a s' /\ clean_apostrophes s' = t.
Proof.
  intros Hc Ha. destruct s as [|c rest]; [discriminate|].
  destruct (Text.startswith curly (String c rest)) eqn:Hs.
  - destruct (startswith_curly_split _ Hs) as [rest' Heq].
    rewrite Heq, clean_curly in Hc. injection Hc as Hc _. congruence.
  - rewrite (clean_other _ _ Hs) in Hc. injection Hc as -> <-.
    exists rest. split; reflexivity.
Qed.

(** A curly apostrophe ahead in the result was ahead in the text. *)
Lemma startswith_curly_clean (c : ascii) (rest : string) :
  Text.startswith curly (String c (clean_apostrophes rest)) = true ->
  Text.startswith curly (String c rest) = true.
Proof.
  intros H. destruct (startswith_curly_split _ H) as [t Ht].
  change (curly +:+ t) with (String "226"%char (String "128"%char (String "153"%char t))) in Ht.
  injection Ht as -> Ht.
  destruct (clean_head _ _ _ Ht) as (s1 & -> & Ht1); [discriminate|].
  destruct (clean_head _ _ _ Ht1) as (s2 & -> & _); [discriminate|].
  reflexivity.
Qed.

(** The result of the replacement has no curly apostrophe. *)
Lemma clean_no_curly (s : string) :
  Text.contains curly (clean_apostrophes s) = false.
Proof.
  induction s as [|rest IH|c rest Hs IH] using clean_ind.
  - reflexivity.
  - rewrite clean_curly. cbn [Text.contains]. rewrite IH. reflexivity.
  - rewrite (clean_other _ _ Hs). cbn [Text.contains]. rewrite IH, orb_false_r.
    destruct (Text.startswith curly (String c (clean_apostrophes rest))) eqn:E;
      [|reflexivity].
    rewrite (startswith_curly_clean _ _ E) in Hs. discriminate.
Qed.

Lemma publish_datetime_frame clean_name date_tag w r w' :
  run (publish_datetime clean_name date_tag) w = (r, w') ->
  trace w' = trace w /\ fs w' = fs w.
Proof.
  rewrite run_publish_datetime. intros H.
  destruct date_tag as [[|c t]|]; [| destruct (Datetime.strptime _) |];
    injection H as <- <-; split; reflexivity.
Qed.

(** The events of [ensure_cover] on an audio file whose tag container
    opens: the reading, the look at the cache, and then only the events of
    an extraction. *)
Lemma ensure_cover_trace w mp3_path cover_dir f tags r w' :
  fs w !! mp3_path = Some f ->
  file_content f = Bytes (Some tags) ->
  run (ensure_cover mp3_path cover_dir) w = (r, w') ->
  let cover_path :=
    Path.join cover_dir (Path.splitext_root (Path.basename mp3_path) +:+ ".jpg") in
  exists evs,
    trace w' = trace w ++ EvOpenTags mp3_path :: EvExists cover_path :: evs
    /\ Forall is_cover_work evs.
Proof.
  intros Hf Hc Hrun cover_path.
  rewrite (run_ensure_cover_opened w mp3_path cover_dir f tags Hf Hc) in Hrun.
  fold cover_path in Hrun.
  destruct (bool_decide _).
  - injection Hrun as <- <-. exists []. simpl. rewrite <- app_assoc.
    split; [reflexivity | constructor].
  - rewrite cover_loop_front_cover in Hrun.
    destruct (front_cover (tag_frames tags)) as [data|].
    + rewrite run_extract_cover in Hrun. simpl in Hrun.
      destruct (ffmpeg w _ _) as [out|stderr|]; [|destruct (Text.utf8_valid stderr)|];
        injection Hrun as <- <-; simpl;
        repeat rewrite <- app_assoc; simpl;
        eexists; (split; [reflexivity|]); repeat constructor.
    + injection Hrun as <- <-. exists []. simpl. rewrite <- app_assoc.
      split; [reflexivity | constructor].
Qed.

(** *** The renamed path *)

Lemma forall_chars_append (P : ascii -> bool) (a b : string) :
  Text.forall_chars P (a +:+ b) = Text.forall_chars P a && Text.forall_chars P b.
Proof.
  induction a as [|x a IH]; [reflexivity|].
  rewrite append_cons. simpl. rewrite IH, andb_assoc. reflexivity.
Qed.

Lemma forall_chars_rev_string (P : ascii -> bool) (s acc : string) :
  Text.forall_chars P (Text.rev_string s acc)
  = Text.forall_chars P s && Text.forall_chars P acc.
Proof.
  revert acc. induction s as [|x s IH]; intros acc; simpl; [reflexivity|].
  rewrite IH. simpl. rewrite !andb_assoc, (andb_comm (Text.forall_chars P s)).
  reflexivity.
Qed.

(** A base name has no slash. *)
Lemma last_component_no_slash (s cur : string) :
  Text.forall_chars Text.not_slash cur = true ->
  Text.forall_chars Text.not_slash (Path.last_component s cur) = true.
Proof.
  revert cur. induction s as [|c s IH]; intros cur Hcur; simpl.
  - unfold Text.reverse. rewrite forall_chars_rev_string, Hcur. reflexivity.
  - destruct (Ascii.eqb c "/") eqn:Hc.
    + apply IH. reflexivity.
    + apply IH. simpl. unfold Text.not_slash at 1. rewrite Hc. exact Hcur.
Qed.

Lemma basename_no_slash (p : string) :
  Text.forall_chars Text.not_slash (Path.basename p) = true.
Proof. apply last_component_no_slash. reflexivity. Qed.

Lemma clean_no_slash (s : string) :
  Text.forall_chars Text.not_slash s = true ->
  Text.forall_chars Text.not_slash (clean_apostrophes s) = true.
Proof.
  induction s as [|rest IH|c rest Hs IH] using clean_ind; intros H.
  - reflexivity.
  - rewrite forall_chars_append in H. apply andb_true_iff in H as [_ H].
    rewrite clean_curly. simpl. apply IH, H.
  - rewrite (clean_other _ _ Hs). simpl in *.
    apply andb_true_iff in H as [Hc H]. rewrite Hc. apply IH, H.
Qed.

Lemma last_component_slash (r cur : string) :
  Path.last_component (r +:+ "/") cur = "".
Proof.
  revert cur. induction r as [|c r IH]; intros cur.
  - reflexivity.
  - rewrite append_cons. simpl. destruct (Ascii.eqb c "/"); apply IH.
Qed.

(** [os.path.basename(os.path.join(d, name)) == name] for a name without
    slash. *)
Lemma basename_join (d name : string) :
  Text.forall_chars Text.not_slash name = true ->
  Path.basename (Path.join d name) = name.
Proof.
  intros Hname. unfold Path.join, Path.basename.
  assert (Hstart : Text.startswith "/" name = false).
  { destruct name as [|c name]; [reflexivity|].
    simpl in Hname. apply andb_true_iff in Hname as [Hc _].
    unfold Text.not_slash in Hc. apply negb_true_iff in Hc.
    cbn [Text.startswith]. rewrite (Ascii.eqb_sym "/"%char c), Hc. reflexivity. }
  rewrite Hstart.
  destruct (String.eqb d "") eqn:Hd.
  - apply String.eqb_eq in Hd. subst d. simpl.
    rewrite append_nil_l, (last_component_plain _ _ Hname). reflexivity.
  - simpl. destruct (Text.endswith "/" d) eqn:Hend.
    + destruct (endswith_split _ _ Hend) as [r ->].
      rewrite (last_component_append _ _ _ Hname), last_component_slash. reflexivity.
    + rewrite <- append_assoc, (last_component_append _ _ _ Hname), last_component_slash.
      reflexivity.
Qed.

(** The renaming moves the file to another path. *)
Lemma renamed_path_differs (mp3_path : string) :
  let filename := Path.basename mp3_path in
  filename <> clean_apostrophes filename ->
  Path.join (Path.dirname mp3_path) (clean_apostrophes filename) <> mp3_path.
Proof.
  intros filename Hne Heq. apply Hne.
  assert (Hb : Path.basename (Path.join (Path.dirname mp3_path) (clean_apostrophes filename))
               = filename) by (rewrite Heq; reflexivity).
  rewrite basename_join in Hb; [symmetry; exact Hb|].
  apply clean_no_slash, basename_no_slash.
Qed.

(** The files of a cover extraction are neither the audio file nor its
    renamed form. *)
Lemma cover_paths_neq_mp3 directory f cover_dir base :
  is_mp3 f = true ->
  let mp3_path := Path.join directory f in
  let new_path := Path.join (Path.dirname mp3_path) (clean_apostrophes (Path.basename mp3_path)) in
  Path.join cover_dir (base +:+ "_tmp") <> mp3_path
  /\ Path.join cover_dir (base +:+ ".jpg") <> mp3_path
  /\ Path.join cover_dir (base +:+ "_tmp") <> new_path
  /\ Path.join cover_dir (base +:+ ".jpg") <> new_path.
Proof.
  intros Hmp3 mp3_path new_path.
  destruct (is_mp3_suffix _ Hmp3) as (q & Hlow & Hq).
  assert (Hlen : String.length "_tmp" = String.length q)
    by (rewrite <- (lower_length q), Hlow; reflexivity).
  assert (Htmp : "_tmp" <> q) by (intros <-; discriminate Hlow).
  assert (Hjpg : ".jpg" <> q) by (intros <-; discriminate Hlow).
  assert (Hascii : Text.forall_chars Text.is_ascii q = true)
    by (apply (lower_forall_chars _ _ lower_char_ascii); rewrite Hlow; reflexivity).
  assert (Hslash : Text.forall_chars Text.not_slash q = true)
    by (apply (lower_forall_chars _ _ lower_char_not_slash); rewrite Hlow; reflexivity).
  assert (Hold : Text.endswith q mp3_path = true) by (apply join_endswith, Hq).
  assert (Hnew : Text.endswith q new_path = true).
  { apply join_endswith, clean_endswith; [exact Hascii|].
    apply basename_endswith; assumption. }
  repeat split;
    (eapply suffix_neq;
     [apply join_endswith, endswith_append_refl | eassumption | exact Hlen | assumption]).
Qed.

(** C6, as the code has it. Take an audio file of the listing whose name
    has a curly apostrophe and which is there when the first loop reaches
    it. Whether [get_episode_info] then returns or raises, the first effect
    of the call is the renaming of the file to the name with straight
    apostrophes, in the same directory; it is the only renaming of the call,
    and every reading of a tag container comes after it and reads the
    renamed path. After the call the file is at the new path and no longer
    at the old one, and the new name has no curly apostrophe. If the call
    returns, the new name is the episode's file name and, percent-encoded
    after the base link, its link; if it raises, the run ends with this
    exception. In a run that completes, the feed has an item whose link and
    enclosure URL are the base link followed by the percent-encoded new
    name. *)
Theorem curly_name_is_renamed directory w names pre f post infos w1 f0 r w2 :
  let cover_dir := Path.join directory EPISODE_ART_DIR in
  let mp3_path := Path.join directory f in
  let filename := Path.basename mp3_path in
  let clean_name := clean_apostrophes filename in
  let new_path := Path.join (Path.dirname mp3_path) clean_name in
  listing w directory = Some names ->
  filter (fun f => is_mp3 f = true) names = pre ++ f :: post ->
  processed directory cover_dir (with_event (EvListdir directory) w) pre infos w1 ->
  Text.contains curly filename = true ->
  fs w1 !! mp3_path = Some f0 ->
  run (get_episode_info mp3_path PODCAST_LINK cover_dir) w1 = (r, w2) ->
  (exists evs,
     trace w2 = trace w1 ++ EvRename mp3_path new_path :: evs
     /\ Forall not_rename evs
     /\ (forall path, In (EvOpenTags path) evs -> path = new_path)
     /\ fs w2 !! new_path = Some f0
     /\ fs w2 !! mp3_path = None)
  /\ Text.contains curly clean_name = false
  /\ match r with
     | Ok info =>
         ep_filename info = clean_name
         /\ ep_file_path info = new_path
         /\ ep_link info = PODCAST_LINK +:+ quote clean_name
     | Raise e => run (build_feed directory) w = (Raise e, w2)
     end
  /\ forall w',
       run (build_feed directory) w = (Ok tt, w') ->
       exists items it,
         feed_at w' (Path.join directory "feed.xml") = Some (rss_of items)
         /\ In it items
         /\ item_link it = PODCAST_LINK +:+ quote clean_name
         /\ enc_url (item_enclosure it) = PODCAST_LINK +:+ quote clean_name.
Proof.
  intros cover_dir mp3_path filename clean_name new_path
         Hls Hsplit Hpre Hcurly Hf0 Hstep.
  assert (Hne : filename <> clean_name).
  { intros Heq. apply (clean_changes _ Hcurly). symmetry. exact Heq. }
  assert (Hpath : renamed_path mp3_path = new_path).
  { unfold renamed_path. fold filename. fold clean_name.
    apply String.eqb_neq in Hne. rewrite Hne. reflexivity. }
  assert (Hmp3 : is_mp3 f = true).
  { pose proof (filter_is_mp3 names) as Hall. rewrite Hsplit in Hall.
    apply Forall_app in Hall as [_ Hall]. inversion Hall; assumption. }
  pose proof (renamed_path_differs mp3_path Hne) as Hmoved. fold new_path in Hmoved.
  split; [|split; [apply clean_no_curly | split]].
  - (* the call, step by step *)
    set (base := Path.splitext_root (Path.basename new_path)).
    destruct (cover_paths_neq_mp3 directory f cover_dir base Hmp3)
      as (Htmp_old & Hjpg_old & Htmp_new & Hjpg_new).
    fold mp3_path in Htmp_old, Hjpg_old, Htmp_new, Hjpg_new.
    fold filename in Htmp_new, Hjpg_new. fold clean_name in Htmp_new, Hjpg_new.
    fold new_path in Htmp_new, Hjpg_new.
    unfold get_episode_info in Hstep. change (easy_get "date") with tag_date in Hstep.
    rewrite run_bind, run_rename_step in Hstep.
    fold filename in Hstep. fold clean_name in Hstep. fold new_path in Hstep.
    rewrite (proj2 (String.eqb_neq _ _) Hne), Hf0 in Hstep.
    set (wr := with_log _ _) in Hstep.
    assert (Hnew : fs wr !! new_path = Some f0) by (simpl; apply lookup_insert_eq).
    assert (Hold : fs wr !! mp3_path = None).
    { simpl. rewrite lookup_insert_ne by exact Hmoved. apply lookup_delete_eq. }
    assert (Htr : trace wr = trace w1 ++ [EvRename mp3_path new_path]) by reflexivity.
    rewrite run_bind in Hstep.
    destruct (file_content f0) as [[tags|]|doc] eqn:Hc.
    2,3: rewrite (run_open_tags_unreadable _ _ f0 Hnew) in Hstep;
         [|intros t; rewrite Hc; discriminate];
         injection Hstep as _ <-;
         exists [EvOpenTags new_path];
         (split; [simpl; rewrite <- app_assoc; reflexivity|]);
         (split; [repeat constructor|]);
         (split; [intros path [Hin|[]]; injection Hin as <-; reflexivity|]);
         split; [exact Hnew | exact Hold].
    rewrite (run_open_tags_ok _ _ f0 tags Hnew Hc) in Hstep.
    rewrite run_bind, (run_open_tags_ok _ _ f0 tags) in Hstep by assumption.
    rewrite run_bind in Hstep.
    destruct (run (publish_datetime _ _) _) as [[dt|e] w3] eqn:Hdate.
    2: { rewrite run_publish_datetime in Hdate.
         destruct (tag_date tags) as [[|c t]|]; [| destruct (Datetime.strptime _) |];
           discriminate. }
    destruct (publish_datetime_frame _ _ _ _ _ Hdate) as [Htr3 Hfs3].
    rewrite run_bind in Hstep.
    destruct (run (ensure_cover new_path cover_dir) w3) as [rc w4] eqn:Hcover.
    assert (Hw : w2 = w4) by (destruct rc; injection Hstep as _ <-; reflexivity).
    subst w4.
    assert (Hnew3 : fs w3 !! new_path = Some f0) by (rewrite Hfs3; exact Hnew).
    destruct (ensure_cover_trace _ _ _ _ _ _ _ Hnew3 Hc Hcover) as (evs & Htr4 & Hevs).
    destruct (preserves_ensure_cover new_path new_path cover_dir Htmp_new Hjpg_new
                _ _ _ Hcover) as [Hkeep_new _].
    destruct (preserves_ensure_cover mp3_path new_path cover_dir Htmp_old Hjpg_old
                _ _ _ Hcover) as [Hkeep_old _].
    eexists. split.
    { rewrite Htr4, Htr3. simpl. repeat rewrite <- app_assoc. reflexivity. }
    split.
    { repeat (constructor; [exact I|]).
      eapply Forall_impl; [exact Hevs|]. intros [] He; simpl in *; auto. }
    split.
    { intros path Hin.
      repeat (destruct Hin as [Hin|Hin]; [try discriminate; injection Hin as <-; reflexivity|]).
      apply list_elem_of_In in Hin.
      apply (proj1 (Forall_forall _ _) Hevs) in Hin. destruct Hin. }
    split.
    + rewrite Hkeep_new, Hfs3. exact Hnew.
    + rewrite Hkeep_old, Hfs3. exact Hold.
  - destruct r as [info|e].
    + destruct (get_episode_info_filename _ _ _ _ _ _ Hstep) as (Hname & Hlink & Hfile).
      fold mp3_path in Hname, Hlink, Hfile. fold filename in Hname, Hlink.
      rewrite Hpath in Hfile. repeat split; assumption.
    + exact (build_feed_raises _ _ _ _ _ _ _ _ _ _ Hls Hsplit Hpre Hstep).
  - intros w' Hrun.
    destruct (episode_item _ _ _ _ _ _ _ _ _ Hls Hsplit Hpre Hrun)
      as (info' & wx & items & it & wa & wb & Hstep' & Hfeed & Hin & Hmake).
    fold cover_dir in Hstep'. fold mp3_path in Hstep'.
    destruct (get_episode_info_filename _ _ _ _ _ _ Hstep') as (Hname & Hlink & _).
    fold mp3_path in Hname, Hlink. fold filename in Hname, Hlink.
    destruct (make_item_fields _ _ _ _ Hmake) as (_ & Hil & _ & _ & _ & Hurl & _).
    exists items, it. split; [exact Hfeed|]. split; [exact Hin|].
    rewrite Hil, Hurl, Hname. split; [exact Hlink | reflexivity].
Qed.

Lemma curly_name_is_renamed_witness :
  (exists evs,
     trace (run (get_episode_info ("music/It" +:+ curly +:+ "s.mp3") PODCAST_LINK
                   "music/covers")
              (with_event (EvListdir "music") curly_example)).2
     = trace (with_event (EvListdir "music") curly_example)
       ++ EvRename ("music/It" +:+ curly +:+ "s.mp3") "music/It's.mp3" :: evs
     /\ Forall not_rename evs)
  /\ exists items it,
       feed_at (run (build_feed "music") curly_example).2 "music/feed.xml"
       = Some (rss_of items)
       /\ In it items
       /\ item_link it = PODCAST_LINK +:+ "It%27s.mp3"
       /\ enc_url (item_enclosure it) = PODCAST_LINK +:+ "It%27s.mp3".
Proof.
  destruct (curly_name_is_renamed "music" curly_example
              ["It" +:+ curly +:+ "s.mp3"] [] ("It" +:+ curly +:+ "s.mp3") [] []
              (with_event (EvListdir "music") curly_example)
              (audio 100 its_tags)
              (run (get_episode_info ("music/It" +:+ curly +:+ "s.mp3") PODCAST_LINK
                      "music/covers")
                 (with_event (EvListdir "music") curly_example)).1
              (run (get_episode_info ("music/It" +:+ curly +:+ "s.mp3") PODCAST_LINK
                      "music/covers")
                 (with_event (EvListdir "music") curly_example)).2)
    as ((evs & Htr & Hren & _) & _ & _ & Hfeed).
  - reflexivity.
  - vm_compute. reflexivity.
  - constructor.
  - vm_compute. reflexivity.
  - vm_compute. reflexivity.
  - vm_compute. reflexivity.
  - split.
    + exists evs. split; [exact Htr | exact Hren].
    + apply (Hfeed (run (build_feed "music") curly_example).2). vm_compute. reflexivity.
Defined.

(** C6 as stated fails: [It’s.mp3] is an audio file of the listing whose
    name has a curly apostrophe, but it holds no tag container. The file is
    renamed on disk; then the reading of the tag container raises and the
    run ends: no feed is written, so that after the run no link or
    enclosure URL has the new name, and the exit status is 1. *)
Lemma renamed_file_without_entry :
  is_mp3 ("It" +:+ curly +:+ "s.mp3") = true
  /\ Text.contains curly ("It" +:+ curly +:+ "s.mp3") = true
  /\ is_Some (fs curly_broken_example !! ("music/It" +:+ curly +:+ "s.mp3"))
  /\ run (build_feed "music") curly_broken_example
     = (Raise (ID3Error "music/It's.mp3"),
        (run (build_feed "music") curly_broken_example).2)
  /\ trace (run (build_feed "music") curly_broken_example).2
     = [EvListdir "music";
        EvRename ("music/It" +:+ curly +:+ "s.mp3") "music/It's.mp3";
        EvOpenTags "music/It's.mp3"]
  /\ fs (run (build_feed "music") curly_broken_example).2 !! "music/It's.mp3"
     = Some (mk_file 50 (Bytes None))
  /\ fs (run (build_feed "music") curly_broken_example).2
       !! ("music/It" +:+ curly +:+ "s.mp3") = None
  /\ feed_at (run (build_feed "music") curly_broken_example).2 "music/feed.xml" = None
  /\ (main ["generate.py"; "music"] curly_broken_example).1 = 1
  /\ feed_at (main ["generate.py"; "music"] curly_broken_example).2 "music/feed.xml" = None.
Proof.
  split; [reflexivity|]. split; [reflexivity|].
  split; [vm_compute; eexists; reflexivity|].
  repeat split; vm_compute; reflexivity.
Qed.

(** The run on a directory with [It’s.mp3]: the renaming comes first, and
    the feed has the straight, percent-encoded name. *)
Example curly_example_run :
  trace (run (build_feed "music") curly_example).2
  = [EvListdir "music";
     EvRename ("music/It" +:+ curly +:+ "s.mp3") "music/It's.mp3";
     EvOpenTags "music/It's.mp3"; EvOpenTags "music/It's.mp3";
     EvOpenTags "music/It's.mp3"; EvExists "music/covers/It's.jpg";
     EvGetsize "music/It's.mp3"; EvWriteFeed "music/feed.xml"]
  /\ (fun doc => map (fun it => (item_link it, enc_url (item_enclosure it)))
                  (channel_items doc))
       <$> feed_at (run (build_feed "music") curly_example).2 "music/feed.xml"
     = Some [(PODCAST_LINK +:+ "It%27s.mp3", PODCAST_LINK +:+ "It%27s.mp3")]
  /\ fs (run (build_feed "music") curly_example).2 !! ("music/It" +:+ curly +:+ "s.mp3") = None
  /\ is_Some (fs (run (build_feed "music") curly_example).2 !! "music/It's.mp3").
Proof.
  split; [|split; [|split]]; vm_compute; try reflexivity.
  eexists. reflexivity.
Qed.

(** * Further properties of the code *)

(** ** [clean_apostrophes] (lines 34-36) *)

(** X1: the result of [clean_apostrophes] has no curly apostrophe, and
    applying the function again changes nothing. *)
Theorem clean_apostrophes_idempotent (text : string) :
  Text.contains curly (clean_apostrophes text) = false
  /\ clean_apostrophes (clean_apostrophes text) = clean_apostrophes text.
Proof.
  split; [apply clean_no_curly|]. apply clean_fixed, clean_no_curly.
Qed.

(** X2: [clean_apostrophes] returns its argument unchanged exactly when the
    argument has no curly apostrophe; so line 90 renames exactly the files
    whose name has one. *)
Theorem clean_apostrophes_unchanged_iff (text : string) :
  clean_apostrophes text = text <-> Text.contains curly text = false.
Proof.
  split.
  - intros Heq. destruct (Text.contains curly text) eqn:Hc; [|reflexivity].
    destruct (clean_changes _ Hc Heq).
  - apply clean_fixed.
Qed.

(** ** The audio files of a directory (line 143) *)

Lemma lower_append (a b : string) :
  Text.lower (a +:+ b) = Text.lower a +:+ Text.lower b.
Proof.
  induction a as [|x a IH]; [reflexivity|].
  rewrite append_cons. simpl. rewrite IH. reflexivity.
Qed.

(** X3: a name is taken as an audio file exactly when it ends with the four
    characters [.mp3], each letter in either case. *)
Theorem is_mp3_iff (f : string) :
  is_mp3 f = true <-> exists stem ext, f = stem +:+ ext /\ Text.lower ext = ".mp3".
Proof.
  split.
  - intros H. destruct (is_mp3_suffix _ H) as (q & Hq & Hend).
    destruct (endswith_split _ _ Hend) as [r ->]. exists r, q. split; [reflexivity | exact Hq].
  - intros (stem & ext & -> & Hext). unfold is_mp3.
    rewrite lower_append, Hext. apply endswith_append_refl.
Qed.

Example is_mp3_examples :
  is_mp3 "Song.mp3" = true /\ is_mp3 "SONG.MP3" = true /\ is_mp3 "Song.Mp3" = true
  /\ is_mp3 "notes.txt" = false /\ is_mp3 "Song.mp3.bak" = false /\ is_mp3 "mp3" = false.
Proof. repeat split; reflexivity. Qed.

(** ** [ensure_cover] (lines 39-83) *)

Lemma temp_path_neq_cover_path cover_dir base :
  Path.join cover_dir (base +:+ "_tmp") <> Path.join cover_dir (base +:+ ".jpg").
Proof.
  eapply (suffix_neq "_tmp" ".jpg");
    [apply join_endswith, endswith_append_refl
    | apply join_endswith, endswith_append_refl | reflexivity | discriminate].
Qed.

Lemma front_cover_none (tags : list frame) :
  Forall (fun tag => is_front_cover tag = false) tags -> front_cover tags = None.
Proof.
  induction 1 as [|[type data|id] rest Htag _ IH]; simpl in *.
  - reflexivity.
  - rewrite Htag. exact IH.
  - exact IH.
Qed.

Lemma front_cover_first (before after : list frame) (data : string) :
  Forall (fun tag => is_front_cover tag = false) before ->
  front_cover (before ++ APIC 3 data :: after) = Some data.
Proof.
  induction 1 as [|[type d|id] rest Htag _ IH]; simpl in *.
  - reflexivity.
  - rewrite Htag. exact IH.
  - exact IH.
Qed.

(** The cache files are not the log file. *)
Lemma cache_paths_neq_log cover_dir base :
  Path.join cover_dir (base +:+ "_tmp") <> LOG_PATH
  /\ Path.join cover_dir (base +:+ ".jpg") <> LOG_PATH.
Proof.
  split.
  - eapply (suffix_neq "_tmp" ".txt");
      [apply join_endswith, endswith_append_refl | reflexivity | reflexivity | discriminate].
  - eapply (suffix_neq ".jpg" ".txt");
      [apply join_endswith, endswith_append_refl | reflexivity | reflexivity | discriminate].
Qed.

Lemma disk_other w w' path :
  path <> LOG_PATH -> fs w' !! path = fs w !! path -> disk w' path = disk w path.
Proof.
  intros Hne Hfs. unfold disk. apply String.eqb_neq in Hne. rewrite Hne, Hfs. reflexivity.
Qed.

Lemma disk_log w : disk w LOG_PATH = Some (LogFile (log w)).
Proof. reflexivity. Qed.

(** A call of [ensure_cover] logs one entry at most. *)
Lemma ensure_cover_log mp3_path cover_dir w r w' :
  run (ensure_cover mp3_path cover_dir) w = (r, w') ->
  exists entries, log w' = log w ++ entries /\ (length entries <= 1)%nat.
Proof.
  intros Hrun.
  assert (Hnone : forall v : world, v = w' -> log v = log w ->
            exists entries, log w' = log w ++ entries /\ (length entries <= 1)%nat).
  { intros v -> Hlog. exists []. rewrite app_nil_r. split; [exact Hlog | simpl; lia]. }
  assert (Hone : forall (v : world) e, v = w' -> log v = log w ++ [e] ->
            exists entries, log w' = log w ++ entries /\ (length entries <= 1)%nat).
  { intros v e -> Hlog. exists [e]. split; [exact Hlog | simpl; lia]. }
  destruct (fs w !! mp3_path) as [f|] eqn:Hf.
  2: { unfold ensure_cover in Hrun. rewrite run_bind in Hrun. simpl in Hrun.
       rewrite Hf in Hrun. injection Hrun as _ Hw. eapply Hnone; [exact Hw | reflexivity]. }
  destruct (file_content f) as [[tags|]|doc] eqn:Hc.
  2,3: unfold ensure_cover in Hrun; rewrite run_bind in Hrun; simpl in Hrun;
       rewrite Hf, Hc in Hrun; injection Hrun as _ Hw;
       eapply Hone; [exact Hw | reflexivity].
  rewrite (run_ensure_cover_opened w mp3_path cover_dir f tags Hf Hc) in Hrun.
  destruct (bool_decide _).
  - injection Hrun as _ Hw. eapply Hnone; [exact Hw | reflexivity].
  - rewrite cover_loop_front_cover in Hrun.
    destruct (front_cover (tag_frames tags)) as [data|].
    + rewrite run_extract_cover in Hrun. simpl in Hrun.
      destruct (ffmpeg w _ _) as [out|stderr|]; [|destruct (Text.utf8_valid stderr)|];
        injection Hrun as _ Hw;
        first [ eapply Hnone; [exact Hw | reflexivity]
              | eapply Hone; [exact Hw | reflexivity] ].
    + injection Hrun as _ Hw. eapply Hone; [exact Hw | reflexivity].
Qed.

(** X4: whatever its outcome, a call of [ensure_cover] changes no file other
    than the temporary file [<base>_tmp] and the cover [<base>.jpg] in the
    cache directory, and the log file, which is neither of the two and to
    which it appends one entry at most. *)
Theorem ensure_cover_touches_only_cache mp3_path cover_dir w r w' :
  run (ensure_cover mp3_path cover_dir) w = (r, w') ->
  let temp_path := temp_path_of mp3_path cover_dir in
  let cover_path := cover_path_of mp3_path cover_dir in
  (forall path,
     path <> temp_path -> path <> cover_path -> path <> LOG_PATH ->
     disk w' path = disk w path)
  /\ temp_path <> LOG_PATH
  /\ cover_path <> LOG_PATH
  /\ exists entries,
       disk w' LOG_PATH = Some (LogFile (log w ++ entries))
       /\ (length entries <= 1)%nat.
Proof.
  intros Hrun temp_path cover_path.
  split; [|split; [apply cache_paths_neq_log | split; [apply cache_paths_neq_log|]]].
  - intros path Htmp Hcover Hlog. apply disk_other; [exact Hlog|].
    apply (preserves_ensure_cover path mp3_path cover_dir) in Hrun.
    + exact (proj1 Hrun).
    + intros Heq. apply Htmp. symmetry. exact Heq.
    + intros Heq. apply Hcover. symmetry. exact Heq.
  - destruct (ensure_cover_log _ _ _ _ _ Hrun) as (entries & Hlog & Hlen).
    exists entries. rewrite disk_log, Hlog. split; [reflexivity | exact Hlen].
Qed.

Lemma ensure_cover_touches_only_cache_witness :
  let w := example_world [("music/Song.mp3", audio 100 cover_tags)] ["Song.mp3"]
             (Exit0 (mk_file 7 (Bytes None))) in
  let w' := (run (ensure_cover "music/Song.mp3" "music/covers") w).2 in
  (forall path,
     path <> temp_path_of "music/Song.mp3" "music/covers" ->
     path <> cover_path_of "music/Song.mp3" "music/covers" ->
     path <> LOG_PATH ->
     disk w' path = disk w path)
  /\ temp_path_of "music/Song.mp3" "music/covers" <> LOG_PATH
  /\ cover_path_of "music/Song.mp3" "music/covers" <> LOG_PATH
  /\ exists entries,
       disk w' LOG_PATH = Some (LogFile (log w ++ entries))
       /\ (length entries <= 1)%nat.
Proof.
  apply (ensure_cover_touches_only_cache "music/Song.mp3" "music/covers"
           (example_world [("music/Song.mp3", audio 100 cover_tags)] ["Song.mp3"]
              (Exit0 (mk_file 7 (Bytes None))))
           (run (ensure_cover "music/Song.mp3" "music/covers")
              (example_world [("music/Song.mp3", audio 100 cover_tags)] ["Song.mp3"]
                 (Exit0 (mk_file 7 (Bytes None))))).1).
  vm_compute. reflexivity.
Defined.

(** A successful extraction, file by file: the audio file is as before, the
    cover is there, and the log file has one entry more. *)
Example ensure_cover_disk_example :
  let w := example_world [("music/Song.mp3", audio 100 cover_tags)] ["Song.mp3"]
             (Exit0 (mk_file 7 (Bytes None))) in
  let w' := (run (ensure_cover "music/Song.mp3" "music/covers") w).2 in
  disk w' "music/Song.mp3" = Some (File (audio 100 cover_tags))
  /\ disk w' "music/covers/Song.jpg" = Some (File (mk_file 7 (Bytes None)))
  /\ disk w' "music/covers/Song_tmp" = None
  /\ disk w LOG_PATH = Some (LogFile [])
  /\ disk w' LOG_PATH
     = Some (LogFile [(INFO, "Extracted and resized cover for music/Song.mp3")]).
Proof. repeat split; vm_compute; reflexivity. Qed.

(** X5: for an audio file whose tag container opens, without cached cover
    and without attached picture of type 3 (pictures of other types do not
    count), [ensure_cover] returns no cover and logs one warning; it writes
    no file, creates no directory and does not run the external command. *)
Theorem ensure_cover_without_front_cover w mp3_path cover_dir f tags :
  fs w !! mp3_path = Some f ->
  file_content f = Bytes (Some tags) ->
  fs w !! cover_path_of mp3_path cover_dir = None ->
  Forall (fun tag => is_front_cover tag = false) (tag_frames tags) ->
  exists w',
    run (ensure_cover mp3_path cover_dir) w = (Ok None, w')
    /\ fs w' = fs w
    /\ trace w' = trace w ++ [EvOpenTags mp3_path;
                              EvExists (cover_path_of mp3_path cover_dir)]
    /\ log w' = log w ++ [(WARNING, "No APIC cover found in " +:+ mp3_path)].
Proof.
  intros Hf Hc Hmiss Hnone.
  rewrite (run_ensure_cover_opened w mp3_path cover_dir f tags Hf Hc).
  fold (cover_name_of mp3_path). fold (cover_path_of mp3_path cover_dir).
  rewrite bool_decide_eq_false_2 by (rewrite Hmiss; intros [x Hx]; discriminate).
  rewrite cover_loop_front_cover, (front_cover_none _ Hnone).
  eexists. split; [reflexivity|]. simpl.
  split; [reflexivity|]. split; [|reflexivity].
  rewrite <- app_assoc. reflexivity.
Qed.

Lemma ensure_cover_without_front_cover_witness :
  exists w',
    run (ensure_cover "music/Song.mp3" "music/covers")
      (example_world
         [("music/Song.mp3", audio 100 (mk_tags None None None [APIC 4 "back"; OtherFrame "TIT2"]))]
         ["Song.mp3"] NotFound) = (Ok None, w')
    /\ fs w' = fs (example_world
         [("music/Song.mp3", audio 100 (mk_tags None None None [APIC 4 "back"; OtherFrame "TIT2"]))]
         ["Song.mp3"] NotFound).
Proof.
  destruct (ensure_cover_without_front_cover
              (example_world
                 [("music/Song.mp3",
                   audio 100 (mk_tags None None None [APIC 4 "back"; OtherFrame "TIT2"]))]
                 ["Song.mp3"] NotFound)
              "music/Song.mp3" "music/covers"
              (audio 100 (mk_tags None None None [APIC 4 "back"; OtherFrame "TIT2"]))
              (mk_tags None None None [APIC 4 "back"; OtherFrame "TIT2"]))
    as (w' & Hrun & Hfs & _).
  - vm_compute. reflexivity.
  - reflexivity.
  - vm_compute. reflexivity.
  - repeat constructor.
  - exists w'. split; [exact Hrun | exact Hfs].
Defined.

(** X6: a successful extraction followed by a second call. For an audio
    file whose tag container opens, without cached cover, whose first
    picture of type 3 is [data], and with the external command exiting with
    status 0: [ensure_cover] returns [<base>.jpg], the cover file holds the
    output of the command, the temporary file is gone and one info entry is
    logged. A second call then returns the same name from the cache: it
    only opens the tag container and checks the cached file; it does not
    run the command and changes no file. *)
Theorem extraction_then_cache_hit w mp3_path cover_dir f tags before data after out :
  let cover_path := cover_path_of mp3_path cover_dir in
  let temp_path := temp_path_of mp3_path cover_dir in
  fs w !! mp3_path = Some f ->
  file_content f = Bytes (Some tags) ->
  mp3_path <> temp_path ->
  mp3_path <> cover_path ->
  fs w !! cover_path = None ->
  tag_frames tags = before ++ APIC 3 data :: after ->
  Forall (fun tag => is_front_cover tag = false) before ->
  ffmpeg w temp_path cover_path = Exit0 out ->
  exists w1 w2,
    run (ensure_cover mp3_path cover_dir) w = (Ok (Some (cover_name_of mp3_path)), w1)
    /\ fs w1 !! cover_path = Some out
    /\ fs w1 !! temp_path = None
    /\ log w1 = log w ++ [(INFO, "Extracted and resized cover for " +:+ mp3_path)]
    /\ run (ensure_cover mp3_path cover_dir) w1 = (Ok (Some (cover_name_of mp3_path)), w2)
    /\ fs w2 = fs w1
    /\ trace w2 = trace w1 ++ [EvOpenTags mp3_path; EvExists cover_path].
Proof.
  intros cover_path temp_path Hf Hc Hne_tmp Hne_cover Hmiss Hframes Hbefore Hcmd.
  assert (Htc : temp_path <> cover_path) by apply temp_path_neq_cover_path.
  assert (Hstep : forall v, fs v !! mp3_path = Some f ->
            run (ensure_cover mp3_path cover_dir) v =
            if bool_decide (is_Some (fs v !! cover_path))
            then (Ok (Some (cover_name_of mp3_path)),
                  with_event (EvExists cover_path) (with_event (EvOpenTags mp3_path) v))
            else run (cover_loop mp3_path cover_dir
                        (Path.splitext_root (Path.basename mp3_path))
                        (cover_name_of mp3_path) cover_path (tag_frames tags))
                   (with_event (EvExists cover_path) (with_event (EvOpenTags mp3_path) v))).
  { intros v Hv. exact (run_ensure_cover_opened v mp3_path cover_dir f tags Hv Hc). }
  rewrite (Hstep w Hf).
  rewrite bool_decide_eq_false_2 by (rewrite Hmiss; intros [x Hx]; discriminate).
  rewrite cover_loop_front_cover, Hframes, (front_cover_first _ _ _ Hbefore).
  rewrite run_extract_cover. fold (temp_path_of mp3_path cover_dir). fold temp_path.
  cbn [ffmpeg with_event]. rewrite Hcmd.
  set (w1 := with_log _ _).
  assert (Hcover1 : fs w1 !! cover_path = Some out).
  { simpl. rewrite lookup_delete_ne by exact Htc. apply lookup_insert_eq. }
  assert (Hf1 : fs w1 !! mp3_path = Some f).
  { simpl. rewrite lookup_delete_ne by (intros Heq; apply Hne_tmp; symmetry; exact Heq).
    rewrite lookup_insert_ne by (intros Heq; apply Hne_cover; symmetry; exact Heq).
    rewrite lookup_insert_ne by (intros Heq; apply Hne_tmp; symmetry; exact Heq).
    exact Hf. }
  eexists w1, _. split; [reflexivity|].
  split; [exact Hcover1|].
  split; [simpl; apply lookup_delete_eq|].
  split; [reflexivity|].
  rewrite (Hstep w1 Hf1).
  rewrite bool_decide_eq_true_2 by (rewrite Hcover1; eexists; reflexivity).
  split; [reflexivity|]. split; [reflexivity|].
  cbn [trace with_event]. rewrite <- app_assoc. reflexivity.
Qed.

Lemma extraction_then_cache_hit_witness :
  exists w1 w2,
    run (ensure_cover "music/Song.mp3" "music/covers")
      (example_world [("music/Song.mp3", audio 100 cover_tags)] ["Song.mp3"]
         (Exit0 (mk_file 7 (Bytes None))))
    = (Ok (Some "Song.jpg"), w1)
    /\ run (ensure_cover "music/Song.mp3" "music/covers") w1 = (Ok (Some "Song.jpg"), w2)
    /\ fs w2 = fs w1.
Proof.
  destruct (extraction_then_cache_hit
              (example_world [("music/Song.mp3", audio 100 cover_tags)] ["Song.mp3"]
                 (Exit0 (mk_file 7 (Bytes None))))
              "music/Song.mp3" "music/covers" (audio 100 cover_tags) cover_tags
              [OtherFrame "TIT2"] "JFIF" [] (mk_file 7 (Bytes None)))
    as (w1 & w2 & Hfirst & _ & _ & _ & Hsecond & Hfs & _).
  - vm_compute. reflexivity.
  - reflexivity.
  - vm_compute. discriminate.
  - vm_compute. discriminate.
  - vm_compute. reflexivity.
  - reflexivity.
  - repeat constructor.
  - reflexivity.
  - exists w1, w2. split; [exact Hfirst|]. split; [exact Hsecond | exact Hfs].
Defined.

(** X7: whenever [ensure_cover] returns a cover name, the name is
    [<base>.jpg] for the base name of the audio file, and a file of this
    name is in the cache directory when the call returns. *)
Theorem returned_cover_exists mp3_path cover_dir w cover w' :
  run (ensure_cover mp3_path cover_dir) w = (Ok (Some cover), w') ->
  cover = cover_name_of mp3_path
  /\ is_Some (fs w' !! Path.join cover_dir cover).
Proof.
  intros Hrun.
  destruct (fs w !! mp3_path) as [f|] eqn:Hf.
  2: { unfold ensure_cover in Hrun. rewrite run_bind in Hrun. simpl in Hrun.
       rewrite Hf in Hrun. discriminate. }
  destruct (file_content f) as [[tags|]|doc] eqn:Hc.
  2,3: unfold ensure_cover in Hrun; rewrite run_bind in Hrun; simpl in Hrun;
       rewrite Hf, Hc in Hrun; discriminate.
  rewrite (run_ensure_cover_opened w mp3_path cover_dir f tags Hf Hc) in Hrun.
  fold (cover_name_of mp3_path) in Hrun. fold (cover_path_of mp3_path cover_dir) in Hrun.
  destruct (bool_decide (is_Some (fs w !! cover_path_of mp3_path cover_dir))) eqn:Hhit.
  - injection Hrun as <- <-. split; [reflexivity|].
    apply bool_decide_eq_true_1 in Hhit. exact Hhit.
  - rewrite cover_loop_front_cover in Hrun.
    destruct (front_cover (tag_frames tags)) as [data|]; [|discriminate].
    rewrite run_extract_cover in Hrun. simpl in Hrun.
    destruct (ffmpeg w _ _) as [out|stderr|]; [|destruct (Text.utf8_valid stderr)|];
      try discriminate.
    injection Hrun as <- <-. split; [reflexivity|]. simpl.
    rewrite lookup_delete_ne by apply temp_path_neq_cover_path.
    rewrite lookup_insert_eq. eexists. reflexivity.
Qed.

Lemma returned_cover_exists_witness :
  "Song.jpg" = cover_name_of "music/Song.mp3"
  /\ is_Some (fs (run (ensure_cover "music/Song.mp3" "music/covers")
                    (example_world [("music/Song.mp3", audio 100 cover_tags)] ["Song.mp3"]
                       (Exit0 (mk_file 7 (Bytes None))))).2
              !! Path.join "music/covers" "Song.jpg").
Proof.
  apply (returned_cover_exists "music/Song.mp3" "music/covers"
           (example_world [("music/Song.mp3", audio 100 cover_tags)] ["Song.mp3"]
              (Exit0 (mk_file 7 (Bytes None))))).
  vm_compute. reflexivity.
Defined.

(** ** [get_episode_info] (lines 86-126) *)

(** The tag container a successful call has read is the one of the file
    found at the path given, before any renaming. *)
Lemma get_episode_info_source mp3_path base_url cover_dir w info w' :
  run (get_episode_info mp3_path base_url cover_dir) w = (Ok info, w') ->
  let clean_name := clean_apostrophes (Path.basename mp3_path) in
  let path1 := renamed_path mp3_path in
  exists w1 f tags pub_dt w2 cover,
    fs w !! mp3_path = Some f
    /\ file_content f = Bytes (Some tags)
    /\ fs w1 !! path1 = Some f
    /\ ticks w1 = ticks w
    /\ run (publish_datetime clean_name (tag_date tags)) (opened path1 w1) = (Ok pub_dt, w2)
    /\ run (ensure_cover path1 cover_dir) w2 = (Ok cover, w')
    /\ info = episode_of clean_name base_url tags pub_dt cover path1.
Proof.
  intros Hrun clean_name path1.
  destruct (get_episode_info_ok _ _ _ _ _ _ Hrun)
    as (w1 & f & tags & dt & w2 & cover & Hren & Hf & Hc & Hdate & Hcover & Hinfo).
  fold clean_name in Hren, Hdate, Hinfo. fold path1 in Hren, Hf, Hdate, Hcover, Hinfo.
  exists w1, f, tags, dt, w2, cover.
  destruct Hren as [[Heq ->] | (Hne & f0 & Hf0 & ->)].
  - assert (Hp : path1 = mp3_path).
    { unfold path1, renamed_path. rewrite Heq at 1. rewrite String.eqb_refl. reflexivity. }
    rewrite Hp in Hf. repeat split; try assumption. rewrite Hp. exact Hf.
  - simpl in Hf. rewrite lookup_insert_eq in Hf. injection Hf as <-.
    repeat split; try assumption. simpl. apply lookup_insert_eq.
Qed.

(** X8: the title of an episode is the title tag, or, when the file has no
    title tag, its cleaned name without the extension; in both cases with
    straight apostrophes only. The description is the empty string, whatever
    comment the file carries: [EasyID3] registers no key [comment], so the
    [get] of line 115 always gives its default. *)
Theorem episode_title_and_description mp3_path base_url cover_dir w info w' :
  run (get_episode_info mp3_path base_url cover_dir) w = (Ok info, w') ->
  exists f tags,
    fs w !! mp3_path = Some f
    /\ file_content f = Bytes (Some tags)
    /\ ep_title info
       = clean_apostrophes
           match tag_title tags with
           | Some title => title
           | None => Path.splitext_root (clean_apostrophes (Path.basename mp3_path))
           end
    /\ Text.contains curly (ep_title info) = false
    /\ ep_description info = "".
Proof.
  intros Hrun.
  destruct (get_episode_info_source _ _ _ _ _ _ Hrun)
    as (w1 & f & tags & dt & w2 & cover & Hf & Hc & _ & _ & _ & _ & ->).
  exists f, tags. split; [exact Hf|]. split; [exact Hc|].
  unfold episode_of. cbn [ep_title ep_description].
  change (easy_get "title" tags) with (tag_title tags).
  split; [destruct (tag_title tags); reflexivity|].
  split; [apply clean_no_curly | reflexivity].
Qed.

Lemma episode_title_and_description_witness :
  exists f tags,
    fs quoted_example !! "music/Track.mp3" = Some f
    /\ file_content f = Bytes (Some tags)
    /\ tag_comment tags = Some ("it" +:+ curly +:+ "s live")
    /\ "Don't" = clean_apostrophes
                   match tag_title tags with
                   | Some title => title
                   | None => Path.splitext_root (clean_apostrophes (Path.basename "music/Track.mp3"))
                   end
    /\ ep_description
         (mk_episode "Don't" "Track.mp3" (PODCAST_LINK +:+ "Track.mp3")
            "Tue, 04 Jul 2023 00:00:00 " "" None "music/Track.mp3") = "".
Proof.
  destruct (episode_title_and_description "music/Track.mp3" PODCAST_LINK "music/covers"
              quoted_example
              (mk_episode "Don't" "Track.mp3" (PODCAST_LINK +:+ "Track.mp3")
                 "Tue, 04 Jul 2023 00:00:00 " "" None "music/Track.mp3")
              (run (get_episode_info "music/Track.mp3" PODCAST_LINK "music/covers")
                 quoted_example).2)
    as (f & tags & Hf & Hc & Htitle & _ & Hdesc).
  - vm_compute. reflexivity.
  - exists f, tags. split; [exact Hf|]. split; [exact Hc|].
    assert (Htags : tags = quoted_tags).
    { vm_compute in Hf. injection Hf as <-. injection Hc as <-. reflexivity. }
    split; [rewrite Htags; reflexivity|]. split; [exact Htitle | exact Hdesc].
Defined.

(** The run on [Track.mp3], whose comment frame holds text: the item of the
    feed has an empty description. *)
Example comment_is_not_read :
  tag_comment quoted_tags = Some ("it" +:+ curly +:+ "s live")
  /\ (fun doc => map item_description (channel_items doc))
       <$> feed_at (run (build_feed "music") quoted_example).2 "music/feed.xml"
     = Some [""].
Proof. split; [reflexivity | vm_compute; reflexivity]. Qed.

(** X9: a call for a path at which there is no file fails before anything
    is read or logged. If the name has no curly apostrophe, the failure is
    mutagen's, from the first opening of the tag container; if it has one,
    the failure is the [OSError] of [os.rename], and no tag container is
    opened. The file system is left as it was. *)
Theorem missing_file_fails_first mp3_path base_url cover_dir w :
  let filename := Path.basename mp3_path in
  let clean_name := clean_apostrophes filename in
  let new_path := Path.join (Path.dirname mp3_path) clean_name in
  fs w !! mp3_path = None ->
  exists w',
    run (get_episode_info mp3_path base_url cover_dir) w
    = (Raise (if Text.contains curly filename then OSError mp3_path
              else MutagenError mp3_path), w')
    /\ trace w' = trace w ++ [if Text.contains curly filename
                              then EvRename mp3_path new_path
                              else EvOpenTags mp3_path]
    /\ fs w' = fs w
    /\ log w' = log w.
Proof.
  intros filename clean_name new_path Hmiss.
  unfold get_episode_info. rewrite run_bind, run_rename_step.
  fold filename. fold clean_name. fold new_path.
  destruct (Text.contains curly filename) eqn:Hcurly.
  - assert (Hne : String.eqb filename clean_name = false).
    { apply String.eqb_neq. intros Heq. apply (clean_changes _ Hcurly). symmetry. exact Heq. }
    rewrite Hne, Hmiss. eexists. split; [reflexivity|]. repeat split.
  - assert (Heq : String.eqb filename clean_name = true).
    { apply String.eqb_eq. symmetry. apply clean_fixed, Hcurly. }
    rewrite Heq, run_bind, (run_open_tags_missing _ _ Hmiss).
    eexists. split; [reflexivity|]. repeat split.
Qed.

Lemma missing_file_fails_first_witness :
  exists w',
    run (get_episode_info "music/Gone.mp3" PODCAST_LINK "music/covers") (spec_example [])
    = (Raise (MutagenError "music/Gone.mp3"), w')
    /\ fs w' = fs (spec_example []).
Proof.
  destruct (missing_file_fails_first "music/Gone.mp3" PODCAST_LINK "music/covers"
              (spec_example []))
    as (w' & Hrun & _ & Hfs & _).
  - vm_compute. reflexivity.
  - exists w'. split; [exact Hrun | exact Hfs].
Defined.

Lemma ensure_cover_ticks w mp3_path cover_dir f tags r w' :
  fs w !! mp3_path = Some f ->
  file_content f = Bytes (Some tags) ->
  run (ensure_cover mp3_path cover_dir) w = (r, w') ->
  ticks w' = ticks w.
Proof.
  intros Hf Hc Hrun.
  rewrite (run_ensure_cover_opened w mp3_path cover_dir f tags Hf Hc) in Hrun.
  destruct (bool_decide _).
  - injection Hrun as <- <-. reflexivity.
  - rewrite cover_loop_front_cover in Hrun.
    destruct (front_cover (tag_frames tags)) as [data|].
    + rewrite run_extract_cover in Hrun. simpl in Hrun.
      destruct (ffmpeg w _ _) as [out|stderr|]; [|destruct (Text.utf8_valid stderr)|];
        injection Hrun as <- <-; reflexivity.
    + injection Hrun as <- <-. reflexivity.
Qed.

(** X10: for a file whose name has no curly apostrophe, [get_episode_info]
    renames nothing, whatever its outcome: no event of the call is a
    renaming. When it returns, the episode keeps the path and the name
    given. *)
Theorem clean_name_is_not_renamed mp3_path base_url cover_dir w r w' :
  Text.contains curly (Path.basename mp3_path) = false ->
  run (get_episode_info mp3_path base_url cover_dir) w = (r, w') ->
  (exists evs, trace w' = trace w ++ evs /\ Forall not_rename evs)
  /\ match r with
     | Ok info =>
         ep_file_path info = mp3_path /\ ep_filename info = Path.basename mp3_path
     | Raise _ => True
     end.
Proof.
  intros Hcurly Hrun.
  pose proof (clean_fixed _ Hcurly) as Hclean.
  assert (Hpath : renamed_path mp3_path = mp3_path).
  { unfold renamed_path. rewrite Hclean, String.eqb_refl. reflexivity. }
  split.
  - unfold get_episode_info in Hrun. change (easy_get "date") with tag_date in Hrun.
    rewrite run_bind, run_rename_step in Hrun.
    rewrite Hclean, String.eqb_refl in Hrun. rewrite run_bind in Hrun.
    destruct (fs w !! mp3_path) as [f|] eqn:Hf.
    2: { rewrite (run_open_tags_missing _ _ Hf) in Hrun. injection Hrun as <- <-.
         exists [EvOpenTags mp3_path]. split; [reflexivity|]. repeat constructor. }
    destruct (file_content f) as [[tags|]|doc] eqn:Hc.
    2,3: rewrite (run_open_tags_unreadable _ _ f Hf) in Hrun;
         [|intros t; rewrite Hc; discriminate];
         injection Hrun as <- <-;
         exists [EvOpenTags mp3_path]; split; [reflexivity|]; repeat constructor.
    rewrite (run_open_tags_ok _ _ f tags Hf Hc) in Hrun.
    rewrite run_bind, (run_open_tags_ok _ _ f tags) in Hrun by assumption.
    rewrite run_bind in Hrun.
    destruct (run (publish_datetime _ _) _) as [[dt|e] w2] eqn:Hdate.
    2: { rewrite run_publish_datetime in Hdate.
         destruct (tag_date tags) as [[|c t]|]; [| destruct (Datetime.strptime _) |];
           discriminate. }
    destruct (publish_datetime_frame _ _ _ _ _ Hdate) as [Htr2 Hfs2].
    rewrite run_bind in Hrun.
    destruct (run (ensure_cover mp3_path cover_dir) w2) as [rc w3] eqn:Hcover.
    assert (Hf2 : fs w2 !! mp3_path = Some f) by (rewrite Hfs2; exact Hf).
    destruct (ensure_cover_trace _ _ _ _ _ _ _ Hf2 Hc Hcover) as (evs & Htr & Hevs).
    assert (Hw : w' = w3) by (destruct rc; injection Hrun as _ <-; reflexivity).
    subst w'. rewrite Htr, Htr2. simpl.
    eexists. split; [repeat rewrite <- app_assoc; reflexivity|].
    repeat (constructor; [exact I|]).
    eapply Forall_impl; [exact Hevs|]. intros [] He; simpl in *; auto.
  - destruct r as [info|e]; [|exact I].
    destruct (get_episode_info_filename _ _ _ _ _ _ Hrun) as (Hname & _ & Hfile).
    rewrite Hfile, Hname, Hpath, Hclean. split; reflexivity.
Qed.

Lemma clean_name_is_not_renamed_witness :
  ep_file_path (mk_episode "Song" "Song.mp3" (PODCAST_LINK +:+ "Song.mp3")
                  "Mon, 01 May 2023 00:00:00 " "" None "music/Song.mp3")
  = "music/Song.mp3".
Proof.
  destruct (clean_name_is_not_renamed "music/Song.mp3" PODCAST_LINK "music/covers"
              (spec_example ["Song.mp3"; "Other.mp3"])
              (Ok (mk_episode "Song" "Song.mp3" (PODCAST_LINK +:+ "Song.mp3")
                     "Mon, 01 May 2023 00:00:00 " "" None "music/Song.mp3"))
              (run (get_episode_info "music/Song.mp3" PODCAST_LINK "music/covers")
                 (spec_example ["Song.mp3"; "Other.mp3"])).2)
    as (_ & Hpath & _).
  - vm_compute. reflexivity.
  - vm_compute. reflexivity.
  - exact Hpath.
Defined.

Lemma strptime_midnight text dt :
  Datetime.strptime text = Some dt ->
  Datetime.hour dt = 0 /\ Datetime.minute dt = 0 /\ Datetime.second dt = 0.
Proof.
  unfold Datetime.strptime, Datetime.make. intros H.
  repeat match type of H with
         | match ?x with _ => _ end = _ => destruct x; try discriminate
         | (let (_, _) := ?x in _) = _ => destruct x
         end.
  injection H as <-. repeat split.
Qed.

(** X11: when the date tag is taken by [strptime], the publish date of the
    episode is the format applied to that date at midnight, and the wall
    clock is not read during the call: the publish date depends on the tag
    alone. *)
Theorem tagged_date_is_used mp3_path base_url cover_dir w f tags text dt info w' :
  fs w !! mp3_path = Some f ->
  file_content f = Bytes (Some tags) ->
  tag_date tags = Some text ->
  Datetime.strptime text = Some dt ->
  run (get_episode_info mp3_path base_url cover_dir) w = (Ok info, w') ->
  ep_pubDate info = Datetime.strftime dt
  /\ Datetime.hour dt = 0 /\ Datetime.minute dt = 0 /\ Datetime.second dt = 0
  /\ ticks w' = ticks w.
Proof.
  intros Hf Hc Htag Hparse Hrun.
  destruct (get_episode_info_source _ _ _ _ _ _ Hrun)
    as (w1 & f' & tags' & dt' & w2 & cover & Hf' & Hc' & Hf1 & Hticks & Hdate & Hcover & ->).
  rewrite Hf in Hf'. injection Hf' as <-. rewrite Hc in Hc'. injection Hc' as <-.
  rewrite run_publish_datetime, Htag in Hdate.
  destruct text as [|c t]; [discriminate Hparse|]. rewrite Hparse in Hdate.
  injection Hdate as <- <-.
  split; [reflexivity|].
  destruct (strptime_midnight _ _ Hparse) as (Hh & Hm & Hs).
  repeat (split; [assumption|]).
  rewrite (ensure_cover_ticks (opened (renamed_path mp3_path) w1) _ _ f tags _ _
             Hf1 Hc Hcover).
  exact Hticks.
Qed.

Lemma tagged_date_is_used_witness :
  ep_pubDate (mk_episode "Song" "Song.mp3" (PODCAST_LINK +:+ "Song.mp3")
                "Mon, 01 May 2023 00:00:00 " "" None "music/Song.mp3")
  = Datetime.strftime (Datetime.mk_datetime 2023 5 1 0 0 0 None).
Proof.
  apply (tagged_date_is_used "music/Song.mp3" PODCAST_LINK "music/covers"
           (spec_example ["Song.mp3"; "Other.mp3"]) (audio 100 song_tags) song_tags
           "2023-05-01" (Datetime.mk_datetime 2023 5 1 0 0 0 None)
           (mk_episode "Song" "Song.mp3" (PODCAST_LINK +:+ "Song.mp3")
              "Mon, 01 May 2023 00:00:00 " "" None "music/Song.mp3")
           (run (get_episode_info "music/Song.mp3" PODCAST_LINK "music/covers")
              (spec_example ["Song.mp3"; "Other.mp3"])).2).
  - vm_compute. reflexivity.
  - reflexivity.
  - reflexivity.
  - vm_compute. reflexivity.
  - vm_compute. reflexivity.
Defined.

(** ** [build_feed] (lines 129-184) *)

(** The list sorted on line 151 holds the episodes sorted on their publish
    date string. *)
Lemma insert_by_key_keyed (x : episode) (l : list episode) :
  insert_by_key fst (keyed x) (map keyed l) = map keyed (insert_by_key ep_pubDate x l).
Proof.
  induction l as [|y r IH]; [reflexivity|]. simpl.
  destruct (String.ltb (ep_pubDate y) (ep_pubDate x)); [|reflexivity].
  simpl. f_equal. exact IH.
Qed.

Lemma sort_by_key_keyed (l : list episode) :
  map snd (sort_by_key fst (map keyed l)) = sort_by_key ep_pubDate l.
Proof.
  assert (H : sort_by_key fst (map keyed l) = map keyed (sort_by_key ep_pubDate l)).
  { induction l as [|x r IH]; [reflexivity|]. simpl.
    change (foldr (insert_by_key fst) [] (map keyed r))
      with (sort_by_key fst (map keyed r)).
    rewrite IH. apply insert_by_key_keyed. }
  rewrite H, map_map. simpl. apply map_id.
Qed.

(** The run once the first loop has processed every audio file: the second
    loop and the writing of the document cannot fail. *)
Lemma build_feed_after_first_loop directory w names infos w1 :
  listing w directory = Some names ->
  processed directory (Path.join directory EPISODE_ART_DIR)
    (with_event (EvListdir directory) w) (mp3s_of names) infos w1 ->
  exists items w2,
    emitted w1 (sort_by_key ep_pubDate infos) items w2
    /\ run (build_feed directory) w = (Ok tt, written directory items w2).
Proof.
  intros Hls Hproc.
  destruct (emit_items_outcome (sort_by_key fst (map keyed infos)) [] w1)
    as (items & w2 & Hemit & Hem).
  rewrite sort_by_key_keyed in Hem.
  exists items, w2. split; [exact Hem|].
  unfold build_feed. rewrite run_bind. unfold listdir. rewrite run_bind.
  simpl. rewrite Hls. simpl.
  pose proof (collect_episodes_prefix _ _ _ _ _ _ [] [] Hproc) as Hcollect.
  rewrite app_nil_r in Hcollect. unfold mp3s_of in Hcollect.
  rewrite Hcollect. simpl. rewrite Hemit. reflexivity.
Qed.

(** X12: once every listed audio file has given its episode, nothing can
    fail any more: the items are made from the episodes sorted on their
    publish date string, the document is written, [build_feed] returns and
    the exit status is 0. *)
Theorem first_loop_decides directory w names infos w1 :
  listing w directory = Some names ->
  processed directory (Path.join directory EPISODE_ART_DIR)
    (with_event (EvListdir directory) w) (mp3s_of names) infos w1 ->
  exists items w2,
    emitted w1 (sort_by_key ep_pubDate infos) items w2
    /\ run (build_feed directory) w = (Ok tt, written directory items w2)
    /\ feed_at (written directory items w2) (Path.join directory "feed.xml")
       = Some (rss_of items)
    /\ forall script, main [script; directory] w = (0, written directory items w2).
Proof.
  intros Hls Hproc.
  destruct (build_feed_after_first_loop _ _ _ _ _ Hls Hproc) as (items & w2 & Hem & Hrun).
  exists items, w2. split; [exact Hem|]. split; [exact Hrun|].
  split; [apply feed_at_written|].
  intros script. unfold main. rewrite Hrun. reflexivity.
Qed.

Lemma first_loop_decides_witness :
  exists items w2,
    run (build_feed "music") undated_example = (Ok tt, written "music" items w2)
    /\ forall script, main [script; "music"] undated_example = (0, written "music" items w2).
Proof.
  destruct (first_loop_decides "music" undated_example ["Demo.mp3"]
              [mk_episode "Demo" "Demo.mp3" (PODCAST_LINK +:+ "Demo.mp3")
                 "Mon, 15 Jan 2024 12:00:00 " "" None "music/Demo.mp3"]
              (run (get_episode_info "music/Demo.mp3" PODCAST_LINK "music/covers")
                 (with_event (EvListdir "music") undated_example)).2)
    as (items & w2 & _ & Hrun & _ & Hmain).
  - reflexivity.
  - econstructor; [|constructor]. vm_compute. reflexivity.
  - exists items, w2. split; [exact Hrun | exact Hmain].
Defined.

Lemma mp3s_of_none (names : list string) :
  Forall (fun f => is_mp3 f = false) names -> mp3s_of names = [].
Proof.
  unfold mp3s_of. induction 1 as [|f rest Hf _ IH]; [reflexivity|].
  rewrite filter_cons. destruct (decide (is_mp3 f = true)) as [Ht|_]; [congruence | exact IH].
Qed.

(** X13: for a directory without audio file (empty, or with other files
    only), [build_feed] opens no file and writes a feed without items, and
    the exit status is 0. *)
Theorem no_audio_gives_empty_feed directory w names :
  listing w directory = Some names ->
  Forall (fun f => is_mp3 f = false) names ->
  let w' := written directory [] (with_event (EvListdir directory) w) in
  run (build_feed directory) w = (Ok tt, w')
  /\ feed_at w' (Path.join directory "feed.xml") = Some (rss_of [])
  /\ trace w' = trace w ++ [EvListdir directory; EvWriteFeed (Path.join directory "feed.xml")]
  /\ forall script, main [script; directory] w = (0, w').
Proof.
  intros Hls Hnone w'.
  assert (Hproc : processed directory (Path.join directory EPISODE_ART_DIR)
                    (with_event (EvListdir directory) w) (mp3s_of names) []
                    (with_event (EvListdir directory) w)).
  { rewrite (mp3s_of_none _ Hnone). constructor. }
  destruct (build_feed_after_first_loop _ _ _ _ _ Hls Hproc) as (items & w2 & Hem & Hrun).
  inversion Hem; subst.
  split; [exact Hrun|]. split; [apply feed_at_written|].
  split; [unfold w'; simpl; rewrite <- app_assoc; reflexivity|].
  intros script. unfold main. rewrite Hrun. reflexivity.
Qed.

Lemma no_audio_gives_empty_feed_witness :
  feed_at (written "music" []
             (with_event (EvListdir "music")
                (example_world [("music/notes.txt", mk_file 3 (Bytes None))]
                   ["notes.txt"] NotFound)))
    (Path.join "music" "feed.xml") = Some (rss_of []).
Proof.
  apply (no_audio_gives_empty_feed "music"
           (example_world [("music/notes.txt", mk_file 3 (Bytes None))]
              ["notes.txt"] NotFound) ["notes.txt"]).
  - reflexivity.
  - repeat constructor.
Defined.

Lemma emitted_items w infos items w' :
  emitted w infos items w' ->
  Forall2 (fun info it => exists wa wb, run (make_item info) wa = (Ok it, wb)) infos items.
Proof.
  induction 1 as [|w w1 w2 info rest it items Hstep Hrest IH]; constructor.
  - exists w, w1. exact Hstep.
  - exact IH.
Qed.

Lemma emitted_links w infos items w' :
  emitted w infos items w' ->
  map item_link items = map ep_link infos
  /\ map item_pubDate items = map ep_pubDate infos.
Proof.
  induction 1 as [|w w1 w2 info rest it items Hstep Hrest [IHl IHd]]; [split; reflexivity|].
  destruct (make_item_fields _ _ _ _ Hstep) as (_ & Hlink & Hdate & _).
  simpl. rewrite IHl, IHd, Hlink, Hdate. split; reflexivity.
Qed.

(** A run that completes, with the episodes in listing order. *)
Lemma build_feed_completed_sorted directory w w' :
  run (build_feed directory) w = (Ok tt, w') ->
  exists names infos w1 items w2,
    listing w directory = Some names
    /\ processed directory (Path.join directory EPISODE_ART_DIR)
         (with_event (EvListdir directory) w) (mp3s_of names) infos w1
    /\ emitted w1 (sort_by_key ep_pubDate infos) items w2
    /\ w' = written directory items w2.
Proof.
  intros Hrun.
  destruct (build_feed_completed _ _ _ Hrun)
    as (names & infos & w1 & items & w2 & Hls & Hproc & Hem & ->).
  rewrite sort_by_key_keyed in Hem.
  exists names, infos, w1, items, w2. auto.
Qed.

(** X14: the feed of a run that completes has one item for each listed
    audio file and no other: the links of its items are, up to their order,
    the base link followed by the percent-encoded clean names of the audio
    files of the listing. *)
Theorem one_item_per_audio_file directory w w' :
  run (build_feed directory) w = (Ok tt, w') ->
  exists names items,
    listing w directory = Some names
    /\ feed_at w' (Path.join directory "feed.xml") = Some (rss_of items)
    /\ length items = length (mp3s_of names)
    /\ Permutation (map item_link items) (map (feed_url directory) (mp3s_of names)).
Proof.
  intros Hrun.
  destruct (build_feed_completed_sorted _ _ _ Hrun)
    as (names & infos & w1 & items & w2 & Hls & Hproc & Hem & ->).
  destruct (processed_names _ _ _ _ _ _ Hproc) as [_ Hlinks].
  destruct (emitted_links _ _ _ _ Hem) as [Hitems _].
  assert (Hperm : Permutation (map item_link items) (map (feed_url directory) (mp3s_of names))).
  { rewrite Hitems, <- Hlinks. apply Permutation_map, sort_by_key_perm. }
  exists names, items. split; [exact Hls|]. split; [apply feed_at_written|].
  split; [|exact Hperm].
  apply Permutation_length in Hperm. rewrite !length_map in Hperm. exact Hperm.
Qed.

Lemma one_item_per_audio_file_witness :
  exists names items,
    listing (spec_example ["Song.mp3"; "notes.txt"; "Other.mp3"]) "music" = Some names
    /\ feed_at (run (build_feed "music")
                  (spec_example ["Song.mp3"; "notes.txt"; "Other.mp3"])).2
         (Path.join "music" "feed.xml") = Some (rss_of items)
    /\ length items = length (mp3s_of names).
Proof.
  destruct (one_item_per_audio_file "music"
              (spec_example ["Song.mp3"; "notes.txt"; "Other.mp3"])
              (run (build_feed "music")
                 (spec_example ["Song.mp3"; "notes.txt"; "Other.mp3"])).2)
    as (names & items & Hls & Hfeed & Hlen & _).
  - vm_compute. reflexivity.
  - exists names, items. split; [exact Hls|]. split; [exact Hfeed | exact Hlen].
Defined.

Lemma Sorted_map_inv {A B} (R : B -> B -> Prop) (g : A -> B) (l : list A) :
  Sorted R (map g l) -> Sorted (fun a b => R (g a) (g b)) l.
Proof.
  induction l as [|x r IH]; intros H; [constructor|].
  inversion H as [|? ? Hr Hhd]; subst. constructor; [apply IH, Hr|].
  destruct r as [|y r]; constructor. inversion Hhd; assumption.
Qed.

Lemma Sorted_map {A B} (R : B -> B -> Prop) (g : A -> B) (l : list A) :
  Sorted (fun a b => R (g a) (g b)) l -> Sorted R (map g l).
Proof.
  induction l as [|x r IH]; intros H; [constructor|].
  inversion H as [|? ? Hr Hhd]; subst. simpl. constructor; [apply IH, Hr|].
  destruct r as [|y r]; constructor. inversion Hhd; assumption.
Qed.

(** X15: in the feed of a run that completes, the items are in
    non-decreasing order of their publish date strings, compared as
    strings. *)
Theorem feed_sorted_by_pubDate_string directory w w' :
  run (build_feed directory) w = (Ok tt, w') ->
  exists items,
    feed_at w' (Path.join directory "feed.xml") = Some (rss_of items)
    /\ Sorted (fun a b => String.leb (item_pubDate a) (item_pubDate b) = true) items.
Proof.
  intros Hrun.
  destruct (build_feed_completed_sorted _ _ _ Hrun)
    as (names & infos & w1 & items & w2 & Hls & Hproc & Hem & ->).
  exists items. split; [apply feed_at_written|].
  destruct (emitted_links _ _ _ _ Hem) as [_ Hdates].
  apply (Sorted_map_inv (fun a b => String.leb a b = true) item_pubDate).
  rewrite Hdates. apply Sorted_map. apply sort_by_key_sorted.
Qed.

Lemma feed_sorted_by_pubDate_string_witness :
  exists items,
    feed_at (run (build_feed "music") (spec_example ["Other.mp3"; "Song.mp3"])).2
      (Path.join "music" "feed.xml") = Some (rss_of items)
    /\ Sorted (fun a b => String.leb (item_pubDate a) (item_pubDate b) = true) items.
Proof.
  apply (feed_sorted_by_pubDate_string "music" (spec_example ["Other.mp3"; "Song.mp3"])).
  vm_compute. reflexivity.
Defined.

Lemma ltb_irrefl (s : string) : String.ltb s s = false.
Proof.
  unfold String.ltb. pose proof (String.compare_antisym s s) as H.
  destruct (String.compare s s); try reflexivity. discriminate H.
Qed.

Lemma insert_by_key_filter {A} (key : A -> string) (k : string) (x : A) (l : list A) :
  filter (fun y => key y = k) (insert_by_key key x l)
  = if decide (key x = k) then x :: filter (fun y => key y = k) l
    else filter (fun y => key y = k) l.
Proof.
  induction l as [|y r IH]; simpl.
  - rewrite filter_cons. destruct (decide (key x = k)); reflexivity.
  - destruct (String.ltb (key y) (key x)) eqn:Hlt.
    + rewrite !(filter_cons _ y), IH.
      destruct (decide (key x = k)) as [Hx|Hx], (decide (key y = k)) as [Hy|Hy];
        try reflexivity.
      rewrite Hx, Hy, ltb_irrefl in Hlt. discriminate.
    + rewrite (filter_cons _ x). destruct (decide (key x = k)); reflexivity.
Qed.

(** The sort is stable: the elements with a given key keep their order. *)
Lemma sort_by_key_stable {A} (key : A -> string) (k : string) (l : list A) :
  filter (fun y => key y = k) (sort_by_key key l) = filter (fun y => key y = k) l.
Proof.
  induction l as [|x r IH]; [reflexivity|]. simpl.
  change (foldr (insert_by_key key) [] r) with (sort_by_key key r).
  rewrite insert_by_key_filter, IH, filter_cons. reflexivity.
Qed.

Lemma emitted_filter w infos items w' (d : string) :
  emitted w infos items w' ->
  map item_link (filter (fun it => item_pubDate it = d) items)
  = map ep_link (filter (fun info => ep_pubDate info = d) infos).
Proof.
  induction 1 as [|w w1 w2 info rest it items Hstep Hrest IH]; [reflexivity|].
  destruct (make_item_fields _ _ _ _ Hstep) as (_ & Hlink & Hdate & _).
  rewrite !filter_cons, Hdate.
  destruct (decide (ep_pubDate info = d)); simpl; rewrite ?Hlink, IH; reflexivity.
Qed.

(** X16: the order of the feed is stable: in a run that completes, the
    items that have the same publish date string appear in the order in
    which their audio files were listed. *)
Theorem feed_order_is_stable directory w w' :
  run (build_feed directory) w = (Ok tt, w') ->
  exists names infos w1 items,
    listing w directory = Some names
    /\ processed directory (Path.join directory EPISODE_ART_DIR)
         (with_event (EvListdir directory) w) (mp3s_of names) infos w1
    /\ map ep_link infos = map (feed_url directory) (mp3s_of names)
    /\ feed_at w' (Path.join directory "feed.xml") = Some (rss_of items)
    /\ forall d,
         map item_link (filter (fun it => item_pubDate it = d) items)
         = map ep_link (filter (fun info => ep_pubDate info = d) infos).
Proof.
  intros Hrun.
  destruct (build_feed_completed_sorted _ _ _ Hrun)
    as (names & infos & w1 & items & w2 & Hls & Hproc & Hem & ->).
  exists names, infos, w1, items. split; [exact Hls|]. split; [exact Hproc|].
  split; [exact (proj2 (processed_names _ _ _ _ _ _ Hproc))|].
  split; [apply feed_at_written|].
  intros d. rewrite (emitted_filter _ _ _ _ d Hem), sort_by_key_stable. reflexivity.
Qed.

Lemma feed_order_is_stable_witness :
  exists names infos w1 items,
    listing (same_day_example ["B.mp3"; "A.mp3"]) "music" = Some names
    /\ processed "music" (Path.join "music" EPISODE_ART_DIR)
         (with_event (EvListdir "music") (same_day_example ["B.mp3"; "A.mp3"]))
         (mp3s_of names) infos w1
    /\ feed_at (run (build_feed "music") (same_day_example ["B.mp3"; "A.mp3"])).2
         (Path.join "music" "feed.xml") = Some (rss_of items).
Proof.
  destruct (feed_order_is_stable "music" (same_day_example ["B.mp3"; "A.mp3"])
              (run (build_feed "music") (same_day_example ["B.mp3"; "A.mp3"])).2)
    as (names & infos & w1 & items & Hls & Hproc & _ & Hfeed & _).
  - vm_compute. reflexivity.
  - exists names, infos, w1, items. split; [exact Hls|]. split; [exact Hproc | exact Hfeed].
Defined.

(** The files [B.mp3] and [A.mp3] have the same date: the feed keeps the
    order of the listing. *)
Example same_day_order :
  titles_at (run (build_feed "music") (same_day_example ["B.mp3"; "A.mp3"])).2
    "music/feed.xml"
  = Some [("B", "Mon, 01 May 2023 00:00:00 "); ("A", "Mon, 01 May 2023 00:00:00 ")]
  /\ titles_at (run (build_feed "music") (same_day_example ["A.mp3"; "B.mp3"])).2
       "music/feed.xml"
     = Some [("A", "Mon, 01 May 2023 00:00:00 "); ("B", "Mon, 01 May 2023 00:00:00 ")].
Proof. split; vm_compute; reflexivity. Qed.

(** *** The files a run leaves alone *)

Lemma mp3_paths_neq_suffix directory f path ext :
  is_mp3 f = true ->
  Text.endswith ext path = true ->
  String.length ext = 4%nat ->
  Text.lower ext <> ".mp3" ->
  let mp3_path := Path.join directory f in
  mp3_path <> path
  /\ Path.join (Path.dirname mp3_path) (clean_apostrophes (Path.basename mp3_path)) <> path.
Proof.
  intros Hmp3 Hext Hlen Hlow mp3_path.
  destruct (is_mp3_suffix _ Hmp3) as (q & Hq & Hend).
  assert (Hqlen : String.length q = String.length ext)
    by (rewrite <- (lower_length q), Hq, Hlen; reflexivity).
  assert (Hne : q <> ext) by (intros ->; contradiction).
  assert (Hascii : Text.forall_chars Text.is_ascii q = true)
    by (apply (lower_forall_chars _ _ lower_char_ascii); rewrite Hq; reflexivity).
  assert (Hslash : Text.forall_chars Text.not_slash q = true)
    by (apply (lower_forall_chars _ _ lower_char_not_slash); rewrite Hq; reflexivity).
  assert (Hpath : Text.endswith q mp3_path = true) by (apply join_endswith, Hend).
  split.
  - eapply suffix_neq; [exact Hpath | exact Hext | exact Hqlen | exact Hne].
  - eapply suffix_neq; [| exact Hext | exact Hqlen | exact Hne].
    apply join_endswith, clean_endswith; [exact Hascii|].
    apply basename_endswith; assumption.
Qed.

Lemma cache_paths_neq_suffix cover_dir base path ext :
  Text.endswith ext path = true ->
  String.length ext = 4%nat ->
  ext <> "_tmp" -> ext <> ".jpg" ->
  Path.join cover_dir (base +:+ "_tmp") <> path
  /\ Path.join cover_dir (base +:+ ".jpg") <> path.
Proof.
  intros Hext Hlen Htmp Hjpg. split.
  - eapply (suffix_neq "_tmp" ext);
      [apply join_endswith, endswith_append_refl | exact Hext | symmetry; exact Hlen|].
    intros Heq. apply Htmp. symmetry. exact Heq.
  - eapply (suffix_neq ".jpg" ext);
      [apply join_endswith, endswith_append_refl | exact Hext | symmetry; exact Hlen|].
    intros Heq. apply Hjpg. symmetry. exact Heq.
Qed.

Lemma get_episode_info_keeps_at directory f path ext w r w' :
  is_mp3 f = true ->
  Text.endswith ext path = true ->
  String.length ext = 4%nat ->
  Text.lower ext <> ".mp3" -> ext <> "_tmp" -> ext <> ".jpg" ->
  run (get_episode_info (Path.join directory f) PODCAST_LINK
         (Path.join directory EPISODE_ART_DIR)) w = (r, w') ->
  keeps path w w'.
Proof.
  intros Hmp3 Hext Hlen Hlow Htmp Hjpg.
  destruct (mp3_paths_neq_suffix directory f path ext Hmp3 Hext Hlen Hlow) as [Hsrc Hdst].
  apply preserves_get_episode_info; try assumption.
  - intros base. exact (proj1 (cache_paths_neq_suffix _ base _ _ Hext Hlen Htmp Hjpg)).
  - intros base. exact (proj2 (cache_paths_neq_suffix _ base _ _ Hext Hlen Htmp Hjpg)).
Qed.

Lemma processed_keeps_at directory path ext w mp3s infos w' :
  Text.endswith ext path = true ->
  String.length ext = 4%nat ->
  Text.lower ext <> ".mp3" -> ext <> "_tmp" -> ext <> ".jpg" ->
  Forall (fun f => is_mp3 f = true) mp3s ->
  processed directory (Path.join directory EPISODE_ART_DIR) w mp3s infos w' ->
  keeps path w w'.
Proof.
  intros Hext Hlen Hlow Htmp Hjpg Hall Hproc.
  induction Hproc as [|w w1 w2 f rest info infos Hstep Hrest IH].
  - apply keeps_refl.
  - inversion Hall as [|? ? Hf Hrest']; subst.
    eapply keeps_trans; [|apply IH, Hrest'].
    eapply get_episode_info_keeps_at; eassumption.
Qed.

(** The files of [fs] a run leaves alone. *)
Lemma build_feed_keeps_at directory w r w' path ext :
  run (build_feed directory) w = (r, w') ->
  Text.endswith ext path = true ->
  String.length ext = 4%nat ->
  Text.lower ext <> ".mp3" -> ext <> "_tmp" -> ext <> ".jpg" -> ext <> ".xml" ->
  fs w' !! path = fs w !! path.
Proof.
  intros Hrun Hext Hlen Hlow Htmp Hjpg Hxml.
  assert (Hlist : keeps path w (with_event (EvListdir directory) w))
    by (apply keeps_event; simpl; auto).
  destruct (build_feed_outcome directory w)
    as [[_ H] | [(names & pre & f & post & infos & w1 & e & wx & _ & Hsplit & Hpre & Hf & H)
                | (names & infos & w1 & items & w2 & _ & Hproc & Hem & H)]];
    rewrite H in Hrun; injection Hrun as <- <-.
  - reflexivity.
  - pose proof (filter_is_mp3 names) as Hall. rewrite Hsplit in Hall.
    apply Forall_app in Hall as [Hall_pre Hall_f].
    inversion Hall_f as [|? ? Hmp3 _]; subst.
    assert (Hkeep : keeps path w wx).
    { eapply keeps_trans; [exact Hlist|].
      eapply keeps_trans;
        [eapply (processed_keeps_at directory path ext _ pre); eassumption|].
      eapply get_episode_info_keeps_at; eassumption. }
    exact (proj1 Hkeep).
  - assert (Hkeep : keeps path w w2).
    { eapply keeps_trans; [exact Hlist|].
      eapply keeps_trans;
        [eapply (processed_keeps_at directory path ext); try eassumption;
         apply filter_is_mp3|].
      eapply emitted_keeps, Hem. }
    unfold written. simpl. rewrite lookup_insert_ne; [exact (proj1 Hkeep)|].
    eapply (suffix_neq ".xml" ext);
      [apply feed_path_suffix | exact Hext | symmetry; exact Hlen|].
    intros Heq. apply Hxml. symmetry. exact Heq.
Qed.

(** X17: a run of [build_feed], whatever its outcome, leaves alone every
    file whose path ends with four characters other than [.mp3] (in any
    letter case), [.jpg], [_tmp] and [.xml], the log file apart: the other
    files of the directory are neither written, renamed nor removed. To the
    log file, whose path ends with [.txt], the run only appends entries. *)
Theorem build_feed_spares_other_files directory w r w' :
  run (build_feed directory) w = (r, w') ->
  (forall path ext,
     Text.endswith ext path = true ->
     String.length ext = 4%nat ->
     Text.lower ext <> ".mp3" -> ext <> "_tmp" -> ext <> ".jpg" -> ext <> ".xml" ->
     path <> LOG_PATH ->
     disk w' path = disk w path)
  /\ Text.endswith ".txt" LOG_PATH = true
  /\ exists entries, disk w' LOG_PATH = Some (LogFile (log w ++ entries)).
Proof.
  intros Hrun. split; [|split; [reflexivity|]].
  - intros path ext Hext Hlen Hlow Htmp Hjpg Hxml Hlog.
    apply disk_other; [exact Hlog|].
    exact (build_feed_keeps_at _ _ _ _ _ _ Hrun Hext Hlen Hlow Htmp Hjpg Hxml).
  - destruct (appending_build_feed _ _ _ _ Hrun) as [entries Hentries].
    exists entries. rewrite disk_log, Hentries. reflexivity.
Qed.

Lemma build_feed_spares_other_files_witness :
  let w := example_world [("music/Song.mp3", audio 100 cover_tags);
                          ("music/notes.txt", mk_file 3 (Bytes None))]
             ["Song.mp3"; "notes.txt"] (Exit0 (mk_file 7 (Bytes None))) in
  let w' := (run (build_feed "music") w).2 in
  (forall path ext,
     Text.endswith ext path = true ->
     String.length ext = 4%nat ->
     Text.lower ext <> ".mp3" -> ext <> "_tmp" -> ext <> ".jpg" -> ext <> ".xml" ->
     path <> LOG_PATH ->
     disk w' path = disk w path)
  /\ Text.endswith ".txt" LOG_PATH = true
  /\ exists entries, disk w' LOG_PATH = Some (LogFile (log w ++ entries)).
Proof.
  apply (build_feed_spares_other_files "music"
           (example_world [("music/Song.mp3", audio 100 cover_tags);
                           ("music/notes.txt", mk_file 3 (Bytes None))]
              ["Song.mp3"; "notes.txt"] (Exit0 (mk_file 7 (Bytes None))))
           (run (build_feed "music")
              (example_world [("music/Song.mp3", audio 100 cover_tags);
                              ("music/notes.txt", mk_file 3 (Bytes None))]
                 ["Song.mp3"; "notes.txt"] (Exit0 (mk_file 7 (Bytes None))))).1).
  vm_compute. reflexivity.
Defined.

(** The run on a directory with [notes.txt]: the notes are as before, and
    the log file has the two entries of the run. *)
Example build_feed_disk_example :
  let w := example_world [("music/Song.mp3", audio 100 cover_tags);
                          ("music/notes.txt", mk_file 3 (Bytes None))]
             ["Song.mp3"; "notes.txt"] (Exit0 (mk_file 7 (Bytes None))) in
  let w' := (run (build_feed "music") w).2 in
  disk w' "music/notes.txt" = Some (File (mk_file 3 (Bytes None)))
  /\ disk w' LOG_PATH
     = Some (LogFile [(INFO, "Extracted and resized cover for music/Song.mp3");
                      (INFO, "Wrote feed to music/feed.xml")]).
Proof. split; vm_compute; reflexivity. Qed.

(** *** The fields of an item *)

(** X18: in the feed of a run that completes, the link of every item is its
    enclosure URL and its identifier, the author is the fixed one, and the
    item is the one of a listed audio file: its link is the base link
    followed by the percent-encoded clean name of that file. *)
Theorem item_link_is_enclosure_url directory w w' :
  run (build_feed directory) w = (Ok tt, w') ->
  exists names items,
    listing w directory = Some names
    /\ feed_at w' (Path.join directory "feed.xml") = Some (rss_of items)
    /\ forall it, In it items ->
       item_link it = enc_url (item_enclosure it)
       /\ item_guid it = item_link it
       /\ item_author it = "Nash Spence"
       /\ exists f, In f (mp3s_of names) /\ item_link it = feed_url directory f.
Proof.
  intros Hrun.
  destruct (build_feed_completed _ _ _ Hrun)
    as (names & infos & w1 & items & w2 & Hls & Hproc & Hem & ->).
  exists names, items. split; [exact Hls|]. split; [apply feed_at_written|].
  intros it Hit.
  destruct (emitted_item _ _ _ _ _ Hem Hit) as (info & wa & wb & Hinfo & Hmake).
  apply (proj1 (sorted_episodes_in _ _)) in Hinfo.
  destruct (processed_info _ _ _ _ _ _ _ Hproc Hinfo) as (f & wx & wy & Hf & Hstep).
  destruct (get_episode_info_filename _ _ _ _ _ _ Hstep) as (Hname & Hlink & _).
  destruct (make_item_fields _ _ _ _ Hmake) as (_ & Hil & _ & _ & Hguid & Hurl & _).
  assert (Hfeed : item_link it = feed_url directory f).
  { rewrite Hil, Hlink. reflexivity. }
  split; [rewrite Hurl, Hname; exact Hfeed|].
  split; [rewrite Hguid, Hname; symmetry; exact Hfeed|].
  split.
  - rewrite run_make_item in Hmake.
    destruct (fs wa !! ep_file_path info); injection Hmake as <- _; reflexivity.
  - exists f. split; [exact Hf | exact Hfeed].
Qed.

Lemma item_link_is_enclosure_url_witness :
  exists names items,
    listing (spec_example ["Song.mp3"; "Other.mp3"]) "music" = Some names
    /\ feed_at (run (build_feed "music") (spec_example ["Song.mp3"; "Other.mp3"])).2
         (Path.join "music" "feed.xml") = Some (rss_of items).
Proof.
  destruct (item_link_is_enclosure_url "music" (spec_example ["Song.mp3"; "Other.mp3"])
              (run (build_feed "music") (spec_example ["Song.mp3"; "Other.mp3"])).2)
    as (names & items & Hls & Hfeed & _).
  - vm_compute. reflexivity.
  - exists names, items. split; [exact Hls | exact Hfeed].
Defined.

Lemma ensure_cover_name mp3_path cover_dir w cover w' :
  run (ensure_cover mp3_path cover_dir) w = (Ok (Some cover), w') ->
  cover = cover_name_of mp3_path.
Proof.
  intros Hrun. unfold ensure_cover in Hrun. rewrite run_bind in Hrun.
  destruct (run (try_except _ _) w) as [[[tags|]|e] w1]; try discriminate.
  rewrite run_bind in Hrun.
  destruct (run (path_exists _) w1) as [[[|]|e] w2]; try discriminate.
  - injection Hrun as <- _. reflexivity.
  - rewrite cover_loop_front_cover in Hrun.
    destruct (front_cover (tag_frames tags)) as [data|]; [|discriminate].
    rewrite run_extract_cover in Hrun. simpl in Hrun.
    destruct (ffmpeg w2 _ _) as [out|stderr|]; [|destruct (Text.utf8_valid stderr)|];
      try discriminate.
    injection Hrun as <- _. reflexivity.
Qed.

(** [os.path.basename] of the path read after lines 88-94 is the clean
    name. *)
Lemma basename_renamed_path (mp3_path : string) :
  Path.basename (renamed_path mp3_path) = clean_apostrophes (Path.basename mp3_path).
Proof.
  unfold renamed_path.
  destruct (String.eqb _ _) eqn:Heq.
  - apply String.eqb_eq in Heq. exact Heq.
  - apply basename_join, clean_no_slash, basename_no_slash.
Qed.

(** The cover of an episode, when it has one, is named after its file. *)
Lemma get_episode_info_cover mp3_path base_url cover_dir w info w' :
  run (get_episode_info mp3_path base_url cover_dir) w = (Ok info, w') ->
  ep_cover info = None
  \/ ep_cover info = Some (Path.splitext_root (ep_filename info) +:+ ".jpg").
Proof.
  intros Hrun.
  destruct (get_episode_info_source _ _ _ _ _ _ Hrun)
    as (v1 & fl & tags & dt & v2 & cover & _ & _ & _ & _ & _ & Hcover & ->).
  simpl. destruct cover as [cover|]; [right | left; reflexivity].
  rewrite (ensure_cover_name _ _ _ _ _ Hcover). unfold cover_name_of.
  rewrite basename_renamed_path. reflexivity.
Qed.

Lemma processed_covers directory cover_dir w mp3s infos w' :
  processed directory cover_dir w mp3s infos w' ->
  Forall (fun info =>
            ep_cover info = None
            \/ ep_cover info = Some (Path.splitext_root (ep_filename info) +:+ ".jpg"))
    infos.
Proof.
  induction 1 as [|w w1 w2 f rest info infos Hstep Hrest IH]; constructor.
  - exact (get_episode_info_cover _ _ _ _ _ _ Hstep).
  - exact IH.
Qed.

Lemma emitted_images w infos items w' :
  Forall (fun info =>
            ep_cover info = None
            \/ ep_cover info = Some (Path.splitext_root (ep_filename info) +:+ ".jpg"))
    infos ->
  emitted w infos items w' ->
  Forall2 (fun info it =>
             item_link it = ep_link info
             /\ item_image it
                = match ep_cover info with
                  | Some _ =>
                      Some (PODCAST_LINK +:+ "covers/"
                            +:+ Path.splitext_root (ep_filename info) +:+ ".jpg")
                  | None => None
                  end)
    infos items.
Proof.
  intros Hall Hem. induction Hem as [|w w1 w2 info rest it items Hstep Hrest IH].
  - constructor.
  - inversion Hall as [|? ? Hinfo Hall']; subst.
    constructor; [|exact (IH Hall')].
    destruct (make_item_fields _ _ _ _ Hstep) as (_ & Hlink & _).
    split; [exact Hlink|].
    rewrite run_make_item in Hstep.
    assert (Himg : item_image it
                   = match ep_cover info with
                     | Some (String c r as cover) =>
                         Some (PODCAST_LINK +:+ EPISODE_ART_DIR +:+ "/" +:+ cover)
                     | _ => None
                     end)
      by (destruct (fs w !! ep_file_path info); injection Hstep as <- _; reflexivity).
    rewrite Himg. destruct Hinfo as [-> | ->]; [reflexivity|].
    destruct (Path.splitext_root (ep_filename info)); reflexivity.
Qed.

(** X19: in a run that completes, the item made for an episode of the first
    loop has an image element exactly when the episode has a cover, the
    value [ensure_cover] returned for its file on line 116; the image URL is
    then the base link followed by [covers/], the clean name of the audio
    file without its extension, and [.jpg], without percent-encoding. The
    items are in the order of the sort, the episodes those of the listed
    audio files. *)
Theorem item_image_url directory w w' :
  run (build_feed directory) w = (Ok tt, w') ->
  exists names infos w1 items,
    listing w directory = Some names
    /\ processed directory (Path.join directory EPISODE_ART_DIR)
         (with_event (EvListdir directory) w) (mp3s_of names) infos w1
    /\ map ep_filename infos = map (feed_name directory) (mp3s_of names)
    /\ map ep_link infos = map (feed_url directory) (mp3s_of names)
    /\ feed_at w' (Path.join directory "feed.xml") = Some (rss_of items)
    /\ Forall2 (fun info it =>
                 item_link it = ep_link info
                 /\ item_image it
                    = match ep_cover info with
                      | Some _ =>
                          Some (PODCAST_LINK +:+ "covers/"
                                +:+ Path.splitext_root (ep_filename info) +:+ ".jpg")
                      | None => None
                      end)
         (sort_by_key ep_pubDate infos) items.
Proof.
  intros Hrun.
  destruct (build_feed_completed_sorted _ _ _ Hrun)
    as (names & infos & w1 & items & w2 & Hls & Hproc & Hem & ->).
  destruct (processed_names _ _ _ _ _ _ Hproc) as [Hnames Hlinks].
  exists names, infos, w1, items.
  split; [exact Hls|]. split; [exact Hproc|]. split; [exact Hnames|].
  split; [exact Hlinks|]. split; [apply feed_at_written|].
  apply (emitted_images w1 _ _ w2); [|exact Hem].
  pose proof (processed_covers _ _ _ _ _ _ Hproc) as Hall.
  apply Forall_forall. intros info Hin.
  apply (proj1 (Forall_forall _ _) Hall).
  apply list_elem_of_In. apply list_elem_of_In in Hin.
  eapply Permutation_in; [apply sort_by_key_perm | exact Hin].
Qed.

Lemma item_image_url_witness :
  exists names infos w1 items,
    listing (example_world [("music/My Song.mp3", audio 100 cover_tags)] ["My Song.mp3"]
               (Exit0 (mk_file 7 (Bytes None)))) "music" = Some names
    /\ processed "music" (Path.join "music" EPISODE_ART_DIR)
         (with_event (EvListdir "music")
            (example_world [("music/My Song.mp3", audio 100 cover_tags)] ["My Song.mp3"]
               (Exit0 (mk_file 7 (Bytes None)))))
         (mp3s_of names) infos w1
    /\ map ep_filename infos = map (feed_name "music") (mp3s_of names)
    /\ map ep_link infos = map (feed_url "music") (mp3s_of names)
    /\ feed_at (run (build_feed "music")
                  (example_world [("music/My Song.mp3", audio 100 cover_tags)]
                     ["My Song.mp3"] (Exit0 (mk_file 7 (Bytes None))))).2
         (Path.join "music" "feed.xml") = Some (rss_of items)
    /\ Forall2 (fun info it =>
                 item_link it = ep_link info
                 /\ item_image it
                    = match ep_cover info with
                      | Some _ =>
                          Some (PODCAST_LINK +:+ "covers/"
                                +:+ Path.splitext_root (ep_filename info) +:+ ".jpg")
                      | None => None
                      end)
         (sort_by_key ep_pubDate infos) items.
Proof.
  apply (item_image_url "music"
           (example_world [("music/My Song.mp3", audio 100 cover_tags)] ["My Song.mp3"]
              (Exit0 (mk_file 7 (Bytes None))))
           (run (build_feed "music")
              (example_world [("music/My Song.mp3", audio 100 cover_tags)]
                 ["My Song.mp3"] (Exit0 (mk_file 7 (Bytes None))))).2).
  vm_compute. reflexivity.
Defined.

(** The item of [My Song.mp3]: the enclosure URL is percent-encoded, the
    image URL is not. *)
Example image_url_example :
  (fun doc => map (fun it => (enc_url (item_enclosure it), item_image it))
                (channel_items doc))
    <$> feed_at (run (build_feed "music")
                   (example_world [("music/My Song.mp3", audio 100 cover_tags)]
                      ["My Song.mp3"] (Exit0 (mk_file 7 (Bytes None))))).2
          "music/feed.xml"
  = Some [(PODCAST_LINK +:+ "My%20Song.mp3", Some (PODCAST_LINK +:+ "covers/My Song.jpg"))].
Proof. vm_compute. reflexivity. Qed.

(** *** The URLs *)

Lemma always_safe_plain (c : ascii) :
  always_safe c = true -> Text.is_ascii c = true /\ Text.not_slash c = true.
Proof. destruct c as [[] [] [] [] [] [] [] []]; vm_compute; intros H; split; congruence. Qed.

Lemma quote_byte_safe (c : ascii) (k : string) :
  always_safe c = true -> quote_byte c k = String c k.
Proof. intros H. unfold quote_byte. rewrite H. reflexivity. Qed.

Lemma quote_unreserved (s : string) :
  Text.forall_chars always_safe s = true -> quote s = s.
Proof.
  induction s as [|c s IH]; intros H; [reflexivity|].
  simpl in H. apply andb_true_iff in H as [Hc Hs].
  simpl. rewrite (quote_byte_safe _ _ Hc), (IH Hs). reflexivity.
Qed.

Lemma forall_chars_impl (P Q : ascii -> bool) (s : string) :
  (forall c, P c = true -> Q c = true) ->
  Text.forall_chars P s = true -> Text.forall_chars Q s = true.
Proof.
  intros HPQ. induction s as [|c s IH]; intros H; [reflexivity|].
  simpl in *. apply andb_true_iff in H as [Hc Hs].
  rewrite (HPQ _ Hc), (IH Hs). reflexivity.
Qed.

(** X21: for a listed name made of letters, digits and the characters
    [_ . - ~] only, nothing is renamed or escaped: the episode has the name
    as its file name, the path given as its path, and the base link followed
    by the name itself as its link. *)
Theorem plain_name_is_kept directory f base_url cover_dir w info w' :
  Text.forall_chars always_safe f = true ->
  run (get_episode_info (Path.join directory f) base_url cover_dir) w = (Ok info, w') ->
  ep_filename info = f
  /\ ep_file_path info = Path.join directory f
  /\ ep_link info = base_url +:+ f.
Proof.
  intros Hsafe Hrun.
  assert (Hascii : Text.forall_chars Text.is_ascii f = true)
    by (eapply forall_chars_impl; [|exact Hsafe]; intros c Hc; apply always_safe_plain, Hc).
  assert (Hslash : Text.forall_chars Text.not_slash f = true)
    by (eapply forall_chars_impl; [|exact Hsafe]; intros c Hc; apply always_safe_plain, Hc).
  assert (Hbase : Path.basename (Path.join directory f) = f) by (apply basename_join, Hslash).
  assert (Hclean : clean_apostrophes f = f) by (apply clean_ascii, Hascii).
  destruct (get_episode_info_filename _ _ _ _ _ _ Hrun) as (Hname & Hlink & Hpath).
  rewrite Hbase, Hclean in Hname, Hlink.
  split; [exact Hname|]. split.
  - rewrite Hpath. unfold renamed_path. rewrite Hbase, Hclean, String.eqb_refl. reflexivity.
  - rewrite Hlink, (quote_unreserved _ Hsafe). reflexivity.
Qed.

Lemma plain_name_is_kept_witness :
  ep_link (mk_episode "Song" "Song.mp3" (PODCAST_LINK +:+ "Song.mp3")
             "Mon, 01 May 2023 00:00:00 " "" None "music/Song.mp3")
  = PODCAST_LINK +:+ "Song.mp3".
Proof.
  apply (plain_name_is_kept "music" "Song.mp3" PODCAST_LINK "music/covers"
           (spec_example ["Song.mp3"; "Other.mp3"])
           (mk_episode "Song" "Song.mp3" (PODCAST_LINK +:+ "Song.mp3")
              "Mon, 01 May 2023 00:00:00 " "" None "music/Song.mp3")
           (run (get_episode_info "music/Song.mp3" PODCAST_LINK "music/covers")
              (spec_example ["Song.mp3"; "Other.mp3"])).2).
  - reflexivity.
  - vm_compute. reflexivity.
Defined.

(** ** The entry point (lines 187-196) *)

(** X22: the exit status is 0 exactly when the feed was written: with a
    target directory, either [build_feed] returns, the document is at
    [feed.xml] of the directory and the status is 0, or it raises, the
    failure is the last entry of the log, at error level, the file at
    [feed.xml] is the one from before the run, and the status is 1. Further
    arguments are ignored. Without target directory the status is 1 and
    nothing is done. *)
Theorem main_exit_status argv w :
  match argv with
  | script :: directory :: others =>
      let out_path := Path.join directory "feed.xml" in
      main argv w = main [script; directory] w
      /\ ((exists items w2,
             run (build_feed directory) w = (Ok tt, written directory items w2)
             /\ main argv w = (0, written directory items w2)
             /\ feed_at (written directory items w2) out_path = Some (rss_of items))
          \/ (exists e w1,
                run (build_feed directory) w = (Raise e, w1)
                /\ main argv w
                   = (1, with_log (ERROR, "Failed to build feed: " +:+ exn_text e) w1)
                /\ fs w1 !! out_path = fs w !! out_path))
  | _ => main argv w = (1, w)
  end.
Proof.
  destruct argv as [|script [|directory others]]; try reflexivity.
  split; [reflexivity|].
  destruct (run (build_feed directory) w) as [[[]|e] w1] eqn:Hrun.
  - left. destruct (build_feed_completed _ _ _ Hrun)
      as (names & infos & v1 & items & w2 & _ & _ & _ & ->).
    exists items, w2. split; [reflexivity|].
    split; [unfold main; rewrite Hrun; reflexivity | apply feed_at_written].
  - right. exists e, w1. split; [reflexivity|].
    split; [unfold main; rewrite Hrun; reflexivity|].
    exact (proj1 (build_feed_raise_keeps _ _ _ _ Hrun)).
Qed.

(** X23: an exception that [get_episode_info] raises for one audio file,
    whatever it is, ends the run there: [build_feed] raises the same
    exception in the world in which that call ended, so that the files
    listed after it are not touched, and the exit status is 1. *)
Theorem first_exception_ends_run directory w names pre f post infos w1 e w' :
  listing w directory = Some names ->
  mp3s_of names = pre ++ f :: post ->
  processed directory (Path.join directory EPISODE_ART_DIR)
    (with_event (EvListdir directory) w) pre infos w1 ->
  run (get_episode_info (Path.join directory f) PODCAST_LINK
         (Path.join directory EPISODE_ART_DIR)) w1 = (Raise e, w') ->
  run (build_feed directory) w = (Raise e, w')
  /\ (forall script,
        main [script; directory] w
        = (1, with_log (ERROR, "Failed to build feed: " +:+ exn_text e) w'))
  /\ feed_at w' (Path.join directory "feed.xml") = feed_at w (Path.join directory "feed.xml").
Proof.
  intros Hls Hsplit Hpre Hstep.
  pose proof (build_feed_raises _ _ _ _ _ _ _ _ _ _ Hls Hsplit Hpre Hstep) as Hrun.
  split; [exact Hrun|]. split.
  - intros script. unfold main. rewrite Hrun. reflexivity.
  - unfold feed_at. rewrite (proj1 (build_feed_raise_keeps _ _ _ _ Hrun)). reflexivity.
Qed.

Lemma first_exception_ends_run_witness :
  run (build_feed "music")
    (example_world [("music/Song.mp3", audio 100 cover_tags);
                    ("music/Zulu.mp3", audio 100 song_tags)]
       ["Song.mp3"; "Zulu.mp3"] NotFound)
  = (Raise (OSError "ffmpeg"),
     (run (get_episode_info "music/Song.mp3" PODCAST_LINK "music/covers")
        (with_event (EvListdir "music")
           (example_world [("music/Song.mp3", audio 100 cover_tags);
                           ("music/Zulu.mp3", audio 100 song_tags)]
              ["Song.mp3"; "Zulu.mp3"] NotFound))).2).
Proof.
  apply (first_exception_ends_run "music"
           (example_world [("music/Song.mp3", audio 100 cover_tags);
                           ("music/Zulu.mp3", audio 100 song_tags)]
              ["Song.mp3"; "Zulu.mp3"] NotFound)
           ["Song.mp3"; "Zulu.mp3"] [] "Song.mp3" ["Zulu.mp3"] []
           (with_event (EvListdir "music")
              (example_world [("music/Song.mp3", audio 100 cover_tags);
                              ("music/Zulu.mp3", audio 100 song_tags)]
                 ["Song.mp3"; "Zulu.mp3"] NotFound))).
  - reflexivity.
  - vm_compute. reflexivity.
  - constructor.
  - vm_compute. reflexivity.
Defined.

(** ** Names, links and identifiers *)

Lemma unquote_quote_byte (c : ascii) (k : string) :
  unquote (quote_byte c k) = String c (unquote k).
Proof.
  destruct c as [[] [] [] [] [] [] [] []];
    (destruct k as [|k1 [|k2 k]]; reflexivity).
Qed.

(** Percent-encoding loses nothing: decoding the encoded name gives the
    name back, so that two different names have different encodings. *)
Lemma quote_injective (a b : string) :
  unquote (quote a) = a /\ (quote a = quote b -> a = b).
Proof.
  assert (Hround : forall s, unquote (quote s) = s).
  { induction s as [|c s IH]; [reflexivity|].
    simpl. rewrite unquote_quote_byte, IH. reflexivity. }
  split; [apply Hround|].
  intros Heq. rewrite <- (Hround a), <- (Hround b), Heq. reflexivity.
Qed.

Lemma percent_encoded_quote_byte (c : ascii) (k : string) :
  percent_encoded (quote_byte c k) = percent_encoded k.
Proof. destruct c as [[] [] [] [] [] [] [] []]; reflexivity. Qed.

Lemma percent_encoded_quote (s : string) : percent_encoded (quote s) = true.
Proof.
  induction s as [|c s IH]; [reflexivity|].
  simpl. rewrite percent_encoded_quote_byte. exact IH.
Qed.

(** X20: in the feed of a run that completes, every enclosure URL is the
    base link followed by a percent-encoded text: unreserved characters and
    slashes, and escapes of a percent sign and two hexadecimal digits, no
    percent sign standing alone. Decoding this text gives the clean name of
    a listed audio file. *)
Theorem enclosure_url_is_percent_encoded directory w w' :
  run (build_feed directory) w = (Ok tt, w') ->
  exists names items,
    listing w directory = Some names
    /\ feed_at w' (Path.join directory "feed.xml") = Some (rss_of items)
    /\ forall it, In it items ->
       exists f rest,
         In f (mp3s_of names)
         /\ enc_url (item_enclosure it) = PODCAST_LINK +:+ rest
         /\ percent_encoded rest = true
         /\ unquote rest = feed_name directory f.
Proof.
  intros Hrun.
  destruct (build_feed_completed _ _ _ Hrun)
    as (names & infos & w1 & items & w2 & Hls & Hproc & Hem & ->).
  exists names, items. split; [exact Hls|]. split; [apply feed_at_written|].
  intros it Hit.
  destruct (emitted_item _ _ _ _ _ Hem Hit) as (info & wa & wb & Hinfo & Hmake).
  apply (proj1 (sorted_episodes_in _ _)) in Hinfo.
  destruct (processed_info _ _ _ _ _ _ _ Hproc Hinfo) as (f & wx & wy & Hf & Hstep).
  destruct (get_episode_info_filename _ _ _ _ _ _ Hstep) as (Hname & _ & _).
  destruct (make_item_fields _ _ _ _ Hmake) as (_ & _ & _ & _ & _ & Hurl & _).
  exists f, (quote (ep_filename info)).
  split; [exact Hf|]. split; [exact Hurl|].
  split; [apply percent_encoded_quote|].
  rewrite Hname. exact (proj1 (quote_injective _ "")).
Qed.

Lemma enclosure_url_is_percent_encoded_witness :
  exists names items,
    listing curly_example "music" = Some names
    /\ feed_at (run (build_feed "music") curly_example).2 (Path.join "music" "feed.xml")
       = Some (rss_of items)
    /\ forall it, In it items ->
       exists f rest,
         In f (mp3s_of names)
         /\ enc_url (item_enclosure it) = PODCAST_LINK +:+ rest
         /\ percent_encoded rest = true
         /\ unquote rest = feed_name "music" f.
Proof.
  apply (enclosure_url_is_percent_encoded "music" curly_example
           (run (build_feed "music") curly_example).2).
  vm_compute. reflexivity.
Defined.

(** A percent sign that starts no escape is not in the form of the results
    of [quote], which writes the percent sign of a name as an escape. *)
Example percent_encoded_examples :
  percent_encoded "It%27s%20a%20song.mp3" = true
  /\ percent_encoded "100%" = false
  /\ percent_encoded "100%2" = false
  /\ percent_encoded "a%2fb" = false
  /\ quote "100%" = "100%25".
Proof. repeat split; reflexivity. Qed.

Lemma NoDup_map_injective {A B} (g : A -> B) (l : list A) :
  (forall a b, g a = g b -> a = b) -> NoDup l -> NoDup (map g l).
Proof.
  intros Hinj. induction 1 as [|x l Hx Hl IH]; simpl; constructor; [|exact IH].
  intros Hin. apply list_elem_of_In, in_map_iff in Hin as (y & Hy & Hin).
  apply Hinj in Hy. subst y. apply Hx, list_elem_of_In, Hin.
Qed.

(** X24: when no two listed audio files have the same clean name, the
    identifiers of the items of the feed are pairwise different, and so are
    the links and the enclosure URLs, which equal them. *)
Theorem distinct_names_give_distinct_guids directory w w' :
  run (build_feed directory) w = (Ok tt, w') ->
  exists names items,
    listing w directory = Some names
    /\ feed_at w' (Path.join directory "feed.xml") = Some (rss_of items)
    /\ (NoDup (map (feed_name directory) (mp3s_of names)) ->
        NoDup (map item_guid items)).
Proof.
  intros Hrun.
  destruct (build_feed_completed_sorted _ _ _ Hrun)
    as (names & infos & w1 & items & w2 & Hls & Hproc & Hem & ->).
  exists names, items. split; [exact Hls|]. split; [apply feed_at_written|].
  intros Hnames.
  destruct (processed_names _ _ _ _ _ _ Hproc) as [Hfiles _].
  assert (Hguid : map item_guid items
                  = map (fun name => PODCAST_LINK +:+ quote name)
                      (map ep_filename (sort_by_key ep_pubDate infos))).
  { clear - Hem. induction Hem as [|v v1 v2 info rest it items Hstep Hrest IH];
      [reflexivity|].
    destruct (make_item_fields _ _ _ _ Hstep) as (_ & _ & _ & _ & Hg & _).
    simpl. rewrite Hg, IH. reflexivity. }
  rewrite Hguid. apply NoDup_map_injective.
  - intros a b Heq. apply (String.app_inj PODCAST_LINK) in Heq.
    exact (proj2 (quote_injective a b) Heq).
  - rewrite <- Hfiles in Hnames.
    assert (Hperm : Permutation (map ep_filename (sort_by_key ep_pubDate infos))
                      (map ep_filename infos))
      by apply Permutation_map, sort_by_key_perm.
    rewrite Hperm. exact Hnames.
Qed.

Lemma distinct_names_give_distinct_guids_witness :
  exists names items,
    listing (spec_example ["Song.mp3"; "Other.mp3"]) "music" = Some names
    /\ feed_at (run (build_feed "music") (spec_example ["Song.mp3"; "Other.mp3"])).2
         (Path.join "music" "feed.xml") = Some (rss_of items).
Proof.
  destruct (distinct_names_give_distinct_guids "music"
              (spec_example ["Song.mp3"; "Other.mp3"])
              (run (build_feed "music") (spec_example ["Song.mp3"; "Other.mp3"])).2)
    as (names & items & Hls & Hfeed & _).
  - vm_compute. reflexivity.
  - exists names, items. split; [exact Hls | exact Hfeed].
Defined.

Lemma emitted_guids w infos items w' :
  emitted w infos items w' ->
  Forall (fun info => ep_link info = PODCAST_LINK +:+ quote (ep_filename info)) infos ->
  map item_guid items = map item_link items.
Proof.
  induction 1 as [|v v1 v2 info rest it items Hstep Hrest IH]; intros Hall; [reflexivity|].
  inversion Hall as [|? ? Hinfo Hrest']; subst.
  destruct (make_item_fields _ _ _ _ Hstep) as (_ & Hl & _ & _ & Hg & _).
  simpl. rewrite Hg, Hl, Hinfo, (IH Hrest'). reflexivity.
Qed.

(** X25: when two listed audio files have the same clean name (their names
    differ only in the kind of apostrophe), the feed of a run that completes
    has two items with the same identifier and the same link. *)
Theorem twin_names_give_equal_guids directory w w' names l1 f l2 g l3 :
  listing w directory = Some names ->
  mp3s_of names = l1 ++ f :: l2 ++ g :: l3 ->
  feed_name directory f = feed_name directory g ->
  run (build_feed directory) w = (Ok tt, w') ->
  exists items,
    feed_at w' (Path.join directory "feed.xml") = Some (rss_of items)
    /\ ~ NoDup (map item_link items)
    /\ map item_guid items = map item_link items.
Proof.
  intros Hls Hsplit Htwin Hrun.
  destruct (build_feed_completed_sorted _ _ _ Hrun)
    as (names' & infos & w1 & items & w2 & Hls' & Hproc & Hem & ->).
  rewrite Hls in Hls'. injection Hls' as <-.
  exists items. split; [apply feed_at_written|].
  destruct (processed_names _ _ _ _ _ _ Hproc) as [Hfiles Hlinks].
  destruct (emitted_links _ _ _ _ Hem) as [Hitems _].
  split.
  - intros Hnodup.
    assert (Hperm : Permutation (map item_link items)
                      (map (feed_url directory) (mp3s_of names))).
    { rewrite Hitems, <- Hlinks. apply Permutation_map, sort_by_key_perm. }
    rewrite Hperm in Hnodup.
    rewrite Hsplit, map_app in Hnodup. apply NoDup_app in Hnodup as (_ & _ & Hnodup).
    simpl in Hnodup. apply NoDup_cons in Hnodup as [Hnotin _].
    apply Hnotin. rewrite map_app. apply elem_of_app. right. simpl.
    unfold feed_url. rewrite Htwin. apply list_elem_of_here.
  - apply (emitted_guids _ _ _ _ Hem).
    apply Forall_forall. intros info Hin. apply list_elem_of_In in Hin.
    apply (Permutation_in _ (sort_by_key_perm ep_pubDate infos)) in Hin.
    destruct (processed_info _ _ _ _ _ _ _ Hproc Hin) as (h & wa & wb & _ & Hstep).
    destruct (get_episode_info_filename _ _ _ _ _ _ Hstep) as (-> & -> & _).
    reflexivity.
Qed.

Lemma twin_names_give_equal_guids_witness :
  exists items,
    feed_at (run (build_feed "music") twin_example).2 (Path.join "music" "feed.xml")
    = Some (rss_of items)
    /\ ~ NoDup (map item_link items).
Proof.
  destruct (twin_names_give_equal_guids "music" twin_example
              (run (build_feed "music") twin_example).2
              ["It" +:+ curly +:+ "s.mp3"; "It's.mp3"]
              [] ("It" +:+ curly +:+ "s.mp3") [] "It's.mp3" [])
    as (items & Hfeed & Hdup & _).
  - reflexivity.
  - vm_compute. reflexivity.
  - vm_compute. reflexivity.
  - vm_compute. reflexivity.
  - exists items. split; [exact Hfeed | exact Hdup].
Defined.

(** The run on the twin names: the renaming replaces [It's.mp3], and both
    items describe the file that was [It’s.mp3]. *)
Example twin_example_run :
  (fun doc => map (fun it => (item_link it, enc_length (item_enclosure it)))
                (channel_items doc))
    <$> feed_at (run (build_feed "music") twin_example).2 "music/feed.xml"
  = Some [(PODCAST_LINK +:+ "It%27s.mp3", "100"); (PODCAST_LINK +:+ "It%27s.mp3", "100")].
Proof. vm_compute. reflexivity. Qed.

(** X26: the renaming settles a name: the clean name of a listed audio file
    still ends in [.mp3], has no curly apostrophe, and is its own clean
    name in whatever directory it is listed, so that a later run lists the
    file again and does not rename it. *)
Theorem renamed_name_is_settled directory f :
  is_mp3 f = true ->
  is_mp3 (feed_name directory f) = true
  /\ Text.contains curly (feed_name directory f) = false
  /\ forall directory', feed_name directory' (feed_name directory f) = feed_name directory f.
Proof.
  intros Hmp3. unfold feed_name.
  destruct (is_mp3_suffix _ Hmp3) as (q & Hlow & Hq).
  assert (Hascii : Text.forall_chars Text.is_ascii q = true)
    by (apply (lower_forall_chars _ _ lower_char_ascii); rewrite Hlow; reflexivity).
  assert (Hslash : Text.forall_chars Text.not_slash q = true)
    by (apply (lower_forall_chars _ _ lower_char_not_slash); rewrite Hlow; reflexivity).
  split; [|split].
  - assert (Hend : Text.endswith q (clean_apostrophes (Path.basename (Path.join directory f)))
                   = true).
    { apply clean_endswith; [exact Hascii|].
      apply basename_endswith; [exact Hslash|]. apply join_endswith, Hq. }
    destruct (endswith_split _ _ Hend) as [r Hr]. rewrite Hr.
    unfold is_mp3. rewrite lower_append, Hlow. apply endswith_append_refl.
  - apply clean_no_curly.
  - intros directory'.
    rewrite basename_join by apply clean_no_slash, basename_no_slash.
    apply clean_fixed, clean_no_curly.
Qed.

Lemma renamed_name_is_settled_witness :
  is_mp3 (feed_name "music" ("It" +:+ curly +:+ "s.MP3")) = true
  /\ Text.contains curly (feed_name "music" ("It" +:+ curly +:+ "s.MP3")) = false.
Proof.
  destruct (renamed_name_is_settled "music" ("It" +:+ curly +:+ "s.MP3")) as (H1 & H2 & _).
  - reflexivity.
  - split; [exact H1 | exact H2].
Defined.

(** X27: a failing extraction repeats itself: when the external command
    exits with a non-zero status, the call adds the temporary file to the
    files other than the log file and nothing else, no cover is cached, and
    a second call fails in the same way and writes the same temporary file
    again, so that these files after it are the ones after the first call.
    Each of the two calls returns no cover and appends one error entry to
    the log file when the bytes of the error stream decode, and raises
    [UnicodeDecodeError] without logging when they do not. *)
Theorem failed_extraction_repeats w mp3_path cover_dir f tags before data after stderr :
  let cover_path := cover_path_of mp3_path cover_dir in
  let temp_path := temp_path_of mp3_path cover_dir in
  let tmp := mk_file (Z.of_nat (String.length data)) (Bytes None) in
  let outcome :=
    if Text.utf8_valid stderr then Ok None else Raise (UnicodeDecodeError stderr) in
  let entries :=
    if Text.utf8_valid stderr
    then [(ERROR, "ffmpeg error for " +:+ mp3_path +:+ ": " +:+ stderr)] else [] in
  fs w !! mp3_path = Some f ->
  file_content f = Bytes (Some tags) ->
  mp3_path <> temp_path ->
  fs w !! cover_path = None ->
  tag_frames tags = before ++ APIC 3 data :: after ->
  Forall (fun tag => is_front_cover tag = false) before ->
  ffmpeg w temp_path cover_path = ExitNonZero stderr ->
  exists w1 w2,
    run (ensure_cover mp3_path cover_dir) w = (outcome, w1)
    /\ fs w1 = <[temp_path := tmp]> (fs w)
    /\ fs w1 !! cover_path = None
    /\ log w1 = log w ++ entries
    /\ run (ensure_cover mp3_path cover_dir) w1 = (outcome, w2)
    /\ fs w2 = fs w1
    /\ log w2 = log w1 ++ entries.
Proof.
  intros cover_path temp_path tmp outcome entries Hf Hc Hne Hmiss Hframes Hbefore Hcmd.
  assert (Htc : temp_path <> cover_path) by apply temp_path_neq_cover_path.
  assert (Hstep : forall v,
            fs v !! mp3_path = Some f -> fs v !! cover_path = None ->
            ffmpeg v temp_path cover_path = ExitNonZero stderr ->
            exists v', run (ensure_cover mp3_path cover_dir) v = (outcome, v')
                       /\ fs v' = <[temp_path := tmp]> (fs v)
                       /\ ffmpeg v' = ffmpeg v
                       /\ log v' = log v ++ entries).
  { intros v Hv Hvmiss Hvcmd.
    rewrite (run_ensure_cover_opened v mp3_path cover_dir f tags Hv Hc).
    fold (cover_name_of mp3_path). fold (cover_path_of mp3_path cover_dir). fold cover_path.
    rewrite bool_decide_eq_false_2 by (rewrite Hvmiss; intros [x Hx]; discriminate).
    rewrite cover_loop_front_cover, Hframes, (front_cover_first _ _ _ Hbefore).
    rewrite run_extract_cover. fold (temp_path_of mp3_path cover_dir). fold temp_path.
    cbn [ffmpeg with_event]. rewrite Hvcmd.
    unfold outcome, entries. destruct (Text.utf8_valid stderr);
      eexists; (split; [reflexivity|]); (split; [reflexivity|]);
      (split; [reflexivity|]); simpl; [reflexivity | rewrite app_nil_r; reflexivity]. }
  destruct (Hstep w Hf Hmiss Hcmd) as (w1 & Hrun1 & Hfs1 & Hff1 & Hlog1).
  assert (Hf1 : fs w1 !! mp3_path = Some f).
  { rewrite Hfs1, lookup_insert_ne; [exact Hf|]. intros Heq. apply Hne. symmetry. exact Heq. }
  assert (Hmiss1 : fs w1 !! cover_path = None).
  { rewrite Hfs1, lookup_insert_ne; [exact Hmiss | exact Htc]. }
  assert (Hcmd1 : ffmpeg w1 temp_path cover_path = ExitNonZero stderr)
    by (rewrite Hff1; exact Hcmd).
  destruct (Hstep w1 Hf1 Hmiss1 Hcmd1) as (w2 & Hrun2 & Hfs2 & _ & Hlog2).
  exists w1, w2. split; [exact Hrun1|]. split; [exact Hfs1|]. split; [exact Hmiss1|].
  split; [exact Hlog1|]. split; [exact Hrun2|]. split; [|exact Hlog2].
  rewrite Hfs2, Hfs1. apply insert_insert_eq.
Qed.

Lemma failed_extraction_repeats_witness :
  exists w1 w2,
    run (ensure_cover "music/Song.mp3" "music/covers")
      (example_world [("music/Song.mp3", audio 100 cover_tags)] ["Song.mp3"]
         (ExitNonZero "Invalid data found")) = (Ok None, w1)
    /\ run (ensure_cover "music/Song.mp3" "music/covers") w1 = (Ok None, w2)
    /\ fs w2 = fs w1.
Proof.
  destruct (failed_extraction_repeats
              (example_world [("music/Song.mp3", audio 100 cover_tags)] ["Song.mp3"]
                 (ExitNonZero "Invalid data found"))
              "music/Song.mp3" "music/covers" (audio 100 cover_tags) cover_tags
              [OtherFrame "TIT2"] "JFIF" [] "Invalid data found")
    as (w1 & w2 & Hrun1 & _ & _ & _ & Hrun2 & Hfs & _).
  - vm_compute. reflexivity.
  - reflexivity.
  - vm_compute. discriminate.
  - vm_compute. reflexivity.
  - reflexivity.
  - repeat constructor.
  - reflexivity.
  - exists w1, w2. split; [exact Hrun1|]. split; [exact Hrun2 | exact Hfs].
Defined.
